(** * The edit-application engine of the image handler

    A shallow embedding of [ImageHandler] (process, applyEdits,
    getOverlayImage, getCropArea, getBoundingBox) and of the JavaScript
    primitives it relies on (parseInt, parseFloat, String.prototype.endsWith
    and replace, ordered objects, truthiness).

    A JavaScript number is the rational that it stands for, or NaN.
    Where the handler multiplies fractions (the crop area, the opacity of
    an overlay) and where it reads a numeral (parseInt, parseFloat), the
    result is rounded to the nearest binary64 number.  Where it works on
    integers (extents, positions, percentages) with the one division by
    100, the exact value is kept; [placement_in_binary64] and
    [scaled_extent_in_binary64] show that the operations of binary64 give
    the same integers for extents below 2^24.  An infinity is read as NaN:
    every number of the handler ends in parseInt or in Buffer.from, which
    treat the two alike.

    The image library (sharp), the object store (S3) and the face detector
    (Rekognition) are collaborators of the handler; they are taken as a
    record of functions, and a handle of the image library is the input
    buffer together with the ordered log of the methods invoked on it. *)

From Stdlib Require Import ZArith QArith Qpower Qround Qabs List String Ascii Bool Lia Lqa.
From Stdlib Require Import DecimalString.
From Stdlib Require Strings.Byte.
Import ListNotations.

Local Open Scope string_scope.
Local Open Scope list_scope.
Local Open Scope Z_scope.

(* ------------------------------------------------------------------ *)
(** ** JavaScript numbers *)

Module JSNumber.

Inductive number : Type :=
| NaN
| Fin (q : Q).

Definition of_Z (z : Z) : number := Fin (inject_Z z).

(** *** Binary64 *)

(** [2^e]. *)
Definition Qpow2 (e : Z) : Q := Qpower 2 e.

(** The integer part of the binary logarithm of a positive rational. *)
Definition ilog2 (a : Q) : Z :=
  let k := Z.log2 (Qnum a) - Z.log2 (Zpos (Qden a)) in
  if Qle_bool (Qpow2 k) a then k else k - 1.

(** The integer nearest to a non-negative rational, the even one of the
    two when it is half way. *)
Definition round_half_even (a : Q) : Z :=
  let f := Qfloor a in
  match Qcompare (a - inject_Z f) (1 # 2) with
  | Lt => f
  | Gt => f + 1
  | Eq => if Z.even f then f else f + 1
  end.

(** The binary64 number nearest to [q], ties to even: a significand of 53
    bits, on the exponent of [q] and not below 2^-1074 (subnormal
    numbers). *)
Definition round64 (q : Q) : Q :=
  if Qeq_bool q 0 then 0%Q
  else
    let a := Qabs q in
    let e := Z.max (ilog2 a - 52) (-1074) in
    let m := round_half_even (a / Qpow2 e) in
    let r := (inject_Z m * Qpow2 e)%Q in
    Qred (if Qle_bool 0 q then r else - r).

(** The number that an operation or a numeral with the exact value [q]
    gives: [q] rounded, and NaN from 2^1024 on, where binary64 has an
    infinity. *)
Definition fl (q : Q) : number :=
  let r := round64 q in
  if Qle_bool (Qpow2 1024) (Qabs r) then NaN else Fin r.

(** [a + b], [a - b], [a * b] and [a / b] in binary64. *)
Definition fadd (a b : number) : number :=
  match a, b with
  | Fin x, Fin y => fl (x + y)
  | _, _ => NaN
  end.

Definition fsub (a b : number) : number :=
  match a, b with
  | Fin x, Fin y => fl (x - y)
  | _, _ => NaN
  end.

Definition fmul (a b : number) : number :=
  match a, b with
  | Fin x, Fin y => fl (x * y)
  | _, _ => NaN
  end.

Definition fdiv (a b : number) : number :=
  match a, b with
  | Fin x, Fin y => if Qeq_bool y 0 then NaN else fl (x / y)
  | _, _ => NaN
  end.

(** *** Integers and hundredths

    The same operations without the rounding, for the arithmetic of the
    handler on integers, whose one division is by the literal 100. *)

Definition add (a b : number) : number :=
  match a, b with
  | Fin x, Fin y => Fin (Qred (x + y))
  | _, _ => NaN
  end.

Definition sub (a b : number) : number :=
  match a, b with
  | Fin x, Fin y => Fin (Qred (x - y))
  | _, _ => NaN
  end.

Definition mul (a b : number) : number :=
  match a, b with
  | Fin x, Fin y => Fin (Qred (x * y))
  | _, _ => NaN
  end.

(** A zero divisor (an infinity or NaN in JavaScript) is mapped to NaN. *)
Definition div (a b : number) : number :=
  match a, b with
  | Fin x, Fin y => if Qeq_bool y 0 then NaN else Fin (Qred (x / y))
  | _, _ => NaN
  end.

(** [a < b]: false as soon as one side is NaN. *)
Definition ltb (a b : number) : bool :=
  match a, b with
  | Fin x, Fin y =>
      match Qcompare x y with Lt => true | _ => false end
  | _, _ => false
  end.

(** Truncation towards zero. *)
Definition trunc (q : Q) : Z :=
  if Qle_bool 0 q then Qfloor q else - Qfloor (- q).

(** The most significant decimal digit of a non-negative integer. *)
Definition leading_digit (n : Z) : Z :=
  match Z.to_int n with
  | Decimal.Pos d | Decimal.Neg d =>
      match d with
      | Decimal.Nil | Decimal.D0 _ => 0
      | Decimal.D1 _ => 1
      | Decimal.D2 _ => 2
      | Decimal.D3 _ => 3
      | Decimal.D4 _ => 4
      | Decimal.D5 _ => 5
      | Decimal.D6 _ => 6
      | Decimal.D7 _ => 7
      | Decimal.D8 _ => 8
      | Decimal.D9 _ => 9
      end
  end.

(** The first non-zero decimal digit of a positive rational below one:
    multiply by ten until the integer part is not zero. *)
Fixpoint first_digit (fuel : nat) (a : Q) : Z :=
  match fuel with
  | O => 0
  | S fuel' =>
      let t := trunc a in
      if 0 <? t then leading_digit t else first_digit fuel' (Qred (a * 10))
  end.

Definition ten_pow_21 : Z := 10 ^ 21.
Definition ten_pow_6 : Z := 10 ^ 6.

(** Does Number::toString print [q] with an exponent?  It does for a
    magnitude of at least 10^21 and for a non-zero magnitude below 10^-6. *)
Definition exponent_form (q : Q) : bool :=
  let a := Qabs q in
  (Qle_bool (inject_Z ten_pow_21) a)
  || (negb (Qeq_bool a 0) && negb (Qle_bool (1 # Z.to_pos ten_pow_6) a)).

(** [parseInt(x)] for a number [x]: the number is converted to a string and
    the leading integer of that string is read back.  In decimal notation
    this is the truncation of [x]; in exponent notation ("2e+23", "5e-7")
    the parse stops at the "e" or at the "." and only the first digit is
    left. *)
Definition parseInt_number (x : number) : number :=
  match x with
  | NaN => NaN
  | Fin q =>
      if exponent_form q then
        let a := Qabs q in
        let d :=
          if Qle_bool 1 a then leading_digit (trunc a)
          else first_digit (S (Pos.to_nat (Pos.size (Qden a)))) a in
        of_Z (if Qle_bool 0 q then d else - d)
      else of_Z (trunc q)
  end.

End JSNumber.

Import JSNumber.

(* ------------------------------------------------------------------ *)
(** ** JavaScript strings *)

Definition ascii_eqb (a b : ascii) : bool := Ascii.eqb a b.

(** [s.endsWith(c)] for a one-character [c]. *)
Fixpoint endsWith (s : string) (c : ascii) : bool :=
  match s with
  | EmptyString => false
  | String a EmptyString => ascii_eqb a c
  | String _ rest => endsWith rest c
  end.

(** [s.replace(c, '')] for a one-character string pattern [c]: only the
    first occurrence is removed. *)
Fixpoint replace_first (s : string) (c : ascii) : string :=
  match s with
  | EmptyString => EmptyString
  | String a rest => if ascii_eqb a c then rest else String a (replace_first rest c)
  end.

(** White space skipped by parseInt and parseFloat (the ASCII part of
    StrWhiteSpaceChar). *)
Definition is_whitespace (c : ascii) : bool :=
  let n := nat_of_ascii c in
  ((n =? 9) || (n =? 10) || (n =? 11) || (n =? 12) || (n =? 13) || (n =? 32))%nat.

Fixpoint skip_whitespace (s : string) : string :=
  match s with
  | String a rest => if is_whitespace a then skip_whitespace rest else s
  | EmptyString => EmptyString
  end.

(** The value of a character as a digit, up to radix 36. *)
Definition digit_value (c : ascii) : option Z :=
  let n := Z.of_nat (nat_of_ascii c) in
  if (48 <=? n) && (n <=? 57) then Some (n - 48)
  else if (97 <=? n) && (n <=? 122) then Some (n - 87)
  else if (65 <=? n) && (n <=? 90) then Some (n - 55)
  else None.

(** The longest prefix of digits of the radix, read as an integer; [acc] is
    [None] as long as no digit has been read. *)
Fixpoint parse_digits (radix : Z) (s : string) (acc : option Z) : option Z * string :=
  match s with
  | EmptyString => (acc, s)
  | String c rest =>
      match digit_value c with
      | Some d =>
          if d <? radix then
            parse_digits radix rest
              (Some (radix * (match acc with Some a => a | None => 0 end) + d))
          else (acc, s)
      | None => (acc, s)
      end
  end.

Definition strip_sign (s : string) : bool * string :=
  match s with
  | String "-" rest => (true, rest)
  | String "+" rest => (false, rest)
  | _ => (false, s)
  end.

(** [parseInt(s)] with no radix argument: the integer that the digits
    denote, rounded to binary64 as every number is (from 2^53 on not every
    integer is a number). *)
Definition parseInt (s : string) : number :=
  let '(neg, s1) := strip_sign (skip_whitespace s) in
  let '(radix, s2) :=
    match s1 with
    | String "0" (String "x" rest) => (16, rest)
    | String "0" (String "X" rest) => (16, rest)
    | _ => (10, s1)
    end in
  match fst (parse_digits radix s2 None) with
  | None => NaN
  | Some n => fl (inject_Z (if neg then - n else n))
  end.

(** Digits after the decimal point: the numerator read so far and the power
    of ten that divides it. *)
Fixpoint parse_fraction (s : string) (num den : Z) : Z * Z * string :=
  match s with
  | EmptyString => (num, den, s)
  | String c rest =>
      match digit_value c with
      | Some d =>
          if d <? 10 then parse_fraction rest (10 * num + d) (10 * den)
          else (num, den, s)
      | None => (num, den, s)
      end
  end.

(** The exponent part of a decimal literal, [0] when there is none or when
    no digit follows the "e". *)
Definition parse_exponent (s : string) : Z :=
  match s with
  | String c rest =>
      if ascii_eqb c "e" || ascii_eqb c "E" then
        let '(neg, digits) := strip_sign rest in
        match fst (parse_digits 10 digits None) with
        | Some e => if neg then - e else e
        | None => 0
        end
      else 0
  | EmptyString => 0
  end.

Definition Qpow10 (e : Z) : Q :=
  if 0 <=? e then inject_Z (10 ^ e) else 1 # Z.to_pos (10 ^ (- e)).

(** [parseFloat(s)] on a string: the longest prefix that is a decimal
    literal, rounded to binary64.  The literal "Infinity" is read as NaN:
    the model has no infinite number, and the handler passes the result to
    parseInt, which maps both to NaN. *)
Definition parseFloat_string (s : string) : number :=
  let '(neg, s1) := strip_sign (skip_whitespace s) in
  let '(ip, s2) := parse_digits 10 s1 None in
  let '(fnum, fden, s3) :=
    match s2 with
    | String "." rest => parse_fraction rest 0 1
    | _ => (0, 1, s2)
    end in
  let no_digit :=
    match ip with
    | Some _ => false
    | None => fden =? 1
    end in
  if no_digit then NaN
  else
    let i := match ip with Some n => n | None => 0 end in
    let m := (inject_Z i + (fnum # Z.to_pos fden))%Q in
    let x := (m * Qpow10 (parse_exponent s3))%Q in
    fl (if neg then - x else x).

(* ------------------------------------------------------------------ *)
(** ** JavaScript values and ordered objects *)

Definition Buffer : Type := list Byte.byte.

(** [new Buffer(s)]: the bytes of the string. *)
Definition Buffer_of_string (s : string) : Buffer := list_byte_of_string s.

#[local] Unset Elimination Schemes.

Inductive value : Type :=
| VUndefined
| VNull
| VBool (b : bool)
| VNum (n : number)
| VStr (s : string)
| VBuf (b : Buffer)
| VArr (items : list value)
| VObj (fields : list (string * value)).

#[local] Set Elimination Schemes.

(** An object is the list of its own properties in the order in which
    [Object.keys] enumerates them.  Values are trees, as JSON.parse builds
    them: no object is reachable under two properties.  The keys that the
    handler adds are not array indices, which [Object.keys] would
    enumerate first. *)
Definition object : Type := list (string * value).

Definition vnum (z : Z) : value := VNum (of_Z z).
Definition vnum_q (q : Q) : value := VNum (Fin q).

(** Conversion to boolean, as performed by [if (v)] and [v ? a : b]. *)
Definition truthy (v : value) : bool :=
  match v with
  | VUndefined | VNull => false
  | VBool b => b
  | VNum NaN => false
  | VNum (Fin q) => negb (Qeq_bool q 0)
  | VStr s => negb (String.eqb s "")
  | VBuf _ | VArr _ | VObj _ => true
  end.

(** [v === undefined]. *)
Definition is_undefined (v : value) : bool :=
  match v with
  | VUndefined => true
  | _ => false
  end.

(** [o[k]] on an object: [undefined] when [k] is not a property. *)
Fixpoint get (o : object) (k : string) : value :=
  match o with
  | [] => VUndefined
  | (k', v) :: rest => if String.eqb k' k then v else get rest k
  end.

(** [o[k] = v]: an existing property keeps its place, a new one goes last. *)
Fixpoint set (o : object) (k : string) (v : value) : object :=
  match o with
  | [] => [(k, v)]
  | (k', v') :: rest =>
      if String.eqb k' k then (k', v) :: rest else (k', v') :: set rest k v
  end.

Definition keys (o : object) : list string := map fst o.
Definition values (o : object) : list value := map snd o.

(** [v.k] for a value that is neither [undefined] nor [null]; the
    properties of primitives, arrays and buffers (length, methods) are not
    modelled and read as [undefined]. *)
Definition prop (v : value) (k : string) : value :=
  match v with
  | VObj o => get o k
  | _ => VUndefined
  end.

(** Decimal notation of a natural number. *)
Definition decimal_string (n : Z) : string :=
  NilZero.string_of_uint (N.to_uint (Z.to_N n)).

Fixpoint index_from {A : Type} (i : Z) (l : list A) : list (string * A) :=
  match l with
  | [] => []
  | x :: rest => (decimal_string i, x) :: index_from (i + 1) rest
  end.

Definition chars (s : string) : list value :=
  map (fun c => VStr (String c EmptyString)) (list_ascii_of_string s).

(** The own enumerable properties copied by [{...v}]. *)
Definition spread (v : value) : object :=
  match v with
  | VObj o => o
  | VArr items => index_from 0 items
  | VStr s => index_from 0 (chars s)
  | _ => []
  end.

(** The element of an array under a property key [i]: [Some] when the
    string form of [i] is an index of the array, [None] when it is not.
    The other properties of an array ([length], what it inherits) are the
    matter of [array_property] below. *)
Fixpoint element {A : Type} (a : list A) (i : value) : option A :=
  let of_string (s : string) :=
    match parse_digits 10 s None with
    | (Some n, EmptyString) =>
        if String.eqb (decimal_string n) s then nth_error a (Z.to_nat n) else None
    | _ => None
    end in
  match i with
  | VNum (Fin q) =>
      if Qeq_bool (inject_Z (trunc q)) q && (0 <=? trunc q)
      then nth_error a (Z.to_nat (trunc q)) else None
  | VStr s => of_string s
  | VBuf b => of_string (string_of_list_byte b)
  | VArr [x] => element a x
  | _ => None
  end.

(** [parseFloat(v)]: the argument is converted to a string first; a number
    is read back unchanged. *)
Fixpoint parseFloat (v : value) : number :=
  match v with
  | VNum n => n
  | VStr s => parseFloat_string s
  | VBuf b => parseFloat_string (string_of_list_byte b)
  | VArr (x :: _) => parseFloat x
  | _ => NaN
  end.

(** A character class [[lo-hi]]. *)
Definition in_range (lo hi c : ascii) : bool :=
  ((nat_of_ascii lo <=? nat_of_ascii c) && (nat_of_ascii c <=? nat_of_ascii hi))%nat.

(** The regular expression [/^(100|[1-9]?[0-9])$/] on a string: the
    literal "100", or one digit, preceded or not by a digit from 1 to 9. *)
Definition zeroToHundred_test (s : string) : bool :=
  String.eqb s "100"
  || match s with
     | String a (String b EmptyString) => in_range "1" "9" a && in_range "0" "9" b
     | String b EmptyString => in_range "0" "9" b
     | _ => false
     end.

(** [zeroToHundred.test(v)] together with the number that [v] then denotes
    (in arithmetic and under parseInt alike).  The test converts [v] to a
    string: for a number, whose string form is canonical, it succeeds
    exactly on the integers from 0 to 100. *)
Fixpoint zeroToHundred (v : value) : option Z :=
  let of_string (s : string) :=
    if zeroToHundred_test s then fst (parse_digits 10 s None) else None in
  match v with
  | VNum (Fin q) =>
      if Qeq_bool (inject_Z (trunc q)) q && (0 <=? trunc q) && (trunc q <=? 100)
      then Some (trunc q) else None
  | VStr s => of_string s
  | VBuf b => of_string (string_of_list_byte b)
  | VArr [x] => zeroToHundred x
  | _ => None
  end.

(** Base64 ([buffer.toString('base64')]). *)
Definition base64_alphabet : string :=
  "ABCDEFGHIJKLMNOPQRSTUVWXYZabcdefghijklmnopqrstuvwxyz0123456789+/".

Definition base64_char (n : N) : ascii :=
  match String.get (N.to_nat n) base64_alphabet with
  | Some c => c
  | None => "="%char
  end.

Fixpoint base64 (l : Buffer) : string :=
  match l with
  | [] => ""
  | [a] =>
      let x := Byte.to_N a in
      String (base64_char (x / 4))
        (String (base64_char ((x mod 4) * 16)) "==")
  | [a; b] =>
      let x := Byte.to_N a in
      let y := Byte.to_N b in
      String (base64_char (x / 4))
        (String (base64_char ((x mod 4) * 16 + y / 16))
           (String (base64_char ((y mod 16) * 4)) "="))
  | a :: b :: c :: rest =>
      let x := Byte.to_N a in
      let y := Byte.to_N b in
      let z := Byte.to_N c in
      String (base64_char (x / 4))
        (String (base64_char ((x mod 4) * 16 + y / 16))
           (String (base64_char ((y mod 16) * 4 + z / 64))
              (String (base64_char (z mod 64)) (base64 rest))))
  end%N.

(* ------------------------------------------------------------------ *)
(** ** Errors, collaborators and the handler's monad *)

(** What a [throw] or a rejected promise carries: the four properties of
    an error object that the handler reads or writes, [undefined] when
    absent. *)
Record thrown : Type := mkThrown {
  err_status : value;
  err_statusCode : value;
  err_code : value;
  err_message : value
}.

(** The plain object [{status, code, message}] that the handler rejects
    with. *)
Definition rejection (status code message : value) : thrown :=
  mkThrown status VUndefined code message.

(** A TypeError raised by the engine. *)
Definition TypeError (message : string) : thrown :=
  mkThrown VUndefined VUndefined VUndefined (VStr message).

Inductive outcome (A : Type) : Type :=
| Resolved (a : A)
| Failed (e : thrown).

Arguments Resolved {A} a.
Arguments Failed {A} e.

(** A handle of the image library: the input it was opened on, the
    options of the constructor and the methods invoked so far, oldest
    first. *)
Record Sharp : Type := mkSharp {
  sharp_input : Buffer;
  sharp_options : value;
  sharp_calls : list (string * value)
}.

(** [sharp(input)] and [sharp(input, options)]. *)
Definition sharp (input : Buffer) (options : value) : Sharp :=
  mkSharp input options [].

Record Metadata : Type := mkMetadata {
  width : Z;
  height : Z
}.

Record BoundingBox : Type := mkBoundingBox {
  Left : number;
  Top : number;
  Width : number;
  Height : number
}.

(** The collaborators of the handler: [metadata()] and [toBuffer()] of a
    handle; [sharp_invoke h name arg], the synchronous check made when
    method [name] is called on handle [h] ([Some e] when the call throws
    [e]); the [Body] of [s3.getObject({Bucket, Key})]; the bounding boxes
    of [response.FaceDetails] of [rekognition.detectFaces]; and, of the
    engine, the conversion of a value that is not a string to a string and
    the names of the properties that an array inherits from its prototypes
    (concat, map, constructor and the like). *)
Record Collaborators : Type := mkCollaborators {
  sharp_metadata : Sharp -> outcome Metadata;
  sharp_toBuffer : Sharp -> outcome Buffer;
  sharp_invoke : Sharp -> string -> value -> option thrown;
  s3_getObject : value -> value -> outcome Buffer;
  rekognition_detectFaces : Buffer -> outcome (list BoundingBox);
  String_of : value -> string;
  Array_inherits : string -> bool
}.

(** The state that [applyEdits] works on: the caller's [edits] object,
    which it patches in place, and the handle [image]. *)
Record state : Type := mkState {
  st_edits : object;
  st_image : Sharp
}.

Definition M (A : Type) : Type := state -> outcome A * state.

Definition ret {A : Type} (a : A) : M A := fun s => (Resolved a, s).

Definition bind {A B : Type} (m : M A) (f : A -> M B) : M B :=
  fun s =>
    match m s with
    | (Resolved a, s') => f a s'
    | (Failed e, s') => (Failed e, s')
    end.

Definition throw {A : Type} (e : thrown) : M A := fun s => (Failed e, s).

(** [await p] for a promise that is already settled. *)
Definition await {A : Type} (p : outcome A) : M A := fun s => (p, s).

Definition gets {A : Type} (f : state -> A) : M A := fun s => (Resolved (f s), s).

Definition modify (f : state -> state) : M unit := fun s => (Resolved tt, f s).

(** [try { m } catch (err) { h err }]. *)
Definition try_catch {A : Type} (m : M A) (h : thrown -> M A) : M A :=
  fun s =>
    match m s with
    | (Resolved a, s') => (Resolved a, s')
    | (Failed e, s') => h e s'
    end.

Declare Scope handler_scope.
Delimit Scope handler_scope with handler.

Notation "x <- m ;; k" := (bind m (fun x => k))
  (at level 100, m at next level, right associativity) : handler_scope.
Notation "m ;;; k" := (bind m (fun _ => k))
  (at level 100, right associativity) : handler_scope.

Local Open Scope handler_scope.

(** Calling method [name] with argument [arg] on a handle: the call
    throws, or it is appended to the handle's log. *)
Definition call (c : Collaborators) (h : Sharp) (name : string) (arg : value) : outcome Sharp :=
  match sharp_invoke c h name arg with
  | Some e => Failed e
  | None =>
      Resolved (mkSharp (sharp_input h) (sharp_options h) (sharp_calls h ++ [(name, arg)]))
  end.

(** The same on [image], the handle of the state. *)
Definition image_call (c : Collaborators) (name : string) (arg : value) : M unit :=
  image <- gets st_image ;;
  image' <- await (call c image name arg) ;;
  modify (fun s => mkState (st_edits s) image').

(** The message of the TypeError that the engine raises on reading a
    property of [undefined] or [null] (as worded by the V8 of Node.js 8 to
    14, which is the wording [getBoundingBox] tests for). *)
Definition cannot_read (property : string) (base : string) : string :=
  "Cannot read property '" ++ property ++ "' of " ++ base.

(** [v.k] where [v] may be [undefined] or [null]. *)
Definition read (v : value) (k : string) : outcome value :=
  match v with
  | VUndefined => Failed (TypeError (cannot_read k "undefined"))
  | VNull => Failed (TypeError (cannot_read k "null"))
  | _ => Resolved (prop v k)
  end.

(** [const { k, ... } = v]: destructuring [undefined] or [null] throws. *)
Definition destructurable (v : value) (k : string) : outcome unit :=
  match v with
  | VUndefined =>
      Failed (TypeError ("Cannot destructure property `" ++ k ++ "` of 'undefined' or 'null'."))
  | VNull =>
      Failed (TypeError ("Cannot destructure property `" ++ k ++ "` of 'undefined' or 'null'."))
  | _ => Resolved tt
  end.

Definition and_then {A B : Type} (m : outcome A) (f : A -> outcome B) : outcome B :=
  match m with
  | Resolved a => f a
  | Failed e => Failed e
  end.

Notation "x <~ m ;; k" := (and_then m (fun x => k))
  (at level 100, m at next level, right associativity) : handler_scope.

(** An element of the array given to [Buffer.from]: truncated, then
    reduced modulo 256. *)
Definition byte_of_number (n : number) : Byte.byte :=
  match n with
  | Fin q =>
      match Byte.of_N (Z.to_N (trunc q mod 256)) with
      | Some b => b
      | None => Byte.x00
      end
  | NaN => Byte.x00
  end.

(** [a === s] for a string literal [s]. *)
Definition is_string (a : value) (s : string) : bool :=
  match a with
  | VStr s' => String.eqb s' s
  | _ => false
  end.

(** The fixed markup of a watermark, before and after the interpolated
    [${name}]. *)
Record Template : Type := mkTemplate {
  before_name : string;
  after_name : string
}.

(** The three template literals: the one of image-handler.js, and the
    "cute" and the banner one of the variant with styles. *)
Record Templates : Type := mkTemplates {
  svg_gradient : Template;
  svg_cute : Template;
  svg_banner : Template
}.

(** The two versions of [applyEdits] in the repository differ in the
    TEPWatermark branch only: [Fetching] is image-handler.js, which fetches
    an overlay image; [Styled] is the version with the "cute" style. *)
Inductive Variant : Type :=
| Fetching
| Styled.

(* ------------------------------------------------------------------ *)
(** ** ImageHandler *)

Section ImageHandler.

Variable c : Collaborators.
Variable templates : Templates.

(** [getOverlayImage(bucket, key, wRatio, hRatio, alpha, sourceImageMetadata)] *)
Definition getOverlayImage (bucket key wRatio hRatio alpha : value)
    (sourceImageMetadata : Metadata) : outcome Buffer :=
  let attempt : outcome Buffer :=
    let width := width sourceImageMetadata in
    let height := height sourceImageMetadata in
    overlayImage <~ s3_getObject c bucket key ;;
    let resize : object := [("fit", VStr "inside")] in
    let resize :=
      match zeroToHundred wRatio with
      | Some r =>
          set resize "width"
            (VNum (parseInt_number (div (mul (of_Z width) (of_Z r)) (of_Z 100))))
      | None => resize
      end in
    let resize :=
      match zeroToHundred hRatio with
      | Some r =>
          set resize "height"
            (VNum (parseInt_number (div (mul (of_Z height) (of_Z r)) (of_Z 100))))
      | None => resize
      end in
    let alpha :=
      match zeroToHundred alpha with
      | Some a => of_Z a
      | None => of_Z 0
      end in
    let tile : Buffer :=
      [Byte.xff; Byte.xff; Byte.xff;
       byte_of_number (fmul (of_Z 255) (fsub (of_Z 1) (fdiv alpha (of_Z 100))))] in
    resized <~ call c (sharp overlayImage VUndefined) "resize" (VObj resize) ;;
    composed <~ call c resized "composite"
      (VArr [VObj [("input", VBuf tile);
                   ("raw", VObj [("width", vnum 1); ("height", vnum 1); ("channels", vnum 4)]);
                   ("tile", VBool true);
                   ("blend", VStr "dest-in")]]) ;;
    sharp_toBuffer c composed in
  match attempt with
  | Resolved convertedImage => Resolved convertedImage
  | Failed err =>
      Failed (rejection
                (if truthy (err_statusCode err) then err_statusCode err else vnum 500)
                (err_code err)
                (err_message err))
  end.

(** [(options.padding !== undefined) ? parseFloat(options.padding) : 0] *)
Definition padding_of (options : value) : number :=
  if negb (is_undefined (prop options "padding"))
  then parseFloat (prop options "padding") else of_Z 0.

(** [getCropArea(boundingBox, options, metadata)] for a bounding box that
    is defined; smartCrop below has the case of [undefined]. *)
Definition getCropArea (boundingBox : BoundingBox) (options : value)
    (metadata : Metadata) : value :=
  let padding := padding_of options in
  VObj
    [("left", VNum (parseInt_number
        (fsub (fmul (Left boundingBox) (of_Z (width metadata))) padding)));
     ("top", VNum (parseInt_number
        (fsub (fmul (Top boundingBox) (of_Z (height metadata))) padding)));
     ("width", VNum (parseInt_number
        (fadd (fmul (Width boundingBox) (of_Z (width metadata))) (fmul padding (of_Z 2)))));
     ("height", VNum (parseInt_number
        (fadd (fmul (Height boundingBox) (of_Z (height metadata))) (fmul padding (of_Z 2)))))].

(** Is the key [i], which is not an index of the array, the name of a
    property that every array has: [length], or an inherited one?  Such a
    property is a number or a function, and has no [BoundingBox]. *)
Fixpoint array_property (i : value) : bool :=
  let named (s : string) := String.eqb s "length" || Array_inherits c s in
  match i with
  | VStr s => named s
  | VBuf b => named (string_of_list_byte b)
  | VArr [x] => array_property x
  | _ => false
  end.

(** [getBoundingBox(imageBuffer, faceIndex)]: the promise resolves with a
    bounding box, or with [undefined] (here [None]). *)
Definition getBoundingBox (imageBuffer : Buffer) (faceIndex : value)
  : outcome (option BoundingBox) :=
  let faceIdx := if negb (is_undefined faceIndex) then faceIndex else vnum 0 in
  let attempt : outcome (option BoundingBox) :=
    FaceDetails <~ rekognition_detectFaces c imageBuffer ;;
    match element FaceDetails faceIdx with
    | Some boundingBox => Resolved (Some boundingBox)
    | None =>
        if array_property faceIdx then Resolved None
        else Failed (TypeError (cannot_read "BoundingBox" "undefined"))
    end in
  match attempt with
  | Resolved boundingBox => Resolved boundingBox
  | Failed err =>
      if is_string (err_message err) "Cannot read property 'BoundingBox' of undefined" then
        Failed (rejection (vnum 400) (VStr "SmartCrop::FaceIndexOutOfRange")
                  (VStr "You have provided a FaceIndex value that exceeds the length of the zero-based detectedFaces array. Please specify a value that is in-range."))
      else
        Failed (rejection (vnum 500) (err_code err) (err_message err))
  end.

(** The block [let imageMetadata = metadata; if (edits.resize) { ... }],
    which the overlayWith and the TEPWatermark branch both start with. *)
Definition pendingResizeMetadata (metadata : Metadata) : M Metadata :=
  resize <- gets (fun s => get (st_edits s) "resize") ;;
  if truthy resize then
    image <- gets st_image ;;
    imageBuffer <- await (sharp_toBuffer c image) ;;
    copy <- await (call c (sharp imageBuffer VUndefined) "resize"
                     (VObj [("edits", VObj [("resize", resize)])])) ;;
    await (sharp_metadata c copy)
  else ret metadata.

(** The arithmetic of the overlayWith branch on one axis: [position] is
    [options.left] (resp. [options.top]), [base] and [overlay] are the
    widths (resp. heights) of [imageMetadata] and [overlayMetadata].  The
    source spells the block out twice, once per axis. *)
Definition resolvePosition (position : string) (base overlay : Z) : number :=
  if endsWith position "p" then
    let p := parseInt (replace_first position "p") in
    if ltb p (of_Z 0) then
      sub (add (of_Z base) (div (mul (of_Z base) p) (of_Z 100))) (of_Z overlay)
    else
      div (mul (of_Z base) p) (of_Z 100)
  else
    let v := parseInt position in
    if ltb v (of_Z 0) then sub (add (of_Z base) v) (of_Z overlay) else v.

(** The same arithmetic with every operation rounded to binary64, as the
    engine performs it. *)
Definition resolvePosition64 (position : string) (base overlay : Z) : number :=
  if endsWith position "p" then
    let p := parseInt (replace_first position "p") in
    if ltb p (of_Z 0) then
      fsub (fadd (of_Z base) (fdiv (fmul (of_Z base) p) (of_Z 100))) (of_Z overlay)
    else
      fdiv (fmul (of_Z base) p) (of_Z 100)
  else
    let v := parseInt position in
    if ltb v (of_Z 0) then fsub (fadd (of_Z base) v) (of_Z overlay) else v.

(** [options.left = parseInt(left)] writes into the object that
    [edits.overlayWith.options] refers to: entry [i] of the caller's edits
    gets the new [options]. *)
Definition store_options (i : nat) (options : value) (edits : object) : object :=
  match nth_error edits i with
  | Some (k, VObj fields) =>
      firstn i edits ++ (k, VObj (set fields "options" options)) :: skipn (S i) edits
  | _ => edits
  end.

(** [if (options.left) { ... options.left = parseInt(left); }] and the same
    for [top]. *)
Definition placeAxis (i : nat) (options : value) (axis : string) (base overlay : Z) : M value :=
  let position := prop options axis in
  if truthy position then
    match position with
    | VStr s =>
        let resolved := VNum (parseInt_number (resolvePosition s base overlay)) in
        let options' :=
          match options with
          | VObj fields => VObj (set fields axis resolved)
          | _ => options
          end in
        modify (fun s => mkState (store_options i options' (st_edits s)) (st_image s)) ;;;
        ret options'
    | _ => throw (TypeError (axis ++ ".endsWith is not a function"))
    end
  else ret options.

(** The branch [key === 'overlayWith']; [i] is the loop index and [value]
    is [values[i]]. *)
Definition overlayWith (metadata : Metadata) (i : nat) (value : value) : M unit :=
  imageMetadata <- pendingResizeMetadata metadata ;;
  await (destructurable value "bucket") ;;;
  overlay <- await (getOverlayImage (prop value "bucket") (prop value "key")
                      (prop value "wRatio") (prop value "hRatio") (prop value "alpha")
                      imageMetadata) ;;
  overlayMetadata <- await (sharp_metadata c (sharp overlay VUndefined)) ;;
  let options := prop value "options" in
  options <-
    (if truthy options then
       options <- placeAxis i options "left" (width imageMetadata) (width overlayMetadata) ;;
       placeAxis i options "top" (height imageMetadata) (height overlayMetadata)
     else ret options) ;;
  let params := VArr [VObj (set (spread options) "input" (VBuf overlay))] in
  image_call c "composite" params.

(** The branch [key === 'smartCrop']. *)
Definition smartCrop (metadata : Metadata) (value : value) : M unit :=
  let options := value in
  image <- gets st_image ;;
  imageBuffer <- await (sharp_toBuffer c image) ;;
  faceIndex <- await (read options "faceIndex") ;;
  boundingBox <- await (getBoundingBox imageBuffer faceIndex) ;;
  cropArea <-
    await (match boundingBox with
           | Some boundingBox => Resolved (getCropArea boundingBox options metadata)
           | None => Failed (TypeError (cannot_read "Left" "undefined"))
           end) ;;
  try_catch
    (image_call c "extract" cropArea)
    (fun err =>
       throw (rejection (vnum 400) (VStr "SmartCrop::PaddingOutOfBounds")
                (VStr "The padding value you provided exceeds the boundaries of the original image. Please try choosing a smaller value or applying padding via Sharp for greater specificity."))).

(** A template literal with [${name}] filled in. *)
Definition interpolate (t : Template) (name : value) : string :=
  before_name t
  ++ match name with
     | VStr s => s
     | _ => String_of c name
     end
  ++ after_name t.

(** [const { k = '' } = o]: the default replaces [undefined] only. *)
Definition with_default (v : value) : value :=
  if is_undefined v then VStr "" else v.

(** The branch [key === 'TEPWatermark'] of image-handler.js. *)
Definition TEPWatermark_fetching (metadata : Metadata) (value : value) : M unit :=
  imageMetadata <- pendingResizeMetadata metadata ;;
  await (destructurable value "bucket") ;;;
  let options := prop value "options" in
  await (destructurable options "name") ;;;
  let name := with_default (prop options "name") in
  overlay <- await (getOverlayImage (prop value "bucket") (prop value "key")
                      (prop value "wRatio") (prop value "hRatio") (prop value "alpha")
                      imageMetadata) ;;
  let watermark := Buffer_of_string (interpolate (svg_gradient templates) name) in
  let params := VArr [VObj (set (spread options) "input" (VBuf watermark))] in
  image_call c "composite" params.

(** The branch [key === 'TEPWatermark'] of the variant with styles. *)
Definition TEPWatermark_styled (metadata : Metadata) (value : value) : M unit :=
  await (destructurable value "options") ;;;
  let options := prop value "options" in
  await (destructurable options "name") ;;;
  let name := with_default (prop options "name") in
  let style := with_default (prop options "style") in
  imageMetadata <- pendingResizeMetadata metadata ;;
  let watermark :=
    if is_string style "cute"
    then Buffer_of_string (interpolate (svg_cute templates) name)
    else Buffer_of_string (interpolate (svg_banner templates) name) in
  if (340 <? width imageMetadata)
     || ((150 <? width imageMetadata) && is_string style "cute")
  then
    let params := VArr [VObj (set (spread options) "input" (VBuf watermark))] in
    image_call c "composite" params
  else ret tt.

Definition TEPWatermark (v : Variant) : Metadata -> value -> M unit :=
  match v with
  | Fetching => TEPWatermark_fetching
  | Styled => TEPWatermark_styled
  end.

(** The body of the loop of [applyEdits] for [keys[i]] and [values[i]]. *)
Definition applyEdit (v : Variant) (metadata : Metadata) (i : nat)
    (key : string) (value : value) : M unit :=
  if String.eqb key "overlayWith" then overlayWith metadata i value
  else if String.eqb key "smartCrop" then smartCrop metadata value
  else if String.eqb key "TEPWatermark" then TEPWatermark v metadata value
  else image_call c key value.

(** One turn of the loop of [applyEdits]: [const key = keys[i]; const value =
    values[i];] and the branches.  [values[i]] is read from the object as
    it is now: the array [values] holds references, and the only writes of
    the loop go through them. *)
Definition turn (v : Variant) (metadata : Metadata) (i : nat) (key : string) : M unit :=
  value <- gets (fun s => nth i (values (st_edits s)) VUndefined) ;;
  applyEdit v metadata i key value.

(** The loop [for (let i = 0; i < keys.length; i++)] from index [i] on,
    [keys] being what is left of [Object.keys(edits)]. *)
Fixpoint applyEditsFrom (v : Variant) (metadata : Metadata) (i : nat)
    (keys : list string) : M unit :=
  match keys with
  | [] => ret tt
  | key :: keys' =>
      turn v metadata i key ;;;
      applyEditsFrom v metadata (S i) keys'
  end.

(** [if (edits.resize === undefined) { edits.resize = {}; edits.resize.fit = 'inside'; }] *)
Definition defaultResize (edits : object) : object :=
  if is_undefined (get edits "resize")
  then set edits "resize" (VObj [("fit", VStr "inside")])
  else edits.

(** [applyEdits(originalImage, edits)]: the returned handle, or the error,
    together with the caller's [edits] object as the call leaves it. *)
Definition applyEdits (v : Variant) (originalImage : Buffer) (edits : object)
  : outcome Sharp * object :=
  let edits := defaultResize edits in
  let image := sharp originalImage (VObj [("failOnError", VBool false)]) in
  let run : M Sharp :=
    metadata <- await (sharp_metadata c image) ;;
    applyEditsFrom v metadata 0 (keys edits) ;;;
    gets st_image in
  let '(result, s) := run (mkState edits image) in
  (result, st_edits s).

Record ImageRequest : Type := mkImageRequest {
  originalImage : Buffer;
  edits : option object;
  outputFormat : value
}.

(** [process(request)]: the base64 string, or the error, together with
    [request.edits] as the call leaves it. *)
Definition process (v : Variant) (request : ImageRequest) : outcome string * option object :=
  let originalImage := originalImage request in
  match edits request with
  | Some edits =>
      let '(applied, edits') := applyEdits v originalImage edits in
      (modifiedImage <~ applied ;;
       modifiedImage <~
         (if negb (is_undefined (outputFormat request))
          then call c modifiedImage "toFormat" (outputFormat request)
          else Resolved modifiedImage) ;;
       bufferImage <~ sharp_toBuffer c modifiedImage ;;
       Resolved (base64 bufferImage),
       Some edits')
  | None => (Resolved (base64 originalImage), None)
  end.

End ImageHandler.

(** The integer part of a value that is a number. *)
Definition integer (v : value) : option Z :=
  match v with
  | VNum (Fin q) => Some (trunc q)
  | _ => None
  end.

(* ------------------------------------------------------------------ *)
(** ** A small instance of the collaborators

    Used to run the handler on concrete requests.  An image is encoded as
    its width and its height, one byte each, followed by ancillary bytes
    that an encoder does not reproduce. *)

Module Sim.

Definition byte_of_Z (z : Z) : Byte.byte :=
  match Byte.of_N (Z.to_N (z mod 256)) with
  | Some b => b
  | None => Byte.x00
  end.

Definition Z_of_byte (b : Byte.byte) : Z := Z.of_N (Byte.to_N b).

Definition encode (m : Metadata) : Buffer := [byte_of_Z (width m); byte_of_Z (height m)].

Definition decode (b : Buffer) : Metadata :=
  match b with
  | w :: h :: _ => mkMetadata (Z_of_byte w) (Z_of_byte h)
  | _ => mkMetadata 0 0
  end.

(** [resize(options)] reads [options.width] and [options.height] and
    keeps the image inside them, preserving its aspect ratio. *)
Definition resized (m : Metadata) (options : value) : Metadata :=
  match integer (prop options "width"), integer (prop options "height") with
  | Some w, Some h =>
      if w * height m <=? h * width m
      then mkMetadata w (height m * w / width m)
      else mkMetadata (width m * h / height m) h
  | Some w, None => mkMetadata w (height m * w / width m)
  | None, Some h => mkMetadata (width m * h / height m) h
  | None, None => m
  end.

Definition extracted (m : Metadata) (area : value) : Metadata :=
  match integer (prop area "width"), integer (prop area "height") with
  | Some w, Some h => mkMetadata w h
  | _, _ => m
  end.

Definition apply_call (m : Metadata) (call : string * value) : Metadata :=
  if String.eqb (fst call) "resize" then resized m (snd call)
  else if String.eqb (fst call) "extract" then extracted m (snd call)
  else m.

(** The dimensions of the image that a handle produces. *)
Definition dimensions (h : Sharp) : Metadata :=
  fold_left apply_call (sharp_calls h) (decode (sharp_input h)).

(** A rectangle that is not inside the image. *)
Definition out_of_bounds (m : Metadata) (area : value) : bool :=
  match integer (prop area "left"), integer (prop area "top"),
        integer (prop area "width"), integer (prop area "height") with
  | Some l, Some t, Some w, Some h =>
      (l <? 0) || (t <? 0) || (width m <? l + w) || (height m <? t + h)
  | _, _, _, _ => true
  end.

Definition bad_extract_area : thrown :=
  mkThrown VUndefined VUndefined VUndefined (VStr "extract_area: bad extract area").

(** A non-negative integer. *)
Definition natural (v : value) : bool :=
  match v with
  | VNum (Fin q) => Qeq_bool (inject_Z (trunc q)) q && (0 <=? trunc q)
  | _ => false
  end.

Definition invalid_parameter (name : string) : thrown :=
  mkThrown VUndefined VUndefined VUndefined (VStr ("Expected integer for " ++ name)).

(** As the image library does, [extract] throws at once when [left],
    [top], [width] or [height] is not a non-negative integer, and on
    nothing else: whether the rectangle fits the image is found out when
    the image is encoded.  The other methods accept every argument. *)
Definition invoke (h : Sharp) (name : string) (arg : value) : option thrown :=
  if String.eqb name "extract" then
    if negb (natural (prop arg "left")) then Some (invalid_parameter "left")
    else if negb (natural (prop arg "top")) then Some (invalid_parameter "top")
    else if negb (natural (prop arg "width")) then Some (invalid_parameter "width")
    else if negb (natural (prop arg "height")) then Some (invalid_parameter "height")
    else None
  else None.

(** Does every [extract] of the log fit the image that it is applied to? *)
Fixpoint fits (m : Metadata) (calls : list (string * value)) : bool :=
  match calls with
  | [] => true
  | call :: rest =>
      negb (String.eqb (fst call) "extract" && out_of_bounds m (snd call))
      && fits (apply_call m call) rest
  end.

(** [toBuffer()]: the encoding of the image, unless an [extract] does not
    fit. *)
Definition toBuffer (h : Sharp) : outcome Buffer :=
  if fits (decode (sharp_input h)) (sharp_calls h)
  then Resolved (encode (dimensions h))
  else Failed bad_extract_area.

(** The properties that an array inherits. *)
Definition inherited (name : string) : bool :=
  existsb (String.eqb name)
    ["constructor"; "concat"; "copyWithin"; "entries"; "every"; "fill"; "filter";
     "find"; "findIndex"; "forEach"; "includes"; "indexOf"; "join"; "keys";
     "lastIndexOf"; "map"; "pop"; "push"; "reduce"; "reduceRight"; "reverse";
     "shift"; "slice"; "some"; "sort"; "splice"; "toLocaleString"; "toString";
     "unshift"; "values"; "hasOwnProperty"; "isPrototypeOf";
     "propertyIsEnumerable"; "valueOf"; "__proto__"].

Definition NoSuchKey : thrown :=
  mkThrown VUndefined (vnum 404) (VStr "NoSuchKey") (VStr "The specified key does not exist.").

(** The store holds one overlay, 20 by 10, under the key "logo.png". *)
Definition getObject (bucket key : value) : outcome Buffer :=
  if is_string key "logo.png" then Resolved (encode (mkMetadata 20 10) ++ [Byte.x2a])
  else Failed NoSuchKey.

(** The detector finds one face in every image:
    {Left: 0.1, Top: 0.2, Width: 0.5, Height: 0.4}. *)
Definition face : BoundingBox :=
  mkBoundingBox (fl (1 # 10)) (fl (2 # 10)) (fl (5 # 10)) (fl (4 # 10)).

Definition collaborators : Collaborators :=
  mkCollaborators
    (fun h => Resolved (dimensions h))
    toBuffer
    invoke
    getObject
    (fun _ => Resolved [face])
    (fun _ => "")
    inherited.

Definition templates : Templates :=
  mkTemplates (mkTemplate "<svg><tspan>" "</tspan></svg>")
              (mkTemplate "<svg id=cute><text>" "</text></svg>")
              (mkTemplate "<svg id=banner><text>" "</text></svg>").

(** An image of 200 by 100 with three ancillary bytes. *)
Definition picture : Buffer := encode (mkMetadata 200 100) ++ [Byte.x01; Byte.x02; Byte.x03].

End Sim.

(* ------------------------------------------------------------------ *)
(** ** The vocabulary of the statements *)

(** The position as the specification words it: [percent] tells whether
    the value carries the percent marker, [n] is the integer parsed from
    it, [base] and [overlay] are the extents of the base image and of the
    overlay on the axis. *)
Definition placement_formula (percent : bool) (n base overlay : Z) : Q :=
  if percent then
    if n <? 0
    then (inject_Z base + inject_Z base * inject_Z n / 100 - inject_Z overlay)%Q
    else (inject_Z base * inject_Z n / 100)%Q
  else
    if n <? 0
    then (inject_Z base + inject_Z n - inject_Z overlay)%Q
    else inject_Z n.

(** What the source hands to parseInt: the value without its first "p"
    when it ends in "p", the value itself otherwise. *)
Definition position_digits (position : string) : string :=
  if endsWith position "p" then replace_first position "p" else position.

(** A state to run the steps of the handler from: no edits, and a handle
    on the picture of the instance. *)
Definition initial_state : state :=
  mkState [] (sharp Sim.picture VUndefined).

(** The rectangle as the specification words it, with [floor]. *)
Definition cropArea_floor (L T W H : Q) (padding : Q) (m : Metadata) : value :=
  VObj
    [("left", vnum (Qfloor (L * inject_Z (width m) - padding)));
     ("top", vnum (Qfloor (T * inject_Z (height m) - padding)));
     ("width", vnum (Qfloor (W * inject_Z (width m) + 2 * padding)));
     ("height", vnum (Qfloor (H * inject_Z (height m) + 2 * padding)))].

Definition FaceIndexOutOfRange : thrown :=
  rejection (vnum 400) (VStr "SmartCrop::FaceIndexOutOfRange")
    (VStr "You have provided a FaceIndex value that exceeds the length of the zero-based detectedFaces array. Please specify a value that is in-range.").

(** A detector that is refused: the service answers with status 400. *)
Definition InvalidImageFormat : thrown :=
  mkThrown VUndefined (vnum 400) (VStr "InvalidImageFormatException")
    (VStr "Request has invalid image format").

Definition refusing_detector : Collaborators :=
  mkCollaborators
    (sharp_metadata Sim.collaborators)
    (sharp_toBuffer Sim.collaborators)
    (sharp_invoke Sim.collaborators)
    (s3_getObject Sim.collaborators)
    (fun _ => Failed InvalidImageFormat)
    (String_of Sim.collaborators)
    (Array_inherits Sim.collaborators).

(** A rectangle that exceeds the bounds of an image, as the specification
    words it: a negative origin, or an origin plus extent beyond the width
    or the height. *)
Definition exceeds (m : Metadata) (area : value) : bool :=
  match integer (prop area "left"), integer (prop area "top"),
        integer (prop area "width"), integer (prop area "height") with
  | Some l, Some t, Some w, Some h =>
      (l <? 0) || (t <? 0) || (width m <? l + w) || (height m <? t + h)
  | _, _, _, _ => false
  end.

Definition PaddingOutOfBounds : thrown :=
  rejection (vnum 400) (VStr "SmartCrop::PaddingOutOfBounds")
    (VStr "The padding value you provided exceeds the boundaries of the original image. Please try choosing a smaller value or applying padding via Sharp for greater specificity.").

(** A detector that finds one face, by the right edge of the image:
    {Left: 0.7, Top: 0.2, Width: 0.3, Height: 0.4}. *)
Definition edge_face : BoundingBox :=
  mkBoundingBox (fl (7 # 10)) (fl (2 # 10)) (fl (3 # 10)) (fl (4 # 10)).

Definition edge_detector : Collaborators :=
  mkCollaborators
    (sharp_metadata Sim.collaborators)
    (sharp_toBuffer Sim.collaborators)
    (sharp_invoke Sim.collaborators)
    (s3_getObject Sim.collaborators)
    (fun _ => Resolved [edge_face])
    (String_of Sim.collaborators)
    (Array_inherits Sim.collaborators).

(** A smart crop with a padding of 20, and the crop area that it gives
    around that face on the picture of 200 by 100. *)
Definition padded_crop : object := [("smartCrop", VObj [("padding", vnum 20)])].

Definition far_edge_area : value :=
  VObj [("left", vnum 120); ("top", vnum 0); ("width", vnum 100); ("height", vnum 80)].

(** The handle that applyEdits opens on the original image. *)
Definition opened (originalImage : Buffer) : Sharp :=
  sharp originalImage (VObj [("failOnError", VBool false)]).

(** A handle after one more call. *)
Definition called (h : Sharp) (name : string) (arg : value) : Sharp :=
  mkSharp (sharp_input h) (sharp_options h) (sharp_calls h ++ [(name, arg)])%list.

(** The options of an overlay after the branch: the same object up to its
    [left] and [top]. *)
Definition frame_options (o o' : value) : Prop :=
  o' = o
  \/ exists fields fields' : object,
      o = VObj fields /\ o' = VObj fields'
      /\ forall g : string, g <> "left" -> g <> "top" -> get fields' g = get fields g.

(** An entry of the edits after the call: the same value up to the [left]
    and [top] of its [options]. *)
Definition frame_value (x x' : value) : Prop :=
  x' = x
  \/ exists fields fields' : object,
      x = VObj fields /\ x' = VObj fields'
      /\ (forall f : string, f <> "options" -> get fields' f = get fields f)
      /\ frame_options (get fields "options") (get fields' "options").

Definition frame_entry (e e' : string * value) : Prop :=
  fst e' = fst e
  /\ (fst e <> "overlayWith" -> snd e' = snd e)
  /\ frame_value (snd e) (snd e').

Definition frame (edits edits' : object) : Prop := Forall2 frame_entry edits edits'.

(** Computations that leave the whole state alone. *)
Definition stateless {A : Type} (m : M A) : Prop :=
  forall (s s' : state) (r : outcome A), m s = (r, s') -> s' = s.

(** Computations that leave the caller's edits alone. *)
Definition keeps_edits {A : Type} (m : M A) : Prop :=
  forall (s s' : state) (r : outcome A), m s = (r, s') -> st_edits s' = st_edits s.

(** [edits[i].options], as the loop reads it through [values[i]]. *)
Definition current_options (i : nat) (edits : object) : value :=
  prop (nth i (values edits) VUndefined) "options".

(** The default resize directive. *)
Definition fit_inside : value := VObj [("fit", VStr "inside")].

Definition overlay_edits : object :=
  [("overlayWith",
    VObj [("key", VStr "logo.png"); ("wRatio", vnum 50);
          ("options", VObj [("left", VStr "-10p")])])].

(** The layer that the TEPWatermark branch composites. *)
Definition watermark_layer (options : value) (svg : string) : value :=
  VArr [VObj (set (spread options) "input" (VBuf (Buffer_of_string svg)))].

(** The markup of the variant with styles. *)
Definition styled_svg (c : Collaborators) (templates : Templates) (options : value) : string :=
  if is_string (with_default (prop options "style")) "cute"
  then interpolate c (svg_cute templates) (with_default (prop options "name"))
  else interpolate c (svg_banner templates) (with_default (prop options "name")).

(** The condition of the variant with styles. *)
Definition watermark_fits (imageMetadata : Metadata) (options : value) : bool :=
  (340 <? width imageMetadata)
  || ((150 <? width imageMetadata)
      && is_string (with_default (prop options "style")) "cute").

(** A picture of 100 by 50. *)
Definition small_picture : Buffer := Sim.encode (mkMetadata 100 50).

Definition watermark_options : value :=
  VObj [("key", VStr "logo.png"); ("options", VObj [("name", VStr "Bob")])].

Definition cute_options : value :=
  VObj [("options", VObj [("name", VStr "Bob"); ("style", VStr "cute")])].

(** The collaborators with another object store. *)
Definition with_store (c : Collaborators) (store : value -> value -> outcome Buffer)
  : Collaborators :=
  mkCollaborators (sharp_metadata c) (sharp_toBuffer c) (sharp_invoke c) store
    (rekognition_detectFaces c) (String_of c) (Array_inherits c).

(** A second store, whose overlay is 30 by 30. *)
Definition other_store (bucket key : value) : outcome Buffer :=
  Resolved (Sim.encode (mkMetadata 30 30)).

Definition watermark_state : state :=
  mkState [("TEPWatermark", watermark_options); ("resize", fit_inside)] (opened Sim.picture).

(** An overlay at 50% of the width, followed by a resize to a width of
    100, on the picture of 200 by 100. *)
Definition overlay_then_resize : object :=
  [("overlayWith",
    VObj [("key", VStr "logo.png"); ("options", VObj [("left", VStr "50p")])]);
   ("resize", VObj [("width", vnum 100)])].

(** The keys that [applyEdits] has a branch for; every other key is the
    name of a method that is invoked on the handle. *)
Definition has_branch (key : string) : bool :=
  String.eqb key "overlayWith" || String.eqb key "smartCrop"
  || String.eqb key "TEPWatermark".

(** An image library that has no method [frobnicate]. *)
Definition not_a_function : thrown := TypeError "image[key] is not a function".

Definition picky : Collaborators :=
  mkCollaborators
    (sharp_metadata Sim.collaborators)
    (sharp_toBuffer Sim.collaborators)
    (fun h name arg =>
       if String.eqb name "frobnicate" then Some not_a_function
       else Sim.invoke h name arg)
    (s3_getObject Sim.collaborators)
    (rekognition_detectFaces Sim.collaborators)
    (String_of Sim.collaborators)
    (Array_inherits Sim.collaborators).

(** Computations that leave the handle of the state alone. *)
Definition keeps_image {A : Type} (m : M A) : Prop :=
  forall (s s' : state) (r : outcome A), m s = (r, s') -> st_image s' = st_image s.

(** [h'] is [h] after at most [n] more calls. *)
Definition extends_by (n : nat) (h h' : Sharp) : Prop :=
  sharp_input h' = sharp_input h
  /\ sharp_options h' = sharp_options h
  /\ exists l : list (string * value),
      sharp_calls h' = (sharp_calls h ++ l)%list /\ (List.length l <= n)%nat.

(** Computations that invoke at most one method on the handle. *)
Definition at_most_one_call {A : Type} (m : M A) : Prop :=
  forall (s s' : state) (r : outcome A),
    m s = (r, s') -> extends_by 1 (st_image s) (st_image s').

(** The TypeError of calling [endsWith] on a position that is not a
    string. *)
Definition endsWith_not_a_function (axis : string) : thrown :=
  TypeError (axis ++ ".endsWith is not a function").

(** The options block of the overlayWith branch, and the composite that
    follows it. *)
Definition place_and_composite (c : Collaborators) (i : nat) (options : value)
    (imageMetadata overlayMetadata : Metadata) (overlay : Buffer) : M unit :=
  bind
    (if truthy options then
       bind (placeAxis i options "left" (width imageMetadata) (width overlayMetadata))
         (fun options =>
            placeAxis i options "top" (height imageMetadata) (height overlayMetadata))
     else ret options)
    (fun options =>
       image_call c "composite"
         (VArr [VObj (set (spread options) "input" (VBuf overlay))])).

(** An overlay whose [left] is the number 30, and the state in which the
    loop reaches it. *)
Definition numeric_left : value :=
  VObj [("key", VStr "logo.png"); ("options", VObj [("left", vnum 30)])].

Definition numeric_left_state : state :=
  mkState [("overlayWith", numeric_left); ("resize", fit_inside)] (opened Sim.picture).

(** The argument of the resize of the copy when the directive is the
    default one. *)
Definition wrapped_fit_inside : value :=
  VObj [("edits", VObj [("resize", fit_inside)])].

(** An edits object that holds an overlay with the properties of [fields],
    but for a [left] that has been replaced by the position [n], followed
    by the default resize. *)
Definition placed_overlay (fields : object) (n : number) (edits : object) : Prop :=
  exists fields' options' : object,
    edits = [("overlayWith", VObj fields'); ("resize", fit_inside)]
    /\ (forall k : string, k <> "options" -> get fields' k = get fields k)
    /\ get fields' "options" = VObj options'
    /\ get options' "left" = VNum n.

(** Is the string the decimal notation of an integer from 0 to 100? *)
Definition percent_notation (s : string) : bool :=
  existsb (String.eqb s) (map (fun k : nat => decimal_string (Z.of_nat k)) (seq 0 101)).

(** Is the number printed with an exponent? *)
Definition exponent_printed (x : number) : bool :=
  match x with
  | Fin q => exponent_form q
  | NaN => false
  end.

(** A detector that finds no face. *)
Definition faceless : Collaborators :=
  mkCollaborators
    (sharp_metadata Sim.collaborators)
    (sharp_toBuffer Sim.collaborators)
    (sharp_invoke Sim.collaborators)
    (s3_getObject Sim.collaborators)
    (fun _ => Resolved [])
    (String_of Sim.collaborators)
    (Array_inherits Sim.collaborators).

(** The face index that getBoundingBox looks up. *)
Definition faceIdx (faceIndex : value) : value :=
  if is_undefined faceIndex then vnum 0 else faceIndex.

(** The TypeError of reading [Left] of a bounding box that is undefined. *)
Definition Left_of_undefined : thrown :=
  TypeError "Cannot read property 'Left' of undefined".

(** The message that getBoundingBox takes for an index out of range. *)
Definition BoundingBox_of_undefined : value :=
  VStr "Cannot read property 'BoundingBox' of undefined".

(** What getOverlayImage rejects with when the store fails with [err]. *)
Definition fetch_rejection (err : thrown) : thrown :=
  rejection (if truthy (err_statusCode err) then err_statusCode err else vnum 500)
    (err_code err) (err_message err).

(** The TypeError of destructuring [name] out of missing options. *)
Definition options_missing : thrown :=
  TypeError "Cannot destructure property `name` of 'undefined' or 'null'.".

(** An edit that names an overlay which the store of the instance does not
    hold, and the state in which the loop reaches it. *)
Definition missing_overlay : object :=
  [("bucket", VStr "assets"); ("key", VStr "missing.png");
   ("options", VObj [("left", VStr "10")])].

Definition missing_overlay_state : state :=
  mkState [("overlayWith", VObj missing_overlay); ("resize", fit_inside)]
    (opened Sim.picture).

(* ------------------------------------------------------------------ *)
(** ** Numbers: truncation and parseInt *)

Section NumberFacts.

Local Open Scope Q_scope.

Lemma trunc_comp (x y : Q) : x == y -> trunc x = trunc y.
Proof.
  intro E. unfold trunc.
  rewrite (Qfloor_comp _ _ E).
  assert (E' : - x == - y) by (rewrite E; reflexivity).
  rewrite (Qfloor_comp _ _ E').
  destruct (Qle_bool 0 x) eqn:Hx, (Qle_bool 0 y) eqn:Hy; try reflexivity.
  - apply Qle_bool_iff in Hx. rewrite E in Hx. apply Qle_bool_iff in Hx. congruence.
  - apply Qle_bool_iff in Hy. rewrite <- E in Hy. apply Qle_bool_iff in Hy. congruence.
Qed.

Lemma trunc_inject_Z (z : Z) : trunc (inject_Z z) = z.
Proof.
  unfold trunc.
  destruct (Qle_bool 0 (inject_Z z)).
  - apply Qfloor_Z.
  - change (- inject_Z z) with (inject_Z (- z)). rewrite Qfloor_Z. lia.
Qed.

Lemma Qle_bool_comp (a b a' b' : Q) :
  a == a' -> b == b' -> Qle_bool a b = Qle_bool a' b'.
Proof.
  intros Ea Eb.
  destruct (Qle_bool a b) eqn:H1, (Qle_bool a' b') eqn:H2; try reflexivity.
  - apply Qle_bool_iff in H1. rewrite Ea, Eb in H1. apply Qle_bool_iff in H1. congruence.
  - apply Qle_bool_iff in H2. rewrite <- Ea, <- Eb in H2. apply Qle_bool_iff in H2. congruence.
Qed.

Lemma Qeq_bool_comp (a b a' b' : Q) :
  a == a' -> b == b' -> Qeq_bool a b = Qeq_bool a' b'.
Proof.
  intros Ea Eb.
  destruct (Qeq_bool a b) eqn:H1, (Qeq_bool a' b') eqn:H2; try reflexivity.
  - apply Qeq_bool_iff in H1. rewrite Ea, Eb in H1. apply Qeq_bool_iff in H1. congruence.
  - apply Qeq_bool_iff in H2. rewrite <- Ea, <- Eb in H2. apply Qeq_bool_iff in H2. congruence.
Qed.

Lemma exponent_form_comp (x y : Q) : x == y -> exponent_form x = exponent_form y.
Proof.
  intro E. unfold exponent_form.
  assert (Ea : Qabs x == Qabs y) by (rewrite E; reflexivity).
  rewrite (Qle_bool_comp _ _ _ _ (Qeq_refl _) Ea).
  rewrite (Qeq_bool_comp _ _ _ _ Ea (Qeq_refl 0)).
  rewrite (Qle_bool_comp (1 # Z.to_pos ten_pow_6) _ _ _ (Qeq_refl _) Ea).
  reflexivity.
Qed.

(** In decimal notation parseInt truncates. *)
Lemma parseInt_number_decimal (x y : Q) :
  x == y -> exponent_form y = false -> parseInt_number (Fin x) = of_Z (trunc y).
Proof.
  intros E H. unfold parseInt_number.
  rewrite (exponent_form_comp _ _ E), H, (trunc_comp _ _ E). reflexivity.
Qed.

(** An integer, or a non-zero multiple of a hundredth, of magnitude below
    10^21 is printed in decimal notation. *)
Lemma decimal_hundredths (n : Z) :
  (Z.abs n < 100 * ten_pow_21)%Z -> exponent_form (n # 100) = false.
Proof.
  intro B. unfold exponent_form.
  assert (A : Qabs (n # 100) = (Z.abs n # 100)) by reflexivity.
  rewrite A.
  apply orb_false_iff. split.
  - destruct (Qle_bool (inject_Z ten_pow_21) (Z.abs n # 100)) eqn:H; [|reflexivity].
    apply Qle_bool_iff in H. unfold Qle in H. cbn [Qnum Qden inject_Z] in H.
    lia.
  - destruct (Qeq_bool (Z.abs n # 100) 0) eqn:H0; [reflexivity|].
    simpl. apply negb_false_iff. apply Qle_bool_iff.
    apply Qeq_bool_neq in H0.
    assert (Z.abs n <> 0)%Z.
    { intro Hn. apply H0. rewrite Hn. reflexivity. }
    unfold Qle. cbn [Qnum Qden]. lia.
Qed.

Lemma ltb_of_Z (a b : Z) : ltb (of_Z a) (of_Z b) = (a <? b)%Z.
Proof.
  unfold ltb, of_Z.
  destruct (inject_Z a ?= inject_Z b) eqn:C.
  - apply Qeq_alt in C. unfold Qeq in C. simpl in C. symmetry. apply Z.ltb_ge. lia.
  - apply Qlt_alt in C. unfold Qlt in C. simpl in C. symmetry. apply Z.ltb_lt. lia.
  - apply Qgt_alt in C. unfold Qlt in C. simpl in C. symmetry. apply Z.ltb_ge. lia.
Qed.

End NumberFacts.

(* ------------------------------------------------------------------ *)
(** ** Binary64: how far the rounding moves a number *)

Lemma round_half_even_error (a : Q) : (Qabs (inject_Z (round_half_even a) - a) <= 1 # 2)%Q.
Proof.
  unfold round_half_even.
  pose proof (Qfloor_le a) as L.
  pose proof (Qlt_floor a) as U.
  set (f := Qfloor a) in *.
  rewrite inject_Z_plus in U. change (inject_Z 1) with 1%Q in U.
  apply Qabs_Qle_condition.
  destruct (Qcompare (a - inject_Z f) (1 # 2)) eqn:C.
  - apply Qeq_alt in C.
    destruct (Z.even f); rewrite ?inject_Z_plus; change (inject_Z 1) with 1%Q; lra.
  - apply Qlt_alt in C. lra.
  - apply Qgt_alt in C. rewrite inject_Z_plus. change (inject_Z 1) with 1%Q. lra.
Qed.

Lemma round_half_even_nonneg (a : Q) : (0 <= a)%Q -> 0 <= round_half_even a.
Proof.
  intro H. unfold round_half_even.
  assert (F : 0 <= Qfloor a) by (exact (Qfloor_resp_le 0 a H)).
  destruct (Qcompare (a - inject_Z (Qfloor a)) (1 # 2)); [destruct (Z.even (Qfloor a))| |]; lia.
Qed.

Lemma Qpow2_pos (e : Z) : (0 < Qpow2 e)%Q.
Proof. unfold Qpow2. apply Qpower_0_lt. reflexivity. Qed.

Lemma Qpow2_le (e e' : Z) : e <= e' -> (Qpow2 e <= Qpow2 e')%Q.
Proof. intro H. unfold Qpow2. apply Qpower_le_compat_l; [exact H | discriminate]. Qed.

Lemma Qpow2_nonneg_inject (K : Z) : 0 <= K -> (Qpow2 K == inject_Z (2 ^ K))%Q.
Proof. intro H. unfold Qpow2. rewrite (Zpower_Qpower 2 K H). reflexivity. Qed.

(** The exponent of a positive rational below 2^K. *)
Lemma ilog2_below (a : Q) (K : Z) :
  0 <= K -> (0 < a)%Q -> (a < Qpow2 K)%Q -> ilog2 a < K.
Proof.
  intros HK Ha Hb.
  assert (B : Z.log2 (Qnum a) - Z.log2 (Zpos (Qden a)) <= K).
  { rewrite (Qpow2_nonneg_inject K HK) in Hb.
    destruct a as [n d]. unfold Qlt in Ha, Hb. cbn [Qnum Qden inject_Z] in *.
    assert (Hn : 0 < n) by lia.
    pose proof (Z.log2_spec (Zpos d) (Pos2Z.is_pos d)) as [_ Hd].
    assert (P : n < 2 ^ (K + Z.succ (Z.log2 (Zpos d)))).
    { rewrite Z.pow_add_r by (try lia; pose proof (Z.log2_nonneg (Zpos d)); lia).
      assert (X : 0 < 2 ^ K) by (apply Z.pow_pos_nonneg; lia).
      apply (Z.lt_trans _ (2 ^ K * Zpos d)); [lia|].
      apply Z.mul_lt_mono_pos_l; assumption. }
    apply Z.log2_lt_pow2 in P; [|exact Hn]. lia. }
  unfold ilog2.
  destruct (Qle_bool (Qpow2 (Z.log2 (Qnum a) - Z.log2 (Zpos (Qden a)))) a) eqn:T;
    [|lia].
  apply Qle_bool_iff in T.
  apply (Qpower_lt_compat_l_inv 2); [|reflexivity].
  apply (Qle_lt_trans _ a); assumption.
Qed.

Lemma round64_zero (q : Q) : (q == 0)%Q -> round64 q = 0%Q.
Proof.
  intro H. unfold round64.
  assert (E : Qeq_bool q 0 = true) by (apply Qeq_bool_iff; exact H).
  rewrite E. reflexivity.
Qed.

(** Below 2^K the rounding moves a number by at most 2^(K-54). *)
Lemma round64_error (q : Q) (K : Z) :
  0 <= K -> (Qabs q < Qpow2 K)%Q -> (Qabs (round64 q - q) <= Qpow2 (K - 54))%Q.
Proof.
  intros HK Hb.
  destruct (Qeq_bool q 0) eqn:Z0.
  - apply Qeq_bool_iff in Z0. rewrite (round64_zero q Z0).
    setoid_replace (0 - q)%Q with 0%Q by (rewrite Z0; ring).
    apply Qlt_le_weak. apply Qpow2_pos.
  - unfold round64. rewrite Z0.
    assert (Ha : (0 < Qabs q)%Q).
    { apply Qeq_bool_neq in Z0.
      destruct (Qlt_le_dec 0 (Qabs q)) as [L|G]; [exact L|].
      exfalso. apply Z0.
      pose proof (Qabs_nonneg q) as N.
      pose proof (Qle_Qabs q) as U.
      pose proof (Qle_Qabs (- q)) as V. rewrite Qabs_opp in V.
      lra. }
    set (a := Qabs q) in *.
    set (e := Z.max (ilog2 a - 52) (-1074)).
    assert (He : e <= K - 53).
    { pose proof (ilog2_below a K HK Ha Hb). unfold e. lia. }
    pose proof (Qpow2_pos e) as Pe.
    pose proof (round_half_even_error (a / Qpow2 e)) as R.
    set (m := round_half_even (a / Qpow2 e)) in *.
    apply Qabs_Qle_condition in R.
    assert (X : (a / Qpow2 e * Qpow2 e == a)%Q).
    { field. intro Z1. rewrite Z1 in Pe. discriminate. }
    assert (H2 : (Qpow2 e == 2 * Qpow2 (e - 1))%Q).
    { unfold Qpow2. replace e with ((e - 1) + 1) at 1 by lia.
      rewrite Qpower_plus by discriminate. ring. }
    pose proof (Qpow2_pos (e - 1)) as Pe1.
    pose proof (Qpow2_le (e - 1) (K - 54) ltac:(lia)) as Le.
    assert (S : (Qabs (inject_Z m * Qpow2 e - a) <= Qpow2 (K - 54))%Q).
    { apply (Qle_trans _ (Qpow2 (e - 1))); [|exact Le].
      destruct R as [R1 R2].
      assert (M1 : ((- (1 # 2)) * Qpow2 e <= (inject_Z m - a / Qpow2 e) * Qpow2 e)%Q)
        by (apply Qmult_le_compat_r; [exact R1 | apply Qlt_le_weak; exact Pe]).
      assert (M2 : ((inject_Z m - a / Qpow2 e) * Qpow2 e <= (1 # 2) * Qpow2 e)%Q)
        by (apply Qmult_le_compat_r; [exact R2 | apply Qlt_le_weak; exact Pe]).
      assert (Y : ((inject_Z m - a / Qpow2 e) * Qpow2 e == inject_Z m * Qpow2 e - a)%Q).
      { setoid_replace ((inject_Z m - a / Qpow2 e) * Qpow2 e)%Q
          with (inject_Z m * Qpow2 e - a / Qpow2 e * Qpow2 e)%Q by ring.
        rewrite X. reflexivity. }
      rewrite Y in M1, M2.
      apply Qabs_Qle_condition. lra. }
    rewrite Qred_correct.
    destruct (Qle_bool 0 q) eqn:Sg.
    + apply Qle_bool_iff in Sg.
      assert (A : (a == q)%Q) by (apply Qabs_pos; exact Sg).
      setoid_replace (inject_Z m * Qpow2 e - q)%Q
        with (inject_Z m * Qpow2 e - a)%Q by (rewrite A; ring).
      exact S.
    + assert (N : (q <= 0)%Q).
      { destruct (Qlt_le_dec 0 q) as [L|G]; [|exact G].
        apply Qlt_le_weak in L. apply Qle_bool_iff in L. congruence. }
      assert (A : (a == - q)%Q) by (apply Qabs_neg; exact N).
      setoid_replace (- (inject_Z m * Qpow2 e) - q)%Q
        with (- (inject_Z m * Qpow2 e - a))%Q by (rewrite A; ring).
      rewrite Qabs_opp. exact S.
Qed.

Lemma round64_nonneg (q : Q) : (0 <= q)%Q -> (0 <= round64 q)%Q.
Proof.
  intro H. unfold round64.
  destruct (Qeq_bool q 0); [discriminate|].
  assert (Sg : Qle_bool 0 q = true) by (apply Qle_bool_iff; exact H).
  rewrite Sg, Qred_correct.
  apply Qmult_le_0_compat.
  - change 0%Q with (inject_Z 0). rewrite <- Zle_Qle.
    apply round_half_even_nonneg.
    apply Qle_shift_div_l; [apply Qpow2_pos|].
    rewrite Qmult_0_l. apply Qabs_nonneg.
  - apply Qlt_le_weak. apply Qpow2_pos.
Qed.

(** Below 2^K, with K at most 1000, an operation gives a number, within
    2^(K-54) of the exact value, and not negative when that is not. *)
Lemma fl_near (q : Q) (K : Z) :
  0 <= K <= 1000 -> (Qabs q < Qpow2 K)%Q ->
  exists r : Q,
    fl q = Fin r /\ (Qabs (r - q) <= Qpow2 (K - 54))%Q /\ ((0 <= q)%Q -> (0 <= r)%Q).
Proof.
  intros HK Hb. exists (round64 q).
  pose proof (round64_error q K (proj1 HK) Hb) as E.
  split; [|split; [exact E | apply round64_nonneg]].
  unfold fl.
  destruct (Qle_bool (Qpow2 1024) (Qabs (round64 q))) eqn:O; [|reflexivity].
  exfalso. apply Qle_bool_iff in O.
  pose proof (Qabs_triangle (round64 q - q) q) as T.
  setoid_replace (round64 q - q + q)%Q with (round64 q) in T by ring.
  pose proof (Qpow2_le (K - 54) K ltac:(lia)) as L1.
  assert (D : (Qpow2 (K + 1) == 2 * Qpow2 K)%Q).
  { unfold Qpow2. rewrite Qpower_plus by discriminate. ring. }
  pose proof (Qpow2_le (K + 1) 1024 ltac:(lia)) as L2.
  lra.
Qed.

(* ------------------------------------------------------------------ *)
(** ** Binary64: integers and hundredths *)

Lemma round_half_even_integer (q : Q) (M : Z) :
  (q == inject_Z M)%Q -> round_half_even q = M.
Proof.
  intro E. unfold round_half_even.
  rewrite (Qfloor_comp _ _ E), Qfloor_Z.
  assert (C : Qcompare (q - inject_Z M) (1 # 2) = Lt).
  { apply Qlt_alt. rewrite E. setoid_replace (inject_Z M - inject_Z M)%Q with 0%Q by ring.
    reflexivity. }
  rewrite C. reflexivity.
Qed.

Lemma Qred_integer (q : Q) (z : Z) : (q == inject_Z z)%Q -> Qred q = inject_Z z.
Proof.
  intro E. rewrite (Qred_complete _ _ E).
  unfold Qred, inject_Z.
  pose proof (Z.ggcd_gcd z 1) as G.
  pose proof (Z.ggcd_correct_divisors z 1) as D.
  destruct (Z.ggcd z 1) as [g [aa bb]]. cbn [fst snd] in *.
  rewrite Z.gcd_1_r in G. subst g. destruct D as [Da Db].
  assert (aa = z) by lia. assert (bb = 1) by lia. subst aa bb. reflexivity.
Qed.

Lemma Qpow2_neg (e : Z) : e <= 0 -> (Qpow2 e == 1 # Z.to_pos (2 ^ (- e)))%Q.
Proof.
  intro H. unfold Qpow2.
  replace e with (- - e) at 1 by lia.
  rewrite Qpower_opp, <- (Zpower_Qpower 2 (- e)) by lia.
  assert (P : 0 < 2 ^ (- e)) by (apply Z.pow_pos_nonneg; lia).
  destruct (2 ^ (- e)) as [|p|p] eqn:X; try lia.
  reflexivity.
Qed.

(** An integer below 2^53 is a binary64 number. *)
Lemma round64_integer (q : Q) (z : Z) :
  (q == inject_Z z)%Q -> Z.abs z < 2 ^ 53 -> round64 q = inject_Z z.
Proof.
  intros E B. unfold round64.
  destruct (Qeq_bool q 0) eqn:Z0.
  - apply Qeq_bool_iff in Z0. rewrite E in Z0.
    unfold Qeq in Z0. cbn [Qnum Qden inject_Z] in Z0.
    assert (z = 0) by lia. subst z. reflexivity.
  - assert (Nz : z <> 0).
    { intro H. subst z. apply Qeq_bool_neq in Z0. apply Z0. exact E. }
    assert (A : (Qabs q == inject_Z (Z.abs z))%Q).
    { rewrite E. unfold Qabs, inject_Z. cbn [Qnum Qden]. reflexivity. }
    assert (Ha : (0 < Qabs q)%Q).
    { rewrite A. change 0%Q with (inject_Z 0). rewrite <- Zlt_Qlt. lia. }
    assert (Hb : (Qabs q < Qpow2 53)%Q).
    { rewrite A, (Qpow2_nonneg_inject 53) by lia. rewrite <- Zlt_Qlt. exact B. }
    pose proof (ilog2_below (Qabs q) 53 ltac:(lia) Ha Hb) as I.
    set (e := Z.max (ilog2 (Qabs q) - 52) (-1074)).
    assert (He : e <= 0) by (unfold e; lia).
    assert (P : 0 < 2 ^ (- e)) by (apply Z.pow_pos_nonneg; lia).
    assert (D : (Qabs q / Qpow2 e == inject_Z (Z.abs z * 2 ^ (- e)))%Q).
    { rewrite A, (Qpow2_neg e He).
      unfold Qeq, Qdiv, Qmult, Qinv, inject_Z. cbn [Qnum Qden].
      destruct (2 ^ (- e)) as [|p|p] eqn:X; try lia.
      cbn [Z.to_pos Qnum Qden]. lia. }
    rewrite (round_half_even_integer _ _ D).
    assert (R : (inject_Z (Z.abs z * 2 ^ (- e)) * Qpow2 e == inject_Z (Z.abs z))%Q).
    { rewrite (Qpow2_neg e He).
      unfold Qeq, Qmult, inject_Z. cbn [Qnum Qden].
      destruct (2 ^ (- e)) as [|p|p] eqn:X; try lia.
      cbn [Z.to_pos]. lia. }
    destruct (Qle_bool 0 q) eqn:Sg.
    + apply Qred_integer. rewrite R.
      apply Qle_bool_iff in Sg. rewrite E in Sg.
      change 0%Q with (inject_Z 0) in Sg. rewrite <- Zle_Qle in Sg.
      rewrite Z.abs_eq by lia. reflexivity.
    + apply Qred_integer. rewrite R.
      assert (N : z < 0).
      { destruct (Z_lt_ge_dec z 0) as [L|G]; [exact L|].
        assert (T : Qle_bool 0 q = true).
        { apply Qle_bool_iff. rewrite E. change 0%Q with (inject_Z 0).
          rewrite <- Zle_Qle. lia. }
        congruence. }
      rewrite Z.abs_neq by lia.
      unfold Qeq, Qopp, inject_Z. cbn [Qnum Qden]. lia.
Qed.

Lemma fl_integer (q : Q) (z : Z) :
  (q == inject_Z z)%Q -> Z.abs z < 2 ^ 53 -> fl q = of_Z z.
Proof.
  intros E B. unfold fl. rewrite (round64_integer q z E B).
  assert (F : Qle_bool (Qpow2 1024) (Qabs (inject_Z z)) = false).
  { destruct (Qle_bool (Qpow2 1024) (Qabs (inject_Z z))) eqn:O; [|reflexivity].
    exfalso. apply Qle_bool_iff in O.
    pose proof (Qpow2_le 53 1024 ltac:(lia)) as L.
    rewrite (Qpow2_nonneg_inject 53) in L by lia.
    assert (A : (Qabs (inject_Z z) == inject_Z (Z.abs z))%Q) by reflexivity.
    rewrite A in O.
    assert (X : (inject_Z (Z.abs z) < inject_Z (2 ^ 53))%Q) by (rewrite <- Zlt_Qlt; exact B).
    lra. }
  rewrite F. reflexivity.
Qed.

Lemma trunc_nonneg (q : Q) : (0 <= q)%Q -> trunc q = Qfloor q.
Proof.
  intro H. unfold trunc. apply Qle_bool_iff in H. rewrite H. reflexivity.
Qed.

Lemma trunc_hundredths (k : Z) : trunc (k # 100) = Z.quot k 100.
Proof.
  unfold trunc.
  destruct (Qle_bool 0 (k # 100)) eqn:E.
  - apply Qle_bool_iff in E. unfold Qle in E. cbn [Qnum Qden] in E.
    change (Qfloor (k # 100)) with (k / 100).
    symmetry. apply Z.quot_div_nonneg; lia.
  - assert (N : k < 0).
    { destruct (Z_lt_ge_dec k 0) as [L|G]; [exact L|].
      assert (T : Qle_bool 0 (k # 100) = true).
      { apply Qle_bool_iff. unfold Qle. cbn [Qnum Qden]. lia. }
      congruence. }
    change (Qfloor (- (k # 100))) with ((- k) / 100).
    rewrite <- (Z.quot_div_nonneg (- k) 100) by lia.
    rewrite Z.quot_opp_l by lia. lia.
Qed.

Lemma Qfloor_between (u : Q) (f : Z) :
  (inject_Z f <= u)%Q -> (u < inject_Z f + 1)%Q -> Qfloor u = f.
Proof.
  intros L U.
  pose proof (Qfloor_le u) as A. pose proof (Qlt_floor u) as B.
  rewrite inject_Z_plus in B. change (inject_Z 1) with 1%Q in B.
  assert (X : (inject_Z (Qfloor u) < inject_Z (f + 1))%Q)
    by (rewrite inject_Z_plus; change (inject_Z 1) with 1%Q; lra).
  assert (Y : (inject_Z f < inject_Z (Qfloor u + 1))%Q)
    by (rewrite inject_Z_plus; change (inject_Z 1) with 1%Q; lra).
  rewrite <- Zlt_Qlt in X, Y. lia.
Qed.

(** A number within 3/1024 of [k]/100, which is not an integer, is read by
    parseInt as [k]/100 is. *)
Lemma parseInt_near_hundredths (k : Z) (u : Q) :
  Z.abs k < 2 ^ 50 -> k mod 100 <> 0 ->
  (Qabs (u - (k # 100)) <= 3 # 1024)%Q ->
  parseInt_number (Fin u) = of_Z (Z.quot k 100).
Proof.
  intros Bk Hm E.
  pose proof (Z.div_mod k 100 ltac:(lia)) as DM.
  pose proof (Z.mod_pos_bound k 100 ltac:(lia)) as MB.
  set (f := k / 100) in *. set (m := k mod 100) in *.
  clearbody f m.
  assert (X : ((k # 100) == inject_Z f + (m # 100))%Q).
  { unfold Qeq, Qplus, inject_Z. cbn [Qnum Qden]. lia. }
  assert (M1 : (1 # 100 <= m # 100)%Q) by (unfold Qle; cbn [Qnum Qden]; lia).
  assert (M2 : (m # 100 <= 99 # 100)%Q) by (unfold Qle; cbn [Qnum Qden]; lia).
  apply Qabs_Qle_condition in E. rewrite X in E.
  change (2 ^ 50) with 1125899906842624 in Bk.
  assert (FB : (inject_Z (-1125899906842624) <= inject_Z f)%Q
               /\ (inject_Z f <= inject_Z 1125899906842624)%Q).
  { rewrite <- !Zle_Qle. lia. }
  change (inject_Z (-1125899906842624)) with (-1125899906842624 # 1)%Q in FB.
  change (inject_Z 1125899906842624) with (1125899906842624 # 1)%Q in FB.
  assert (F : Qfloor u = f) by (apply Qfloor_between; lra).
  assert (D : exponent_form u = false).
  { unfold exponent_form.
    assert (A1 : Qle_bool (inject_Z ten_pow_21) (Qabs u) = false).
    { destruct (Qle_bool (inject_Z ten_pow_21) (Qabs u)) eqn:O; [|reflexivity].
      exfalso. apply Qle_bool_iff in O.
      change (inject_Z ten_pow_21) with (1000000000000000000000 # 1)%Q in O.
      assert (U : (Qabs u <= 1125899906842625 # 1)%Q) by (apply Qabs_Qle_condition; lra).
      lra. }
    assert (A2 : Qle_bool (1 # Z.to_pos ten_pow_6) (Qabs u) = true).
    { apply Qle_bool_iff. change (1 # Z.to_pos ten_pow_6)%Q with (1 # 1000000)%Q.
      destruct (Z_lt_ge_dec f 0) as [Neg|Pos].
      - assert (I : (inject_Z f <= inject_Z (-1))%Q) by (rewrite <- Zle_Qle; lia).
        change (inject_Z (-1)) with (-1 # 1)%Q in I.
        rewrite Qabs_neg by lra. lra.
      - assert (I : (inject_Z 0 <= inject_Z f)%Q) by (rewrite <- Zle_Qle; lia).
        change (inject_Z 0) with 0%Q in I.
        rewrite Qabs_pos by lra. lra. }
    rewrite A1, A2. cbn [negb orb andb]. apply andb_false_r. }
  unfold parseInt_number. rewrite D. f_equal.
  destruct (Z_lt_ge_dec k 0) as [Neg|Pos].
  - assert (I : (inject_Z f <= inject_Z (-1))%Q) by (rewrite <- Zle_Qle; lia).
    change (inject_Z (-1)) with (-1 # 1)%Q in I.
    unfold trunc.
    assert (S : Qle_bool 0 u = false).
    { destruct (Qle_bool 0 u) eqn:O; [|reflexivity].
      apply Qle_bool_iff in O. lra. }
    rewrite S.
    assert (G : Qfloor (- u) = - (f + 1)).
    { apply Qfloor_between; rewrite inject_Z_opp, inject_Z_plus;
        change (inject_Z 1) with 1%Q; lra. }
    rewrite G.
    pose proof (Z.quot_rem' k 100) as QR.
    pose proof (Z.rem_bound_pos_neg k 100 ltac:(lia) ltac:(lia)) as RB.
    lia.
  - assert (I : (inject_Z 0 <= inject_Z f)%Q) by (rewrite <- Zle_Qle; lia).
    change (inject_Z 0) with 0%Q in I.
    rewrite trunc_nonneg by lra. rewrite F.
    pose proof (Z.quot_rem' k 100) as QR.
    pose proof (Z.rem_bound_pos k 100 ltac:(lia) ltac:(lia)) as RB.
    lia.
Qed.

Lemma fmul_integers (a b : Z) :
  Z.abs (a * b) < 2 ^ 53 -> fmul (of_Z a) (of_Z b) = of_Z (a * b).
Proof.
  intro B. unfold of_Z at 1 2. cbn [fmul]. apply fl_integer; [|exact B].
  rewrite inject_Z_mult. reflexivity.
Qed.

Lemma fadd_integers (a b : Z) :
  Z.abs (a + b) < 2 ^ 53 -> fadd (of_Z a) (of_Z b) = of_Z (a + b).
Proof.
  intro B. unfold of_Z at 1 2. cbn [fadd]. apply fl_integer; [|exact B].
  rewrite inject_Z_plus. reflexivity.
Qed.

Lemma fsub_integers (a b : Z) :
  Z.abs (a - b) < 2 ^ 53 -> fsub (of_Z a) (of_Z b) = of_Z (a - b).
Proof.
  intro B. unfold of_Z at 1 2. cbn [fsub]. apply fl_integer; [|exact B].
  unfold Z.sub. rewrite inject_Z_plus, inject_Z_opp. reflexivity.
Qed.

Lemma parseInt_number_integer (z : Z) :
  Z.abs z < ten_pow_21 -> parseInt_number (of_Z z) = of_Z z.
Proof.
  intro B. unfold of_Z at 1.
  assert (E : (inject_Z z == (100 * z) # 100)%Q).
  { unfold Qeq, inject_Z. cbn [Qnum Qden]. lia. }
  assert (D : Z.abs (100 * z) < 100 * ten_pow_21) by lia.
  rewrite (parseInt_number_decimal _ _ E (decimal_hundredths _ D)).
  rewrite trunc_hundredths, Z.mul_comm, Z.quot_mul by lia. reflexivity.
Qed.

(** The quotient by 100 of an integer below 2^48, in binary64. *)
Lemma fdiv_hundred (p : Z) :
  Z.abs p < 2 ^ 48 ->
  (p mod 100 = 0 -> fdiv (of_Z p) (of_Z 100) = of_Z (p / 100))
  /\ exists r : Q,
      fdiv (of_Z p) (of_Z 100) = Fin r
      /\ (Qabs (r - (p # 100)) <= 1 # 1024)%Q.
Proof.
  intro B. change (2 ^ 48) with 281474976710656 in B.
  unfold of_Z at 1 2 3 4. cbn [fdiv].
  change (Qeq_bool (inject_Z 100) 0) with false. cbv iota.
  assert (E : (inject_Z p / inject_Z 100 == p # 100)%Q).
  { unfold Qeq, Qdiv, Qmult, Qinv, inject_Z. cbn [Qnum Qden]. lia. }
  split.
  - intro M. apply fl_integer.
    + rewrite E. unfold Qeq, inject_Z. cbn [Qnum Qden].
      pose proof (Z.div_mod p 100 ltac:(lia)). lia.
    + change (2 ^ 53) with 9007199254740992.
      pose proof (Z.div_mod p 100 ltac:(lia)). lia.
  - assert (K : (Qpow2 44 == 17592186044416 # 1)%Q) by (vm_compute; reflexivity).
    assert (K' : (Qpow2 (44 - 54) == 1 # 1024)%Q) by (vm_compute; reflexivity).
    assert (A : (Qabs (inject_Z p / inject_Z 100) < Qpow2 44)%Q).
    { rewrite E, K. apply Qabs_Qlt_condition.
      unfold Qlt. cbn [Qnum Qden Qopp]. lia. }
    destruct (fl_near _ 44 ltac:(lia) A) as [r [F [N _]]].
    exists r. split; [exact F|]. rewrite K', E in N. exact N.
Qed.

Lemma trunc_integer (q : Q) (z : Z) : (q == inject_Z z)%Q -> trunc q = z.
Proof.
  intro E.
  assert (E' : (q == (100 * z) # 100)%Q).
  { rewrite E. unfold Qeq, inject_Z. cbn [Qnum Qden]. lia. }
  rewrite (trunc_comp _ _ E'), trunc_hundredths, Z.mul_comm, Z.quot_mul by lia.
  reflexivity.
Qed.

(** One more operation on a number that is near [x]: the result is near
    the exact result. *)
Lemma fl_step (q x : Q) (d : Q) :
  (Qabs (q - x) <= d)%Q -> (d <= 1)%Q -> (Qabs x < 17592186044415 # 1)%Q ->
  exists u : Q, fl q = Fin u /\ (Qabs (u - x) <= d + (1 # 1024))%Q.
Proof.
  intros N D B.
  assert (K : (Qpow2 44 == 17592186044416 # 1)%Q) by (vm_compute; reflexivity).
  assert (K' : (Qpow2 (44 - 54) == 1 # 1024)%Q) by (vm_compute; reflexivity).
  apply Qabs_Qle_condition in N. apply Qabs_Qlt_condition in B.
  assert (A : (Qabs q < Qpow2 44)%Q).
  { rewrite K. apply Qabs_Qlt_condition. split; lra. }
  destruct (fl_near q 44 ltac:(lia) A) as [u [F [E _]]].
  exists u. split; [exact F|].
  rewrite K' in E. apply Qabs_Qle_condition in E.
  apply Qabs_Qle_condition. split; lra.
Qed.

(* ------------------------------------------------------------------ *)
(** ** Placement of an overlay *)

(** Equations between rationals built from integers and the literal 100. *)
Ltac rational_identity :=
  unfold Qeq, Qdiv, Qminus, Qplus, Qmult, Qopp, Qinv, inject_Z;
  cbn [Qnum Qden]; rewrite ?Pos2Z.inj_mul; ring.

Lemma placement_formula_hundredths (percent : bool) (n base overlay : Z) :
  exists k : Z,
    (placement_formula percent n base overlay == k # 100)%Q
    /\ (inject_Z (Z.abs k) == 100 * Qabs (placement_formula percent n base overlay))%Q.
Proof.
  assert (G : forall q k, (q == k # 100)%Q ->
              (inject_Z (Z.abs k) == 100 * Qabs q)%Q).
  { intros q k E. rewrite E.
    change (Qabs (k # 100)) with (Z.abs k # 100).
    unfold Qeq, Qmult, inject_Z. cbn [Qnum Qden]. lia. }
  unfold placement_formula.
  destruct percent, (n <? 0).
  - exists (100 * base + base * n - 100 * overlay).
    assert (E : (inject_Z base + inject_Z base * inject_Z n / 100 - inject_Z overlay
                 == (100 * base + base * n - 100 * overlay) # 100)%Q).
    { rational_identity. }
    split; [exact E | apply G, E].
  - exists (base * n).
    assert (E : (inject_Z base * inject_Z n / 100 == (base * n) # 100)%Q).
    { rational_identity. }
    split; [exact E | apply G, E].
  - exists (100 * (base + n - overlay)).
    assert (E : (inject_Z base + inject_Z n - inject_Z overlay
                 == (100 * (base + n - overlay)) # 100)%Q).
    { rational_identity. }
    split; [exact E | apply G, E].
  - exists (100 * n).
    assert (E : (inject_Z n == (100 * n) # 100)%Q).
    { rational_identity. }
    split; [exact E | apply G, E].
Qed.

Lemma resolvePosition_formula (position : string) (n base overlay : Z) :
  parseInt (position_digits position) = of_Z n ->
  exists q : Q,
    resolvePosition position base overlay = Fin q
    /\ (q == placement_formula (endsWith position "p") n base overlay)%Q.
Proof.
  unfold position_digits, resolvePosition, placement_formula.
  destruct (endsWith position "p"); intro P; rewrite P, ltb_of_Z;
    destruct (n <? 0); unfold of_Z, add, sub, mul, div; simpl Qeq_bool; cbv iota;
    eexists; (split; [reflexivity|]); rewrite ?Qred_correct; reflexivity.
Qed.

Lemma placement_formula_decimal (percent : bool) (n base overlay : Z) :
  (Qabs (placement_formula percent n base overlay) < inject_Z ten_pow_21)%Q ->
  exponent_form (placement_formula percent n base overlay) = false.
Proof.
  intro B.
  destruct (placement_formula_hundredths percent n base overlay) as [k [E A]].
  rewrite (exponent_form_comp _ _ E).
  apply decimal_hundredths.
  assert (L : (inject_Z (Z.abs k) < inject_Z (100 * ten_pow_21))%Q).
  { rewrite A, inject_Z_mult.
    apply Qmult_lt_l; [reflexivity | exact B]. }
  rewrite <- Zlt_Qlt in L. exact L.
Qed.

(** For extents and parsed integers below 2^24 the placement computed in
    binary64 is, once parseInt has truncated it, the integer that the
    exact formula gives. *)
Lemma placement_in_binary64 (position : string) (n base overlay : Z) :
  parseInt (position_digits position) = of_Z n ->
  Z.abs n < 2 ^ 24 -> 0 <= base < 2 ^ 24 -> 0 <= overlay < 2 ^ 24 ->
  parseInt_number (resolvePosition64 position base overlay)
  = of_Z (trunc (placement_formula (endsWith position "p") n base overlay)).
Proof.
  intros P Bn Bb Bo.
  change (2 ^ 24) with 16777216 in *.
  assert (T21 : ten_pow_21 = 1000000000000000000000) by reflexivity.
  assert (T53 : 2 ^ 53 = 9007199254740992) by reflexivity.
  assert (T50 : 2 ^ 50 = 1125899906842624) by reflexivity.
  assert (Bp : Z.abs (base * n) < 281474976710656).
  { rewrite Z.abs_mul. nia. }
  assert (Qb : (0 <= inject_Z base)%Q /\ (inject_Z base <= 16777216 # 1)%Q).
  { unfold Qle, inject_Z. cbn [Qnum Qden]. lia. }
  assert (Qo : (0 <= inject_Z overlay)%Q /\ (inject_Z overlay <= 16777216 # 1)%Q).
  { unfold Qle, inject_Z. cbn [Qnum Qden]. lia. }
  assert (Qp : (- (2814749767107 # 1) <= (base * n) # 100)%Q
               /\ ((base * n) # 100 <= 2814749767107 # 1)%Q).
  { unfold Qle. cbn [Qnum Qden Qopp]. lia. }
  unfold position_digits in P. unfold resolvePosition64, placement_formula.
  destruct (endsWith position "p"); cbv zeta; rewrite P, ltb_of_Z.
  - rewrite fmul_integers by lia.
    destruct (fdiv_hundred (base * n) ltac:(change (2 ^ 48) with 281474976710656; lia))
      as [Dv [r [F N]]].
    pose proof (Z.div_mod (base * n) 100 ltac:(lia)) as DM.
    set (p := base * n) in *.
    destruct (n <? 0) eqn:L.
    + assert (E : (inject_Z base + inject_Z base * inject_Z n / 100 - inject_Z overlay
                   == (100 * base + base * n - 100 * overlay) # 100)%Q)
        by rational_identity.
      rewrite (trunc_comp _ _ E), trunc_hundredths. fold p.
      destruct (Z.eq_dec (p mod 100) 0) as [M|M].
      * rewrite (Dv M). rewrite M in DM.
        set (z := p / 100) in *. clearbody z p.
        rewrite fadd_integers, fsub_integers, parseInt_number_integer by lia.
        f_equal.
        replace (100 * base + p - 100 * overlay) with ((base + z - overlay) * 100) by lia.
        symmetry. apply Z.quot_mul. lia.
      * rewrite F. unfold of_Z at 1. cbn [fadd].
        destruct (fl_step (inject_Z base + r) (inject_Z base + (p # 100)) (1 # 1024))
          as [t [Ft Nt]].
        { apply Qabs_Qle_condition in N. apply Qabs_Qle_condition. split; lra. }
        { lra. }
        { apply Qabs_Qlt_condition. split; lra. }
        rewrite Ft. unfold of_Z at 1. cbn [fsub].
        destruct (fl_step (t - inject_Z overlay)
                    (inject_Z base + (p # 100) - inject_Z overlay)
                    ((1 # 1024) + (1 # 1024)))
          as [u [Fu Nu]].
        { apply Qabs_Qle_condition in Nt. apply Qabs_Qle_condition. split; lra. }
        { lra. }
        { apply Qabs_Qlt_condition. split; lra. }
        rewrite Fu.
        apply parseInt_near_hundredths.
        -- clearbody p. lia.
        -- replace (100 * base + p - 100 * overlay) with (p + (base - overlay) * 100)
             by lia.
           rewrite Z.mod_add by lia. exact M.
        -- assert (X : ((100 * base + p - 100 * overlay) # 100
                        == inject_Z base + (p # 100) - inject_Z overlay)%Q).
           { unfold Qeq, Qminus, Qplus, Qopp, inject_Z. cbn [Qnum Qden]. lia. }
           rewrite X.
           apply Qabs_Qle_condition in Nu. apply Qabs_Qle_condition. split; lra.
    + assert (E : (inject_Z base * inject_Z n / 100 == (base * n) # 100)%Q)
        by rational_identity.
      rewrite (trunc_comp _ _ E), trunc_hundredths. fold p.
      destruct (Z.eq_dec (p mod 100) 0) as [M|M].
      * rewrite (Dv M). rewrite M in DM.
        set (z := p / 100) in *. clearbody z p.
        rewrite parseInt_number_integer by lia.
        f_equal.
        replace p with (z * 100) by lia.
        symmetry. apply Z.quot_mul. lia.
      * rewrite F.
        apply parseInt_near_hundredths.
        -- clearbody p. lia.
        -- exact M.
        -- apply Qabs_Qle_condition in N. apply Qabs_Qle_condition. split; lra.
  - destruct (n <? 0).
    + rewrite fadd_integers, fsub_integers, parseInt_number_integer by lia.
      f_equal. symmetry. apply trunc_integer.
      unfold Z.sub. rewrite !inject_Z_plus, inject_Z_opp. reflexivity.
    + rewrite parseInt_number_integer by lia.
      f_equal. symmetry. apply trunc_integer. reflexivity.
Qed.

(** The same for the extents of a fetched overlay. *)
Lemma scaled_extent_in_binary64 (extent r : Z) :
  0 <= extent < 2 ^ 24 -> 0 <= r <= 100 ->
  parseInt_number (fdiv (fmul (of_Z extent) (of_Z r)) (of_Z 100))
  = of_Z (extent * r / 100).
Proof.
  intros Be Br. change (2 ^ 24) with 16777216 in Be.
  assert (T21 : ten_pow_21 = 1000000000000000000000) by reflexivity.
  assert (T53 : 2 ^ 53 = 9007199254740992) by reflexivity.
  assert (T50 : 2 ^ 50 = 1125899906842624) by reflexivity.
  assert (Bp : 0 <= extent * r < 281474976710656) by nia.
  rewrite fmul_integers by lia.
  destruct (fdiv_hundred (extent * r) ltac:(change (2 ^ 48) with 281474976710656; lia))
    as [Dv [q [F N]]].
  rewrite <- (Z.quot_div_nonneg (extent * r) 100) by lia.
  set (p := extent * r) in *. clearbody p.
  pose proof (Z.div_mod p 100 ltac:(lia)) as DM.
  destruct (Z.eq_dec (p mod 100) 0) as [M|M].
  - rewrite (Dv M). rewrite M in DM.
    set (z := p / 100) in *. clearbody z.
    rewrite parseInt_number_integer by lia.
    f_equal. replace p with (z * 100) by lia.
    symmetry. apply Z.quot_mul. lia.
  - rewrite F. apply parseInt_near_hundredths; [lia | exact M |].
    apply Qabs_Qle_condition in N. apply Qabs_Qle_condition. split; lra.
Qed.

Lemma truthy_string (s : string) : s <> "" -> truthy (VStr s) = true.
Proof.
  intro H. simpl. destruct (String.eqb s "") eqn:E; [|reflexivity].
  apply String.eqb_eq in E. contradiction.
Qed.

(** C2, as amended.  For a placement value [position] (a non-empty string
    found under [axis] in the options of an overlayWith edit) from which the
    source parses the integer [n], with [n] and the extents of the base
    image and of the overlay below 2^24 in magnitude, the branch stores
    under [axis] the formula of the specification truncated to an integer:
    for a value ending in "p", base*n/100 when n is not negative and
    base + base*n/100 - overlay when it is; for a plain value, n when n is
    not negative and base + n - overlay when it is.  Inside these bounds the
    operations of binary64 give this very integer.  In particular, on a base
    of width 200 with an overlay of width 20, "10p" resolves to 20, "-10p"
    to 160, "-30" to 150 and "30" to 30. *)
Theorem overlay_position_resolved :
  (forall (i : nat) (fields : object) (axis position : string)
          (n base overlay : Z) (s : state),
      get fields axis = VStr position ->
      position <> "" ->
      parseInt (position_digits position) = of_Z n ->
      Z.abs n < 2 ^ 24 ->
      0 <= base < 2 ^ 24 ->
      0 <= overlay < 2 ^ 24 ->
      fst (placeAxis i (VObj fields) axis base overlay s)
      = Resolved
          (VObj (set fields axis
                   (vnum (trunc (placement_formula (endsWith position "p")
                                   n base overlay)))))
      /\ parseInt_number (resolvePosition64 position base overlay)
         = parseInt_number (resolvePosition position base overlay))
  /\ parseInt_number (resolvePosition64 "10p" 200 20) = of_Z 20
  /\ parseInt_number (resolvePosition64 "-10p" 200 20) = of_Z 160
  /\ parseInt_number (resolvePosition64 "-30" 200 20) = of_Z 150
  /\ parseInt_number (resolvePosition64 "30" 200 20) = of_Z 30
  /\ parseInt_number (resolvePosition "10p" 200 20) = of_Z 20
  /\ parseInt_number (resolvePosition "-10p" 200 20) = of_Z 160
  /\ parseInt_number (resolvePosition "-30" 200 20) = of_Z 150
  /\ parseInt_number (resolvePosition "30" 200 20) = of_Z 30.
Proof.
  split; [|repeat split; vm_compute; reflexivity].
  intros i fields axis position n base overlay s Hget Hne Hparse Bn Bb Bo.
  assert (Hbound : (Qabs (placement_formula (endsWith position "p") n base overlay)
                    < inject_Z ten_pow_21)%Q).
  { destruct (placement_formula_hundredths (endsWith position "p") n base overlay)
      as [k [E A]].
    assert (K : Z.abs k < 100 * ten_pow_21 ->
                (Qabs (placement_formula (endsWith position "p") n base overlay)
                 < inject_Z ten_pow_21)%Q).
    { intro L. rewrite E. change (Qabs (k # 100)) with (Z.abs k # 100).
      unfold Qlt, inject_Z. cbn [Qnum Qden]. lia. }
    apply K. clear K A.
    change (2 ^ 24) with 16777216 in *.
    change ten_pow_21 with 1000000000000000000000.
    assert (P : Z.abs (base * n) < 281474976710656) by (rewrite Z.abs_mul; nia).
    assert (X : Z.abs k <= 100 * base + Z.abs (base * n) + 100 * overlay
                           + 100 * Z.abs n); [|lia].
    unfold placement_formula in E.
    destruct (endsWith position "p"), (n <? 0);
      unfold Qeq, Qdiv, Qminus, Qplus, Qmult, Qopp, Qinv, inject_Z in E;
      cbn [Qnum Qden] in E; lia. }
  destruct (resolvePosition_formula position n base overlay Hparse) as [q [R E]].
  pose proof (parseInt_number_decimal _ _ E (placement_formula_decimal _ _ _ _ Hbound))
    as V.
  split.
  - unfold placeAxis. cbn [prop]. rewrite Hget, (truthy_string _ Hne).
    rewrite R, V. reflexivity.
  - rewrite R, V. apply placement_in_binary64; assumption.
Qed.

Lemma overlay_position_resolved_witness :
  fst (placeAxis 0 (VObj [("left", VStr "-10p")]) "left" 200 20 initial_state)
  = Resolved (VObj [("left", vnum 160)])
  /\ parseInt_number (resolvePosition64 "-10p" 200 20)
     = parseInt_number (resolvePosition "-10p" 200 20).
Proof.
  apply (proj1 overlay_position_resolved 0%nat [("left", VStr "-10p")] "left" "-10p"
           (-10) 200 20 initial_state).
  - reflexivity.
  - discriminate.
  - vm_compute. reflexivity.
  - vm_compute. reflexivity.
  - vm_compute. split; [discriminate | reflexivity].
  - vm_compute. split; [discriminate | reflexivity].
Defined.

(** The specification's own example for "-10p" gives 158; the source, and
    the formula of the specification, give 160. *)
Lemma position_minus_10p_is_not_158 :
  parseInt_number (resolvePosition "-10p" 200 20) <> of_Z 158.
Proof. intro H. vm_compute in H. discriminate. Qed.

(** The same through applyEdits: the overlay of the instance is 20 wide,
    and the layer is composited at left 160 on the picture of width 200. *)
Example overlay_minus_10p_composited :
  fst (applyEdits Sim.collaborators Sim.templates Styled Sim.picture
         [("overlayWith",
           VObj [("key", VStr "logo.png"); ("options", VObj [("left", VStr "-10p")])])])
  = Resolved
      (called
         (called (opened Sim.picture) "composite"
            (VArr [VObj [("left", vnum 160);
                         ("input", VBuf (Sim.encode (mkMetadata 20 10)))]]))
         "resize" fit_inside).
Proof. reflexivity. Qed.

(* ------------------------------------------------------------------ *)
(** ** The crop area of a smart crop *)

(** C3, as amended.  With the padding of the options (parseFloat of
    [options.padding], 0 when it is undefined), getCropArea computes in
    binary64 the four numbers Left*width - padding, Top*height - padding,
    Width*width + padding*2 and Height*height + padding*2, and returns the
    rectangle of their truncations towards zero, as long as each of them is
    printed in decimal notation (zero, or of a magnitude from 10^-6 up to
    10^21).  Truncation is [floor] on what is not negative only.  The box
    {0.1, 0.2, 0.5, 0.4} on an image of 300 by 200 with a padding of 5 gives
    {left: 25, top: 35, width: 160, height: 90}. *)
Theorem crop_area_truncated :
  (forall (box : BoundingBox) (options : value) (m : Metadata) (l t w h : Q),
      fsub (fmul (Left box) (of_Z (width m))) (padding_of options) = Fin l ->
      fsub (fmul (Top box) (of_Z (height m))) (padding_of options) = Fin t ->
      fadd (fmul (Width box) (of_Z (width m))) (fmul (padding_of options) (of_Z 2))
      = Fin w ->
      fadd (fmul (Height box) (of_Z (height m))) (fmul (padding_of options) (of_Z 2))
      = Fin h ->
      exponent_form l = false ->
      exponent_form t = false ->
      exponent_form w = false ->
      exponent_form h = false ->
      getCropArea box options m
      = VObj
          [("left", vnum (trunc l)); ("top", vnum (trunc t));
           ("width", vnum (trunc w)); ("height", vnum (trunc h))])
  /\ (forall q : Q, (0 <= q)%Q -> trunc q = Qfloor q)
  /\ getCropArea
       (mkBoundingBox (fl (1 # 10)) (fl (2 # 10)) (fl (5 # 10)) (fl (4 # 10)))
       (VObj [("padding", vnum 5)]) (mkMetadata 300 200)
     = VObj [("left", vnum 25); ("top", vnum 35); ("width", vnum 160); ("height", vnum 90)].
Proof.
  split; [|split; [exact trunc_nonneg | vm_compute; reflexivity]].
  intros box options m l t w h Hl Ht Hw Hh Dl Dt Dw Dh.
  unfold getCropArea. rewrite Hl, Ht, Hw, Hh.
  rewrite (parseInt_number_decimal l l (Qeq_refl l) Dl),
    (parseInt_number_decimal t t (Qeq_refl t) Dt),
    (parseInt_number_decimal w w (Qeq_refl w) Dw),
    (parseInt_number_decimal h h (Qeq_refl h) Dh).
  reflexivity.
Qed.

Lemma crop_area_truncated_witness :
  getCropArea (mkBoundingBox (Fin 0) (Fin 0) (Fin (1 # 2)) (Fin (1 # 2)))
    (VObj [("padding", VStr "1.5")]) (mkMetadata 100 100)
  = VObj [("left", vnum (-1)); ("top", vnum (-1)); ("width", vnum 53); ("height", vnum 53)].
Proof.
  apply (proj1 crop_area_truncated
           (mkBoundingBox (Fin 0) (Fin 0) (Fin (1 # 2)) (Fin (1 # 2)))
           (VObj [("padding", VStr "1.5")]) (mkMetadata 100 100)
           (- 3 # 2) (- 3 # 2) (53 # 1) (53 # 1));
    vm_compute; reflexivity.
Defined.

(** With a padding of 1.5 at the left edge of the image, Left*width -
    padding is -1.5: parseInt gives -1 where [floor] gives -2. *)
Lemma crop_area_is_not_floor :
  getCropArea (mkBoundingBox (Fin 0) (Fin 0) (Fin (1 # 2)) (Fin (1 # 2)))
    (VObj [("padding", vnum_q (3 # 2))]) (mkMetadata 100 100)
  <> cropArea_floor 0%Q 0%Q (1 # 2) (1 # 2) (3 # 2) (mkMetadata 100 100).
Proof. intro H. vm_compute in H. discriminate. Qed.

(** The products are rounded before they are truncated: 0.03 * 100 is 3 in
    binary64, although the number 0.03 is below 3/100; and a difference
    that is printed with an exponent, such as 0.07 * 100 - 7 =
    8.881784197001252e-16, is read back as its first digit. *)
Example crop_area_rounds_products :
  getCropArea (mkBoundingBox (fl (3 # 100)) (fl (29 # 100)) (fl (5 # 10)) (fl (5 # 10)))
    (VObj []) (mkMetadata 100 100)
  = VObj [("left", vnum 3); ("top", vnum 28); ("width", vnum 50); ("height", vnum 50)]
  /\ getCropArea (mkBoundingBox (fl (7 # 100)) (Fin 0) (Fin 1) (Fin 1))
       (VObj [("padding", vnum 7)]) (mkMetadata 100 100)
     = VObj [("left", vnum 8); ("top", vnum (-7)); ("width", vnum 114);
             ("height", vnum 114)].
Proof. split; vm_compute; reflexivity. Qed.

(* ------------------------------------------------------------------ *)
(** ** The bounding box of a face *)

Lemma element_number {A : Type} (a : list A) (n : Z) :
  0 <= n -> element a (vnum n) = nth_error a (Z.to_nat n).
Proof.
  intro H. unfold vnum, of_Z. cbn [element]. rewrite trunc_inject_Z.
  assert (Q : Qeq_bool (inject_Z n) (inject_Z n) = true)
    by (apply Qeq_bool_iff; reflexivity).
  assert (L : (0 <=? n) = true) by (apply Z.leb_le; exact H).
  rewrite Q, L. reflexivity.
Qed.

(** getBoundingBox once the detector has answered, for a face index that
    is undefined or a non-negative integer [n]. *)
Lemma getBoundingBox_at (c : Collaborators) (imageBuffer : Buffer)
    (faces : list BoundingBox) (faceIndex : value) (n : Z) :
  rekognition_detectFaces c imageBuffer = Resolved faces ->
  0 <= n ->
  (faceIndex = VUndefined /\ n = 0) \/ faceIndex = vnum n ->
  getBoundingBox c imageBuffer faceIndex
  = match nth_error faces (Z.to_nat n) with
    | Some box => Resolved (Some box)
    | None => Failed FaceIndexOutOfRange
    end.
Proof.
  intros Hd Hn Hi. unfold getBoundingBox. rewrite Hd. cbn [and_then].
  assert (E : (if negb (is_undefined faceIndex) then faceIndex else vnum 0) = vnum n).
  { destruct Hi as [[-> ->] | ->]; reflexivity. }
  rewrite E, (element_number faces n Hn).
  destruct (nth_error faces (Z.to_nat n)); reflexivity.
Qed.

(** C4, as amended.  When the detector answers with a list of faces that
    is not longer than the requested index, a non-negative integer or 0
    when [faceIndex] is undefined, getBoundingBox rejects with status 400
    and code SmartCrop::FaceIndexOutOfRange; so it does for every key under
    which the list has no element, but for the name of a property that
    every array has (length, an inherited method): there it resolves, with
    undefined.  When the detector itself fails, with an error whose message
    is not the text of that TypeError, getBoundingBox rejects with the code
    and the message of the detector's error and with status 500, whatever
    status the detector's error carries. *)
Theorem bounding_box_failures (c : Collaborators) (imageBuffer : Buffer) (faceIndex : value) :
  (forall (faces : list BoundingBox) (n : Z),
      rekognition_detectFaces c imageBuffer = Resolved faces ->
      0 <= n ->
      (faceIndex = VUndefined /\ n = 0) \/ faceIndex = vnum n ->
      (List.length faces <= Z.to_nat n)%nat ->
      getBoundingBox c imageBuffer faceIndex = Failed FaceIndexOutOfRange)
  /\ (forall faces : list BoundingBox,
         rekognition_detectFaces c imageBuffer = Resolved faces ->
         element faces (faceIdx faceIndex) = None ->
         getBoundingBox c imageBuffer faceIndex
         = if array_property c (faceIdx faceIndex) then Resolved None
           else Failed FaceIndexOutOfRange)
  /\ (forall err : thrown,
         rekognition_detectFaces c imageBuffer = Failed err ->
         is_string (err_message err) "Cannot read property 'BoundingBox' of undefined" = false ->
         getBoundingBox c imageBuffer faceIndex
         = Failed (rejection (vnum 500) (err_code err) (err_message err))).
Proof.
  split; [|split].
  - intros faces n Hd Hn Hi Hl.
    rewrite (getBoundingBox_at c imageBuffer faces faceIndex n Hd Hn Hi).
    apply nth_error_None in Hl. rewrite Hl. reflexivity.
  - intros faces Hd He. unfold getBoundingBox, faceIdx in *. rewrite Hd. cbn [and_then].
    destruct (is_undefined faceIndex); cbn [negb]; rewrite He;
      match goal with
      | |- context [array_property c ?i] => destruct (array_property c i)
      end; reflexivity.
  - intros err Hd Hm. unfold getBoundingBox. rewrite Hd. cbn [and_then].
    rewrite Hm. reflexivity.
Qed.

Lemma bounding_box_failures_witness :
  getBoundingBox Sim.collaborators Sim.picture (vnum 1) = Failed FaceIndexOutOfRange
  /\ getBoundingBox Sim.collaborators Sim.picture (VStr "length") = Resolved None
  /\ getBoundingBox refusing_detector Sim.picture VUndefined
     = Failed (rejection (vnum 500) (VStr "InvalidImageFormatException")
                 (VStr "Request has invalid image format")).
Proof.
  split; [|split].
  - apply (proj1 (bounding_box_failures Sim.collaborators Sim.picture (vnum 1))
             [Sim.face] 1).
    + reflexivity.
    + lia.
    + right. reflexivity.
    + cbn. lia.
  - apply (proj1 (proj2 (bounding_box_failures Sim.collaborators Sim.picture
                           (VStr "length")))
             [Sim.face]);
      reflexivity.
  - apply (proj2 (proj2 (bounding_box_failures refusing_detector Sim.picture VUndefined))
             InvalidImageFormat);
      reflexivity.
Defined.

(** The detector's error carries status 400; the rejection of
    getBoundingBox carries 500. *)
Lemma detector_status_not_propagated :
  exists e : thrown,
    getBoundingBox refusing_detector Sim.picture VUndefined = Failed e
    /\ err_status e = vnum 500
    /\ err_status e <> err_statusCode InvalidImageFormat.
Proof.
  eexists. split; [reflexivity|]. split; [reflexivity | discriminate].
Qed.

(* ------------------------------------------------------------------ *)
(** ** The loop of applyEdits *)

Section Loop.

Variable c : Collaborators.
Variable templates : Templates.
Variable v : Variant.
Variable metadata : Metadata.

Lemma applyEditsFrom_cons (i : nat) (key : string) (keys : list string) (s : state) :
  applyEditsFrom c templates v metadata i (key :: keys) s
  = match turn c templates v metadata i key s with
    | (Resolved _, s') => applyEditsFrom c templates v metadata (S i) keys s'
    | (Failed e, s') => (Failed e, s')
    end.
Proof.
  cbn [applyEditsFrom]. unfold bind.
  destruct (turn c templates v metadata i key s) as [[[]|e] s']; reflexivity.
Qed.

(** The loop over [before ++ after] is the loop over [before] followed,
    when it completes, by the loop over [after]. *)
Lemma applyEditsFrom_app (before after : list string) :
  forall (i : nat) (s : state),
    applyEditsFrom c templates v metadata i (before ++ after)%list s
    = match applyEditsFrom c templates v metadata i before s with
      | (Resolved _, s') =>
          applyEditsFrom c templates v metadata (i + List.length before) after s'
      | (Failed e, s') => (Failed e, s')
      end.
Proof.
  induction before as [|key before IH]; intros i s.
  - cbn [app applyEditsFrom List.length ret]. rewrite Nat.add_0_r. reflexivity.
  - change ((key :: before) ++ after)%list with (key :: (before ++ after))%list.
    rewrite !applyEditsFrom_cons.
    destruct (turn c templates v metadata i key s) as [[[]|e] s']; [|reflexivity].
    rewrite IH. cbn [List.length]. rewrite Nat.add_succ_r. reflexivity.
Qed.

(** An edit that fails once the edits before it have completed makes the
    whole loop fail with its error. *)
Lemma applyEditsFrom_fails (keys : list string) (j : nat) (key : string)
    (s0 s s' : state) (e : thrown) :
  nth_error keys j = Some key ->
  applyEditsFrom c templates v metadata 0 (firstn j keys) s0 = (Resolved tt, s) ->
  turn c templates v metadata j key s = (Failed e, s') ->
  applyEditsFrom c templates v metadata 0 keys s0 = (Failed e, s').
Proof.
  intros Hk Hbefore Hturn.
  assert (Hsplit : keys = (firstn j keys ++ key :: skipn (S j) keys)%list).
  { clear - Hk. revert keys Hk. induction j as [|j IH]; intros [|k keys] Hk;
      try discriminate.
    - injection Hk as ->. reflexivity.
    - cbn [firstn skipn app]. f_equal. apply IH. exact Hk. }
  assert (Hlen : List.length (firstn j keys) = j).
  { apply firstn_length_le. apply Nat.lt_le_incl. apply nth_error_Some. congruence. }
  rewrite Hsplit, applyEditsFrom_app, Hbefore, Hlen.
  cbn [Nat.add]. rewrite applyEditsFrom_cons, Hturn. reflexivity.
Qed.

End Loop.

(* ------------------------------------------------------------------ *)
(** ** Smart crop: the extraction *)

(** The smartCrop branch once the detector has answered: its outcome is
    decided by the call of [extract] alone. *)
Lemma smartCrop_outcome (c : Collaborators) (metadata : Metadata) (options : value)
    (s : state) (imageBuffer : Buffer) (faceIndex : value) (box : BoundingBox) :
  sharp_toBuffer c (st_image s) = Resolved imageBuffer ->
  read options "faceIndex" = Resolved faceIndex ->
  getBoundingBox c imageBuffer faceIndex = Resolved (Some box) ->
  smartCrop c metadata options s
  = match sharp_invoke c (st_image s) "extract" (getCropArea box options metadata) with
    | Some _ => (Failed PaddingOutOfBounds, s)
    | None =>
        (Resolved tt,
         mkState (st_edits s)
           (called (st_image s) "extract" (getCropArea box options metadata)))
    end.
Proof.
  intros Hb Hr Hg.
  unfold smartCrop.
  cbv [bind gets await try_catch image_call call modify throw].
  rewrite Hb, Hr, Hg.
  destruct (sharp_invoke c (st_image s) "extract" (getCropArea box options metadata));
    reflexivity.
Qed.

(** C5.  The 400 of smartCrop is the catch of a throw of [extract], and of
    nothing else.  When the loop of applyEdits reaches a smartCrop edit (at
    index [j], in state [s]), the detector has given the bounding box [box]
    and the call of [extract] throws on the crop area, applyEdits fails
    with status 400 and code SmartCrop::PaddingOutOfBounds.  When the call
    does not throw, the branch completes and the call is recorded on the
    handle, whatever the rectangle is.  The image library throws there on a
    field that is not a non-negative integer, and leaves the bounds to the
    encoding; so, with a face at {0.7, 0.2, 0.3, 0.4} of a picture of 200
    by 100 and a padding of 20, the crop area {left: 120, top: 0, width:
    100, height: 80} exceeds the width of the picture, applyEdits resolves
    all the same, and process fails at the encoding with the error of the
    library, which has neither the code nor a status. *)
Theorem crop_beyond_far_edge_not_rejected :
  (forall (c : Collaborators) (templates : Templates) (v : Variant)
          (originalImage : Buffer) (edits : object) (j : nat) (metadata : Metadata)
          (s : state) (imageBuffer : Buffer) (faceIndex : value) (box : BoundingBox)
          (e : thrown),
      sharp_metadata c (opened originalImage) = Resolved metadata ->
      nth_error (keys (defaultResize edits)) j = Some "smartCrop" ->
      applyEditsFrom c templates v metadata 0 (firstn j (keys (defaultResize edits)))
        (mkState (defaultResize edits) (opened originalImage))
      = (Resolved tt, s) ->
      sharp_toBuffer c (st_image s) = Resolved imageBuffer ->
      read (nth j (values (st_edits s)) VUndefined) "faceIndex" = Resolved faceIndex ->
      getBoundingBox c imageBuffer faceIndex = Resolved (Some box) ->
      sharp_invoke c (st_image s) "extract"
        (getCropArea box (nth j (values (st_edits s)) VUndefined) metadata) = Some e ->
      fst (applyEdits c templates v originalImage edits) = Failed PaddingOutOfBounds)
  /\ (forall (c : Collaborators) (metadata : Metadata) (options : value) (s : state)
             (imageBuffer : Buffer) (faceIndex : value) (box : BoundingBox),
         sharp_toBuffer c (st_image s) = Resolved imageBuffer ->
         read options "faceIndex" = Resolved faceIndex ->
         getBoundingBox c imageBuffer faceIndex = Resolved (Some box) ->
         sharp_invoke c (st_image s) "extract" (getCropArea box options metadata) = None ->
         smartCrop c metadata options s
         = (Resolved tt,
            mkState (st_edits s)
              (called (st_image s) "extract" (getCropArea box options metadata))))
  /\ getCropArea edge_face (VObj [("padding", vnum 20)]) (mkMetadata 200 100)
     = far_edge_area
  /\ exceeds (mkMetadata 200 100) far_edge_area = true
  /\ applyEdits edge_detector Sim.templates Fetching Sim.picture padded_crop
     = (Resolved (called (called (opened Sim.picture) "extract" far_edge_area)
                    "resize" fit_inside),
        [("smartCrop", VObj [("padding", vnum 20)]); ("resize", fit_inside)])
  /\ fst (process edge_detector Sim.templates Fetching
            (mkImageRequest Sim.picture (Some padded_crop) VUndefined))
     = Failed Sim.bad_extract_area
  /\ err_status Sim.bad_extract_area = VUndefined
  /\ err_code Sim.bad_extract_area = VUndefined.
Proof.
  split; [|split; [|repeat split; vm_compute; reflexivity]].
  - intros c templates v originalImage edits j metadata s imageBuffer faceIndex box e
      Hm Hk Hloop Hb Hr Hg Hx.
    unfold applyEdits. fold (opened originalImage).
    unfold bind at 1. unfold await at 1. rewrite Hm.
    assert (Hturn : turn c templates v metadata j "smartCrop" s
                    = (Failed PaddingOutOfBounds, s)).
    { unfold turn, bind, gets, applyEdit. cbn [String.eqb Ascii.eqb Bool.eqb].
      rewrite (smartCrop_outcome c metadata _ s imageBuffer faceIndex box Hb Hr Hg), Hx.
      reflexivity. }
    unfold bind.
    rewrite (applyEditsFrom_fails c templates v metadata _ j "smartCrop" _ s s
               PaddingOutOfBounds Hk Hloop Hturn).
    reflexivity.
  - intros c metadata options s imageBuffer faceIndex box Hb Hr Hg Hx.
    rewrite (smartCrop_outcome c metadata options s imageBuffer faceIndex box Hb Hr Hg), Hx.
    reflexivity.
Qed.

(** On the picture of 200 by 100 the face of the instance is at (20, 20)
    and is 100 by 40; a padding of 50 puts the left edge of the crop area
    at -30, on which [extract] throws.  With the face by the right edge and
    a padding of 20 it does not. *)
Lemma crop_beyond_far_edge_not_rejected_witness :
  fst (applyEdits Sim.collaborators Sim.templates Styled Sim.picture
         [("smartCrop", VObj [("padding", vnum 50)])])
  = Failed PaddingOutOfBounds
  /\ smartCrop edge_detector (mkMetadata 200 100) (VObj [("padding", vnum 20)])
       (mkState padded_crop (opened Sim.picture))
     = (Resolved tt,
        mkState padded_crop
          (called (opened Sim.picture) "extract"
             (getCropArea edge_face (VObj [("padding", vnum 20)]) (mkMetadata 200 100)))).
Proof.
  split.
  - apply (proj1 crop_beyond_far_edge_not_rejected Sim.collaborators Sim.templates Styled
             Sim.picture [("smartCrop", VObj [("padding", vnum 50)])] 0%nat
             (mkMetadata 200 100)
             (mkState [("smartCrop", VObj [("padding", vnum 50)]); ("resize", fit_inside)]
                (opened Sim.picture))
             (Sim.encode (mkMetadata 200 100)) VUndefined Sim.face
             (Sim.invalid_parameter "left"));
      vm_compute; reflexivity.
  - apply (proj1 (proj2 crop_beyond_far_edge_not_rejected) edge_detector
             (mkMetadata 200 100) (VObj [("padding", vnum 20)])
             (mkState padded_crop (opened Sim.picture))
             (Sim.encode (mkMetadata 200 100)) VUndefined edge_face);
      vm_compute; reflexivity.
Defined.

(* ------------------------------------------------------------------ *)
(** ** What applyEdits writes into the caller's edits *)

Lemma get_set_same (o : object) (k : string) (x : value) : get (set o k x) k = x.
Proof.
  induction o as [|[k' x'] o IH]; cbn [set get].
  - rewrite String.eqb_refl. reflexivity.
  - destruct (String.eqb k' k) eqn:E; cbn [get]; rewrite E; [reflexivity | exact IH].
Qed.

Lemma get_set_other (o : object) (k k' : string) (x : value) :
  k' <> k -> get (set o k x) k' = get o k'.
Proof.
  intro N. induction o as [|[k0 x0] o IH]; cbn [set get].
  - destruct (String.eqb k k') eqn:E; [|reflexivity].
    apply String.eqb_eq in E. congruence.
  - destruct (String.eqb k0 k) eqn:E; cbn [get].
    + apply String.eqb_eq in E. subst k0.
      destruct (String.eqb k k') eqn:E'; [|reflexivity].
      apply String.eqb_eq in E'. congruence.
    + rewrite IH. reflexivity.
Qed.

Lemma keys_set_absent (o : object) (k : string) (x : value) :
  ~ In k (keys o) -> set o k x = (o ++ [(k, x)])%list.
Proof.
  induction o as [|[k' x'] o IH]; intro N; cbn [set app].
  - reflexivity.
  - destruct (String.eqb k' k) eqn:E.
    + apply String.eqb_eq in E. subst k'. exfalso. apply N. left. reflexivity.
    + f_equal. apply IH. intro I. apply N. right. exact I.
Qed.

Lemma get_absent (o : object) (k : string) : ~ In k (keys o) -> get o k = VUndefined.
Proof.
  induction o as [|[k' x'] o IH]; intro N; cbn [get].
  - reflexivity.
  - destruct (String.eqb k' k) eqn:E.
    + apply String.eqb_eq in E. subst k'. exfalso. apply N. left. reflexivity.
    + apply IH. intro I. apply N. right. exact I.
Qed.

(** An edits object without a resize key gets the default resize as its
    last key; with it, the object is left alone. *)
Lemma defaultResize_absent (edits : object) :
  ~ In "resize" (keys edits) ->
  defaultResize edits = (edits ++ [("resize", VObj [("fit", VStr "inside")])])%list.
Proof.
  intro N. unfold defaultResize. rewrite (get_absent _ _ N). cbn [is_undefined].
  apply keys_set_absent, N.
Qed.

Lemma defaultResize_idempotent (edits : object) :
  defaultResize (defaultResize edits) = defaultResize edits.
Proof.
  unfold defaultResize.
  destruct (is_undefined (get edits "resize")) eqn:E.
  - rewrite get_set_same. reflexivity.
  - rewrite E. reflexivity.
Qed.

Lemma frame_options_refl (o : value) : frame_options o o.
Proof. left. reflexivity. Qed.

Lemma frame_options_trans (o1 o2 o3 : value) :
  frame_options o1 o2 -> frame_options o2 o3 -> frame_options o1 o3.
Proof.
  intros [->|[f1 [f2 [-> [-> H12]]]]] [->|[f2' [f3 [E2 [-> H23]]]]].
  - left. reflexivity.
  - right. exists f2', f3. auto.
  - right. exists f1, f2. auto.
  - injection E2 as <-. right. exists f1, f3. repeat split.
    intros g Hl Ht. rewrite H23, H12; auto.
Qed.

Lemma frame_value_refl (x : value) : frame_value x x.
Proof. left. reflexivity. Qed.

Lemma frame_value_trans (x1 x2 x3 : value) :
  frame_value x1 x2 -> frame_value x2 x3 -> frame_value x1 x3.
Proof.
  intros [->|[f1 [f2 [-> [-> [H12 O12]]]]]] [->|[f2' [f3 [E2 [-> [H23 O23]]]]]].
  - left. reflexivity.
  - right. exists f2', f3. auto.
  - right. exists f1, f2. auto.
  - injection E2 as <-. right. exists f1, f3. repeat split.
    + intros f Hf. rewrite H23, H12; auto.
    + eapply frame_options_trans; eassumption.
Qed.

Lemma frame_entry_refl (e : string * value) : frame_entry e e.
Proof. repeat split. apply frame_value_refl. Qed.

Lemma frame_refl (edits : object) : frame edits edits.
Proof. induction edits; constructor; auto using frame_entry_refl. Qed.

Lemma frame_trans (e1 e2 e3 : object) : frame e1 e2 -> frame e2 e3 -> frame e1 e3.
Proof.
  intro H12. revert e3. induction H12 as [|a b l1 l2 Hab _ IH]; intros e3 H23.
  - inversion H23. constructor.
  - inversion H23 as [|b' c' l2' l3 Hbc Hrest]; subst.
    constructor; [|apply IH; assumption].
    destruct Hab as [K1 [S1 V1]], Hbc as [K2 [S2 V2]].
    repeat split.
    + congruence.
    + intro N. rewrite S2, S1; auto. congruence.
    + eapply frame_value_trans; eassumption.
Qed.

Lemma frame_keys (e e' : object) : frame e e' -> keys e' = keys e.
Proof.
  induction 1 as [|a b l l' [K _] _ IH]; cbn [keys map]; [reflexivity|].
  unfold keys in IH. rewrite IH, K. reflexivity.
Qed.

Lemma bind_inv {A B : Type} (m : M A) (f : A -> M B) (s s' : state) (r : outcome B) :
  bind m f s = (r, s') ->
  (exists (a : A) (s1 : state), m s = (Resolved a, s1) /\ f a s1 = (r, s'))
  \/ (exists e : thrown, m s = (Failed e, s') /\ r = Failed e).
Proof.
  unfold bind. destruct (m s) as [[a|e] s1]; intro H.
  - left. exists a, s1. split; [reflexivity | exact H].
  - right. exists e. injection H as <- <-. split; reflexivity.
Qed.

Lemma stateless_await {A : Type} (p : outcome A) : stateless (await p).
Proof. intros s s' r H. injection H as _ <-. reflexivity. Qed.

Lemma stateless_gets {A : Type} (f : state -> A) : stateless (gets f).
Proof. intros s s' r H. injection H as _ <-. reflexivity. Qed.

Lemma stateless_ret {A : Type} (a : A) : stateless (ret a).
Proof. intros s s' r H. injection H as _ <-. reflexivity. Qed.

Lemma stateless_throw {A : Type} (e : thrown) : stateless (@throw A e).
Proof. intros s s' r H. injection H as _ <-. reflexivity. Qed.

Lemma stateless_bind {A B : Type} (m : M A) (f : A -> M B) :
  stateless m -> (forall a, stateless (f a)) -> stateless (bind m f).
Proof.
  intros Hm Hf s s' r H.
  destruct (bind_inv _ _ _ _ _ H) as [[a [s1 [H1 H2]]]|[e [H1 _]]].
  - apply Hm in H1. subst s1. exact (Hf a _ _ _ H2).
  - exact (Hm _ _ _ H1).
Qed.

Lemma stateless_pendingResizeMetadata (c : Collaborators) (metadata : Metadata) :
  stateless (pendingResizeMetadata c metadata).
Proof.
  unfold pendingResizeMetadata.
  apply stateless_bind; [apply stateless_gets|]. intro resize.
  destruct (truthy resize); [|apply stateless_ret].
  repeat (apply stateless_bind; [first [apply stateless_gets | apply stateless_await]|]; intro).
  apply stateless_await.
Qed.

Lemma keeps_edits_stateless {A : Type} (m : M A) : stateless m -> keeps_edits m.
Proof. intros H s s' r E. rewrite (H _ _ _ E). reflexivity. Qed.

Lemma keeps_edits_bind {A B : Type} (m : M A) (f : A -> M B) :
  keeps_edits m -> (forall a, keeps_edits (f a)) -> keeps_edits (bind m f).
Proof.
  intros Hm Hf s s' r H.
  destruct (bind_inv _ _ _ _ _ H) as [[a [s1 [H1 H2]]]|[e [H1 _]]].
  - rewrite (Hf a _ _ _ H2). exact (Hm _ _ _ H1).
  - exact (Hm _ _ _ H1).
Qed.

Lemma keeps_edits_image_call (c : Collaborators) (name : string) (arg : value) :
  keeps_edits (image_call c name arg).
Proof.
  intros s s' r. unfold image_call. cbv [bind gets await modify call].
  destruct (sharp_invoke c (st_image s) name arg); intro H; injection H as _ <-;
    reflexivity.
Qed.

Lemma keeps_edits_try_catch {A : Type} (m : M A) (h : thrown -> M A) :
  keeps_edits m -> (forall e, keeps_edits (h e)) -> keeps_edits (try_catch m h).
Proof.
  intros Hm Hh s s' r. unfold try_catch.
  destruct (m s) as [[a|e] s1] eqn:E; intro H.
  - injection H as _ <-. exact (Hm _ _ _ E).
  - rewrite (Hh e _ _ _ H). exact (Hm _ _ _ E).
Qed.

Create HintDb edits.

#[local] Hint Resolve stateless_await stateless_gets stateless_ret stateless_throw
  stateless_pendingResizeMetadata keeps_edits_stateless keeps_edits_image_call : edits.

Ltac keeps_edits_steps :=
  repeat first
    [ apply keeps_edits_image_call
    | apply keeps_edits_stateless; solve [auto with edits]
    | apply keeps_edits_bind; [|intro]
    | apply keeps_edits_try_catch; [|intro] ].

Lemma keeps_edits_smartCrop (c : Collaborators) (metadata : Metadata) (options : value) :
  keeps_edits (smartCrop c metadata options).
Proof. unfold smartCrop. keeps_edits_steps. Qed.

Lemma keeps_edits_TEPWatermark (c : Collaborators) (templates : Templates) (v : Variant)
    (metadata : Metadata) (x : value) :
  keeps_edits (TEPWatermark c templates v metadata x).
Proof.
  destruct v; cbn [TEPWatermark].
  - unfold TEPWatermark_fetching. keeps_edits_steps.
  - unfold TEPWatermark_styled. keeps_edits_steps.
    match goal with |- context [if ?b then _ else _] => destruct b end;
      keeps_edits_steps.
Qed.

(** What [placeAxis] does: nothing, or it writes the resolved position
    into the options and stores them into entry [i]. *)
Lemma placeAxis_inv (i : nat) (options : value) (axis : string) (base overlay : Z)
    (s s' : state) (r : outcome value) :
  placeAxis i options axis base overlay s = (r, s') ->
  (s' = s /\ (r = Resolved options \/ exists e, r = Failed e))
  \/ exists (fields : object) (x : value),
      options = VObj fields
      /\ r = Resolved (VObj (set fields axis x))
      /\ s' = mkState (store_options i (VObj (set fields axis x)) (st_edits s)) (st_image s).
Proof.
  unfold placeAxis.
  destruct (truthy (prop options axis)) eqn:T.
  - destruct options as [| | | | | | |fields];
      try (cbn [prop truthy] in T; discriminate).
    destruct (prop (VObj fields) axis) eqn:P;
      try (intro H; injection H as <- <-; left; split; [reflexivity|right; eauto]).
    intro H. cbv [bind modify ret] in H. injection H as <- <-.
    right. eexists _, _. repeat split.
  - intro H. injection H as <- <-. left. split; [reflexivity | left; reflexivity].
Qed.

Lemma store_options_frame (i : nat) (o' : value) (edits : object) :
  (forall (k : string) (fields : object),
      nth_error edits i = Some (k, VObj fields) ->
      k = "overlayWith" /\ frame_options (get fields "options") o') ->
  frame edits (store_options i o' edits).
Proof.
  unfold store_options. intro H.
  destruct (nth_error edits i) as [[k x]|] eqn:N; [|apply frame_refl].
  destruct x as [| | | | | | |fields]; try apply frame_refl.
  destruct (H k fields eq_refl) as [-> F].
  rewrite <- (firstn_skipn i edits) at 1.
  apply Forall2_app; [apply frame_refl|].
  assert (E : skipn i edits = ("overlayWith", VObj fields) :: skipn (S i) edits).
  { clear - N. revert edits N. induction i as [|i IH]; intros [|e edits] N;
      try discriminate.
    - injection N as ->. reflexivity.
    - cbn [skipn]. apply IH. exact N. }
  rewrite E. constructor; [|apply frame_refl].
  repeat split.
  - intro C. cbn [fst] in C. congruence.
  - right. exists fields, (set fields "options" o'). repeat split.
    + intros f Hf. apply get_set_other. exact Hf.
    + rewrite get_set_same. exact F.
Qed.

Lemma nth_values_object (edits : object) (i : nat) (fields : object) :
  nth i (values edits) VUndefined = VObj fields ->
  exists k : string, nth_error edits i = Some (k, VObj fields).
Proof.
  revert i. induction edits as [|[k x] edits IH]; intros [|i] H; cbn in H;
    try discriminate.
  - exists k. cbn. congruence.
  - apply IH. exact H.
Qed.

Lemma nth_error_keys (edits : object) (i : nat) (k : string) (x : value) :
  nth_error edits i = Some (k, x) -> nth_error (keys edits) i = Some k.
Proof.
  intro H. unfold keys. rewrite nth_error_map, H. reflexivity.
Qed.

Lemma store_options_nth (i : nat) (o' : value) (edits : object) (k : string)
    (fields : object) :
  nth_error edits i = Some (k, VObj fields) ->
  nth_error (store_options i o' edits) i = Some (k, VObj (set fields "options" o')).
Proof.
  intro N. unfold store_options. rewrite N.
  assert (L : List.length (firstn i edits) = i).
  { apply firstn_length_le, Nat.lt_le_incl, nth_error_Some. congruence. }
  rewrite nth_error_app2 by (rewrite L; apply Nat.le_refl).
  rewrite L, Nat.sub_diag. reflexivity.
Qed.

Lemma placeAxis_frame (i : nat) (options : value) (axis : string) (base overlay : Z)
    (s s' : state) (r : outcome value) :
  nth_error (keys (st_edits s)) i = Some "overlayWith" ->
  current_options i (st_edits s) = options ->
  axis = "left" \/ axis = "top" ->
  placeAxis i options axis base overlay s = (r, s') ->
  frame (st_edits s) (st_edits s')
  /\ forall options', r = Resolved options' -> current_options i (st_edits s') = options'.
Proof.
  intros Hkey Hcur Haxis H.
  destruct (placeAxis_inv _ _ _ _ _ _ _ _ H) as [[-> R]|[ofields [x [Ho [-> ->]]]]].
  - split; [apply frame_refl|].
    intros options' E. destruct R as [->|[e ->]]; [|discriminate].
    injection E as <-. exact Hcur.
  - cbn [st_edits].
    unfold current_options in Hcur.
    destruct (nth i (values (st_edits s)) VUndefined) as [| | | | | | |fields] eqn:V;
      try (cbn [prop] in Hcur; congruence).
    destruct (nth_values_object _ _ _ V) as [k N].
    assert (K : k = "overlayWith").
    { apply nth_error_keys in N. congruence. }
    subst k. cbn [prop] in Hcur.
    split.
    + apply store_options_frame. intros k fields' N'.
      rewrite N in N'. injection N' as <- <-.
      split; [reflexivity|].
      rewrite Hcur, Ho. right. exists ofields, (set ofields axis x). repeat split.
      intros g Hl Ht. apply get_set_other. destruct Haxis; congruence.
    + intros options' E. injection E as <-.
      unfold current_options.
      pose proof (store_options_nth i (VObj (set ofields axis x)) _ _ _ N) as N2.
      assert (V2 : nth i (values (store_options i (VObj (set ofields axis x)) (st_edits s)))
                     VUndefined
                   = VObj (set fields "options" (VObj (set ofields axis x)))).
      { unfold values. apply nth_error_nth. rewrite nth_error_map, N2. reflexivity. }
      rewrite V2. cbn [prop]. apply get_set_same.
Qed.

(** The overlayWith branch writes nothing but the [left] and the [top] of
    the options of its own entry. *)
Lemma overlayWith_frame (c : Collaborators) (metadata : Metadata) (i : nat)
    (s s' : state) (r : outcome unit) :
  nth_error (keys (st_edits s)) i = Some "overlayWith" ->
  overlayWith c metadata i (nth i (values (st_edits s)) VUndefined) s = (r, s') ->
  frame (st_edits s) (st_edits s').
Proof.
  intros Hkey H. unfold overlayWith in H.
  apply bind_inv in H. destruct H as [[md [s1 [H1 H]]]|[e [H1 _]]];
    [|apply stateless_pendingResizeMetadata in H1; subst; apply frame_refl].
  apply stateless_pendingResizeMetadata in H1. subst s1.
  apply bind_inv in H. destruct H as [[u [s1 [H1 H]]]|[e [H1 _]]];
    [|apply stateless_await in H1; subst; apply frame_refl].
  apply stateless_await in H1. subst s1.
  apply bind_inv in H. destruct H as [[overlay [s1 [H1 H]]]|[e [H1 _]]];
    [|apply stateless_await in H1; subst; apply frame_refl].
  apply stateless_await in H1. subst s1.
  apply bind_inv in H. destruct H as [[overlayMetadata [s1 [H1 H]]]|[e [H1 _]]];
    [|apply stateless_await in H1; subst; apply frame_refl].
  apply stateless_await in H1. subst s1.
  fold (current_options i (st_edits s)) in H.
  assert (G : forall (s2 : state) (r2 : outcome value),
             (if truthy (current_options i (st_edits s))
              then
                bind (placeAxis i (current_options i (st_edits s)) "left"
                        (width md) (width overlayMetadata))
                  (fun options =>
                     placeAxis i options "top" (height md) (height overlayMetadata))
              else ret (current_options i (st_edits s))) s = (r2, s2) ->
             frame (st_edits s) (st_edits s2)).
  { intros s2 r2 H2.
    destruct (truthy (current_options i (st_edits s)));
      [|injection H2 as _ <-; apply frame_refl].
    apply bind_inv in H2. destruct H2 as [[o1 [s1 [HL HT]]]|[e [HL _]]].
    - destruct (placeAxis_frame _ _ _ _ _ _ _ _ Hkey eq_refl (or_introl eq_refl) HL)
        as [F1 C1].
      assert (Hkey1 : nth_error (keys (st_edits s1)) i = Some "overlayWith").
      { rewrite (frame_keys _ _ F1). exact Hkey. }
      destruct (placeAxis_frame _ _ _ _ _ _ _ _ Hkey1 (C1 o1 eq_refl)
                  (or_intror eq_refl) HT) as [F2 _].
      eapply frame_trans; eassumption.
    - apply (placeAxis_frame _ _ _ _ _ _ _ _ Hkey eq_refl (or_introl eq_refl) HL). }
  apply bind_inv in H. destruct H as [[options [s1 [H1 H]]]|[e [H1 _]]].
  - apply keeps_edits_image_call in H. rewrite H. exact (G _ _ H1).
  - exact (G _ _ H1).
Qed.

Section LoopFrame.

Variable c : Collaborators.
Variable templates : Templates.
Variable v : Variant.
Variable metadata : Metadata.

Lemma turn_frame (i : nat) (key : string) (s s' : state) (r : outcome unit) :
  nth_error (keys (st_edits s)) i = Some key ->
  turn c templates v metadata i key s = (r, s') ->
  frame (st_edits s) (st_edits s').
Proof.
  intros Hkey H. unfold turn in H. cbv [bind gets] in H. unfold applyEdit in H.
  destruct (String.eqb key "overlayWith") eqn:E1.
  - apply String.eqb_eq in E1. subst key.
    exact (overlayWith_frame _ _ _ _ _ _ Hkey H).
  - destruct (String.eqb key "smartCrop").
    + apply keeps_edits_smartCrop in H. rewrite H. apply frame_refl.
    + destruct (String.eqb key "TEPWatermark").
      * apply keeps_edits_TEPWatermark in H. rewrite H. apply frame_refl.
      * apply keeps_edits_image_call in H. rewrite H. apply frame_refl.
Qed.

(** The loop over keys [i], [i+1], ... of the edits. *)
Lemma applyEditsFrom_frame (ks : list string) :
  forall (i : nat) (s s' : state) (r : outcome unit),
    (forall (j : nat) (k : string),
        nth_error ks j = Some k -> nth_error (keys (st_edits s)) (i + j) = Some k) ->
    applyEditsFrom c templates v metadata i ks s = (r, s') ->
    frame (st_edits s) (st_edits s').
Proof.
  induction ks as [|key ks IH]; intros i s s' r Hk H.
  - injection H as _ <-. apply frame_refl.
  - rewrite applyEditsFrom_cons in H.
    destruct (turn c templates v metadata i key s) as [[[]|e] s1] eqn:T.
    + assert (F1 : frame (st_edits s) (st_edits s1)).
      { apply (turn_frame i key s s1 (Resolved tt)); [|exact T].
        rewrite <- (Nat.add_0_r i). apply Hk. reflexivity. }
      apply (frame_trans _ _ _ F1).
      apply (IH (S i) s1 s' r); [|exact H].
      intros j k Hj. rewrite (frame_keys _ _ F1).
      rewrite Nat.add_succ_l, <- Nat.add_succ_r. apply Hk. exact Hj.
    + injection H as _ <-.
      apply (turn_frame i key s s1 (Failed e)); [|exact T].
      rewrite <- (Nat.add_0_r i). apply Hk. reflexivity.
Qed.

End LoopFrame.

Lemma frame_nth_error (e e' : object) (n : nat) (k : string) (x : value) :
  frame e e' ->
  nth_error e n = Some (k, x) ->
  k <> "overlayWith" ->
  nth_error e' n = Some (k, x).
Proof.
  intro F. revert n. induction F as [|a b l l' [K [S _]] _ IH]; intros n N Hk.
  - destruct n; discriminate.
  - destruct n as [|n].
    + cbn in N. injection N as ->. cbn [fst snd] in K, S. cbn.
      destruct b as [k' x']. cbn [fst snd] in K, S. rewrite K, (S Hk). reflexivity.
    + cbn. apply IH; assumption.
Qed.

Lemma keys_app (a b : object) : keys (a ++ b)%list = (keys a ++ keys b)%list.
Proof. apply map_app. Qed.

(** C1, as amended.  For an edits object without a resize key, applyEdits
    behaves as if the directive resize: {fit: "inside"} had been appended
    to the object: it is the last key of the loop, and the default resize
    is invoked on the handle after every edit of the caller has been
    applied (and not at all when one of them fails). *)
Theorem default_resize_appended (c : Collaborators) (templates : Templates) (v : Variant)
    (originalImage : Buffer) (edits : object) :
  ~ In "resize" (keys edits) ->
  applyEdits c templates v originalImage edits
  = applyEdits c templates v originalImage (edits ++ [("resize", fit_inside)])%list
  /\ forall metadata : Metadata,
      applyEditsFrom c templates v metadata 0 (keys (defaultResize edits))
        (mkState (defaultResize edits) (opened originalImage))
      = match applyEditsFrom c templates v metadata 0 (keys edits)
                (mkState (defaultResize edits) (opened originalImage)) with
        | (Resolved _, s') => image_call c "resize" fit_inside s'
        | (Failed e, s') => (Failed e, s')
        end.
Proof.
  intro N.
  pose proof (defaultResize_absent edits N) as D. fold fit_inside in D.
  split.
  - unfold applyEdits. rewrite <- D, defaultResize_idempotent. reflexivity.
  - intro metadata. rewrite D, keys_app, applyEditsFrom_app.
    destruct (applyEditsFrom c templates v metadata 0 (keys edits)
                (mkState (edits ++ [("resize", fit_inside)])%list (opened originalImage)))
      as [[[]|e] s'] eqn:L; [|reflexivity].
    assert (F : frame (edits ++ [("resize", fit_inside)])%list (st_edits s')).
    { apply (applyEditsFrom_frame c templates v metadata (keys edits) 0
               (mkState (edits ++ [("resize", fit_inside)])%list (opened originalImage))
               s' (Resolved tt));
        [|exact L].
      intros j k Hj. cbn [st_edits Nat.add]. rewrite keys_app.
      rewrite nth_error_app1; [exact Hj|]. apply nth_error_Some. congruence. }
    assert (E : nth_error (st_edits s') (List.length (keys edits))
                = Some ("resize", fit_inside)).
    { apply (frame_nth_error _ _ _ _ _ F); [|discriminate].
      unfold keys. rewrite length_map, nth_error_app2 by apply Nat.le_refl.
      rewrite Nat.sub_diag. reflexivity. }
    cbn [keys map fst Nat.add]. rewrite applyEditsFrom_cons.
    unfold turn. cbv [bind gets].
    assert (V : nth (List.length (keys edits)) (values (st_edits s')) VUndefined
                = fit_inside).
    { unfold values. apply nth_error_nth. rewrite nth_error_map, E. reflexivity. }
    rewrite V. unfold applyEdit. cbn [String.eqb Ascii.eqb Bool.eqb].
    destruct (image_call c "resize" fit_inside s') as [[[]|e] s2]; reflexivity.
Qed.

Lemma default_resize_appended_witness :
  applyEdits Sim.collaborators Sim.templates Styled Sim.picture [("rotate", vnum 90)]
  = applyEdits Sim.collaborators Sim.templates Styled Sim.picture
      [("rotate", vnum 90); ("resize", fit_inside)].
Proof.
  apply (default_resize_appended Sim.collaborators Sim.templates Styled Sim.picture
           [("rotate", vnum 90)]).
  intros [H|[]]. discriminate.
Defined.

(** With a rotation as the only edit, the handle receives [rotate] and
    then [resize]; had the default been prepended, it would have received
    [resize] and then [rotate]. *)
Lemma default_resize_is_not_prepended :
  fst (applyEdits Sim.collaborators Sim.templates Styled Sim.picture
         [("rotate", vnum 90)])
  = Resolved (called (called (opened Sim.picture) "rotate" (vnum 90)) "resize" fit_inside)
  /\ fst (applyEdits Sim.collaborators Sim.templates Styled Sim.picture
            [("rotate", vnum 90)])
     <> fst (applyEdits Sim.collaborators Sim.templates Styled Sim.picture
               [("resize", fit_inside); ("rotate", vnum 90)]).
Proof.
  split; [reflexivity|].
  intro H. vm_compute in H. discriminate.
Qed.

(** C9, as amended.  applyEdits writes into the caller's edits object, in
    two ways only.  When [edits.resize] is undefined, the directive resize:
    {fit: "inside"} is set (as the last key when the object has no resize
    key).  In an overlayWith entry, the [left] and the [top] of the options
    may be replaced (by the resolved positions).  Apart from that, the
    object is as the caller passed it, whether the call completes or fails:
    the same keys in the same order, the same value under every key other
    than overlayWith, and under overlayWith the same properties other than
    options and the same options other than left and top. *)
Theorem applyEdits_writes (c : Collaborators) (templates : Templates) (v : Variant)
    (originalImage : Buffer) (edits : object) :
  frame (defaultResize edits) (snd (applyEdits c templates v originalImage edits))
  /\ (is_undefined (get edits "resize") = false -> defaultResize edits = edits)
  /\ (~ In "resize" (keys edits) ->
      defaultResize edits = (edits ++ [("resize", fit_inside)])%list).
Proof.
  split; [|split].
  - unfold applyEdits. fold (opened originalImage).
    cbv [bind await].
    destruct (sharp_metadata c (opened originalImage)) as [metadata|e];
      [|apply frame_refl].
    destruct (applyEditsFrom c templates v metadata 0 (keys (defaultResize edits))
                (mkState (defaultResize edits) (opened originalImage)))
      as [[[]|e] s'] eqn:L; cbn [snd gets st_edits];
      apply (applyEditsFrom_frame c templates v metadata _ 0 _ _ _ (fun j k H => H) L).
  - intro H. unfold defaultResize. rewrite H. reflexivity.
  - apply defaultResize_absent.
Qed.

Lemma applyEdits_writes_witness :
  defaultResize [("rotate", vnum 90)] = [("rotate", vnum 90); ("resize", fit_inside)].
Proof.
  apply (proj2 (proj2 (applyEdits_writes Sim.collaborators Sim.templates Styled
                         Sim.picture [("rotate", vnum 90)]))).
  intros [H|[]]. discriminate.
Defined.

Example applyEdits_overlay_edits :
  snd (applyEdits Sim.collaborators Sim.templates Styled Sim.picture overlay_edits)
  = [("overlayWith",
      VObj [("key", VStr "logo.png"); ("wRatio", vnum 50);
            ("options", VObj [("left", vnum 80)])]);
     ("resize", fit_inside)].
Proof. reflexivity. Qed.

(** The empty edits object comes back with a resize key, and the
    placement "-10p" of an overlay comes back as a number. *)
Lemma applyEdits_mutates_edits :
  snd (applyEdits Sim.collaborators Sim.templates Styled Sim.picture []) <> []
  /\ get (snd (applyEdits Sim.collaborators Sim.templates Styled Sim.picture []))
       "resize" = fit_inside
  /\ prop (prop (get (snd (applyEdits Sim.collaborators Sim.templates Styled
                             Sim.picture overlay_edits))
                   "overlayWith") "options") "left"
     <> prop (prop (get overlay_edits "overlayWith") "options") "left".
Proof. repeat split; discriminate. Qed.

(* ------------------------------------------------------------------ *)
(** ** process *)

(** C7, as amended.  Without edits, process returns the base64 encoding of
    the original bytes.  With the empty edits object it does not return
    the original bytes: the default resize is set, and process returns the
    base64 encoding of what the image library encodes (toBuffer) for the
    handle opened on the original image on which resize({fit: "inside"}),
    and toFormat when an output format is requested, have been invoked; it
    fails when one of these calls, or reading the metadata, fails. *)
Theorem process_without_edits (c : Collaborators) (templates : Templates) (v : Variant)
    (original : Buffer) (format : value) :
  process c templates v (mkImageRequest original None format)
  = (Resolved (base64 original), None)
  /\ process c templates v (mkImageRequest original (Some []) format)
     = ((_ <~ sharp_metadata c (opened original) ;;
         resized <~ call c (opened original) "resize" fit_inside ;;
         formatted <~
           (if negb (is_undefined format)
            then call c resized "toFormat" format
            else Resolved resized) ;;
         bufferImage <~ sharp_toBuffer c formatted ;;
         Resolved (base64 bufferImage)),
        Some [("resize", fit_inside)]).
Proof.
  split; [reflexivity|].
  unfold process, applyEdits. cbn [edits originalImage outputFormat].
  fold (opened original).
  cbn [defaultResize get is_undefined set keys map fst applyEditsFrom].
  unfold turn. cbv [bind await gets ret]. cbn [values map snd nth st_edits].
  unfold applyEdit. cbn [String.eqb Ascii.eqb Bool.eqb].
  cbv [image_call bind gets await modify]. cbn [st_image st_edits].
  fold fit_inside.
  destruct (sharp_metadata c (opened original)) as [metadata|e];
    cbn [and_then]; [|reflexivity].
  destruct (call c (opened original) "resize" fit_inside) as [resized|e];
    cbn [and_then]; reflexivity.
Qed.

(** The encoder of the instance does not reproduce the ancillary bytes of
    the picture: with the empty edits object, process returns the encoding
    of two bytes, not of the five of the original. *)
Lemma process_empty_edits_reencodes :
  fst (process Sim.collaborators Sim.templates Styled
         (mkImageRequest Sim.picture (Some []) VUndefined))
  = Resolved "yGQ="
  /\ fst (process Sim.collaborators Sim.templates Styled
            (mkImageRequest Sim.picture (Some []) VUndefined))
     <> Resolved (base64 Sim.picture).
Proof.
  split; [reflexivity|]. intro H. vm_compute in H. discriminate.
Qed.

(* ------------------------------------------------------------------ *)
(** ** The watermark *)

(** C8, as amended.  In the variant with styles, for a TEPWatermark edit
    that has options, and once the metadata [imageMetadata] has been read
    (from the resized copy when [edits.resize] is truthy, the metadata read
    at entry otherwise), the watermark is composited exactly when the width
    of [imageMetadata] is greater than 340, or greater than 150 with the
    style "cute"; otherwise the edit completes without an error and leaves
    the image and the edits as they were.  In image-handler.js, which has
    no styles, the watermark is composited whatever the width, once the
    overlay has been fetched. *)
Theorem watermark_composited (c : Collaborators) (templates : Templates)
    (metadata imageMetadata : Metadata) (x : value) (s : state) :
  destructurable x "options" = Resolved tt ->
  destructurable (prop x "options") "name" = Resolved tt ->
  pendingResizeMetadata c metadata s = (Resolved imageMetadata, s) ->
  TEPWatermark c templates Styled metadata x s
  = (if watermark_fits imageMetadata (prop x "options")
     then image_call c "composite"
            (watermark_layer (prop x "options") (styled_svg c templates (prop x "options"))) s
     else (Resolved tt, s))
  /\ forall overlay : Buffer,
      getOverlayImage c (prop x "bucket") (prop x "key") (prop x "wRatio")
        (prop x "hRatio") (prop x "alpha") imageMetadata = Resolved overlay ->
      TEPWatermark c templates Fetching metadata x s
      = image_call c "composite"
          (watermark_layer (prop x "options")
             (interpolate c (svg_gradient templates)
                (with_default (prop (prop x "options") "name")))) s.
Proof.
  intros Hx Ho Hm.
  assert (Hb : destructurable x "bucket" = Resolved tt).
  { destruct x; try reflexivity; discriminate. }
  split.
  - cbn [TEPWatermark]. unfold TEPWatermark_styled.
    unfold bind at 1. unfold await at 1. rewrite Hx.
    unfold bind at 1. unfold await at 1. rewrite Ho.
    unfold bind at 1. rewrite Hm.
    unfold watermark_fits, watermark_layer, styled_svg.
    destruct (is_string (with_default (prop (prop x "options") "style")) "cute");
      destruct ((340 <? width imageMetadata) || (150 <? width imageMetadata) && _);
      reflexivity.
  - intros overlay Hov.
    cbn [TEPWatermark]. unfold TEPWatermark_fetching.
    unfold bind at 1. rewrite Hm.
    unfold bind at 1. unfold await at 1. rewrite Hb.
    unfold bind at 1. unfold await at 1. rewrite Ho.
    unfold bind at 1. unfold await at 1. rewrite Hov.
    reflexivity.
Qed.

(** On the picture of width 200 with the default style, the variant with
    styles composites nothing. *)
Lemma watermark_composited_witness :
  TEPWatermark Sim.collaborators Sim.templates Styled (mkMetadata 200 100)
    watermark_options
    (mkState [("TEPWatermark", watermark_options); ("resize", fit_inside)]
       (opened Sim.picture))
  = (Resolved tt,
     mkState [("TEPWatermark", watermark_options); ("resize", fit_inside)]
       (opened Sim.picture)).
Proof.
  apply (proj1 (watermark_composited Sim.collaborators Sim.templates
                  (mkMetadata 200 100) (mkMetadata 200 100) watermark_options
                  (mkState [("TEPWatermark", watermark_options); ("resize", fit_inside)]
                     (opened Sim.picture))
                  eq_refl eq_refl eq_refl)).
Defined.

(** image-handler.js composites the watermark on a picture of width 100. *)
Lemma watermark_on_small_picture :
  fst (applyEdits Sim.collaborators Sim.templates Fetching small_picture
         [("TEPWatermark", watermark_options)])
  = Resolved
      (called
         (called (opened small_picture) "composite"
            (watermark_layer (VObj [("name", VStr "Bob")]) "<svg><tspan>Bob</tspan></svg>"))
         "resize" fit_inside)
  /\ watermark_fits (mkMetadata 100 50) (VObj [("name", VStr "Bob")]) = false.
Proof. split; reflexivity. Qed.

(** The examples of the specification, in the variant with styles: width
    100 with the default style, width 200 with the style "cute", width 200
    with the default style. *)
Example watermark_width_100_default :
  fst (applyEdits Sim.collaborators Sim.templates Styled small_picture
         [("TEPWatermark", watermark_options)])
  = Resolved (called (opened small_picture) "resize" fit_inside).
Proof. reflexivity. Qed.

Example watermark_width_200_cute :
  fst (applyEdits Sim.collaborators Sim.templates Styled Sim.picture
         [("TEPWatermark", cute_options)])
  = Resolved
      (called
         (called (opened Sim.picture) "composite"
            (watermark_layer (VObj [("name", VStr "Bob"); ("style", VStr "cute")])
               "<svg id=cute><text>Bob</text></svg>"))
         "resize" fit_inside).
Proof. reflexivity. Qed.

Example watermark_width_200_default :
  fst (applyEdits Sim.collaborators Sim.templates Styled Sim.picture
         [("TEPWatermark", watermark_options)])
  = Resolved (called (opened Sim.picture) "resize" fit_inside).
Proof. reflexivity. Qed.

Lemma pendingResizeMetadata_store (c : Collaborators)
    (store : value -> value -> outcome Buffer) (metadata : Metadata) (s : state) :
  pendingResizeMetadata (with_store c store) metadata s = pendingResizeMetadata c metadata s.
Proof. reflexivity. Qed.

(** C10.  In the TEPWatermark branch of image-handler.js the overlay that
    is fetched from the store is not used: with two stores for which
    getOverlayImage resolves (to whatever overlays), all else being equal,
    the branch has the same outcome and leaves the same state, that of the
    composite of the interpolated markup alone. *)
Theorem watermark_ignores_overlay (c : Collaborators) (templates : Templates)
    (store1 store2 : value -> value -> outcome Buffer)
    (metadata : Metadata) (x : value) (s : state) :
  (forall (imageMetadata : Metadata) (s' : state),
      pendingResizeMetadata c metadata s = (Resolved imageMetadata, s') ->
      exists overlay1 overlay2 : Buffer,
        getOverlayImage (with_store c store1) (prop x "bucket") (prop x "key")
          (prop x "wRatio") (prop x "hRatio") (prop x "alpha") imageMetadata
        = Resolved overlay1
        /\ getOverlayImage (with_store c store2) (prop x "bucket") (prop x "key")
             (prop x "wRatio") (prop x "hRatio") (prop x "alpha") imageMetadata
           = Resolved overlay2) ->
  TEPWatermark (with_store c store1) templates Fetching metadata x s
  = TEPWatermark (with_store c store2) templates Fetching metadata x s.
Proof.
  intro H. cbn [TEPWatermark]. unfold TEPWatermark_fetching.
  unfold bind at 1 5. rewrite !pendingResizeMetadata_store.
  destruct (pendingResizeMetadata c metadata s) as [[imageMetadata|e] s'] eqn:P;
    [|reflexivity].
  destruct (H imageMetadata s' eq_refl) as [overlay1 [overlay2 [H1 H2]]].
  unfold bind at 1 4. unfold await at 1 4.
  destruct (destructurable x "bucket"); [|reflexivity].
  unfold bind at 1 3. unfold await at 1 3.
  destruct (destructurable (prop x "options") "name"); [|reflexivity].
  unfold bind at 1 2. unfold await at 1 2.
  rewrite H1, H2. reflexivity.
Qed.

Lemma watermark_ignores_overlay_witness :
  TEPWatermark (with_store Sim.collaborators Sim.getObject) Sim.templates Fetching
    (mkMetadata 200 100) watermark_options watermark_state
  = TEPWatermark (with_store Sim.collaborators other_store) Sim.templates Fetching
      (mkMetadata 200 100) watermark_options watermark_state.
Proof.
  apply (watermark_ignores_overlay Sim.collaborators Sim.templates Sim.getObject
           other_store (mkMetadata 200 100) watermark_options watermark_state).
  intros imageMetadata s' H.
  vm_compute in H. injection H as <- <-.
  eexists. eexists. split; reflexivity.
Defined.

(* ------------------------------------------------------------------ *)
(** ** The metadata under a pending resize *)

(** The resize of the copy is called with the directive wrapped in an
    object of its own, [{ edits: { resize: edits.resize } }]: whatever the
    directive, the argument has no width, no height and no fit. *)
Lemma pendingResizeMetadata_argument (c : Collaborators) (metadata : Metadata)
    (s : state) (imageBuffer : Buffer) :
  truthy (get (st_edits s) "resize") = true ->
  sharp_toBuffer c (st_image s) = Resolved imageBuffer ->
  pendingResizeMetadata c metadata s
  = (copy <~ call c (sharp imageBuffer VUndefined) "resize"
               (VObj [("edits", VObj [("resize", get (st_edits s) "resize")])]) ;;
     sharp_metadata c copy,
     s)
  /\ forall k : string,
      k <> "edits" ->
      prop (VObj [("edits", VObj [("resize", get (st_edits s) "resize")])]) k = VUndefined.
Proof.
  intros T B. split.
  - unfold pendingResizeMetadata. cbv [bind gets await]. rewrite T, B.
    destruct (call c (sharp imageBuffer VUndefined) "resize" _); reflexivity.
  - intros k N. cbn [prop get].
    destruct (String.eqb "edits" k) eqn:E; [|reflexivity].
    apply String.eqb_eq in E. congruence.
Qed.

(** C6, on the edits [overlay_then_resize] (an overlay at 50% of the width,
    followed by a resize to a width of 100) and the picture of 200 by 100.
    The metadata that the overlayWith branch computes its placement from
    is that of the picture before the resize (200 by 100), and the overlay
    is placed at 100, which is 50% of 200; the image that the handle
    produces, once the resize is applied, is 100 by 50. *)
Theorem pending_resize_not_reflected :
  pendingResizeMetadata Sim.collaborators (mkMetadata 200 100)
    (mkState overlay_then_resize (opened Sim.picture))
  = (Resolved (mkMetadata 200 100), mkState overlay_then_resize (opened Sim.picture))
  /\ exists h : Sharp,
      fst (applyEdits Sim.collaborators Sim.templates Styled Sim.picture
             overlay_then_resize) = Resolved h
      /\ sharp_calls h
         = [("composite",
             VArr [VObj [("left", vnum 100);
                         ("input", VBuf (Sim.encode (mkMetadata 20 10)))]]);
            ("resize", VObj [("width", vnum 100)])]
      /\ Sim.dimensions h = mkMetadata 100 50
      /\ Sim.resized (mkMetadata 200 100) (VObj [("width", vnum 100)]) = mkMetadata 100 50.
Proof.
  split; [reflexivity|].
  eexists. split; [reflexivity|]. repeat split.
Qed.

(* ------------------------------------------------------------------ *)
(** ** Edits that are forwarded to the image library *)

Lemma has_branch_false (key : string) :
  has_branch key = false ->
  String.eqb key "overlayWith" = false
  /\ String.eqb key "smartCrop" = false
  /\ String.eqb key "TEPWatermark" = false.
Proof.
  unfold has_branch. intro H.
  apply orb_false_iff in H. destruct H as [H H3].
  apply orb_false_iff in H. destruct H as [H1 H2]. auto.
Qed.

Lemma nth_values_skipn (edits rest : object) (i : nat) (key : string) (x : value) :
  skipn i edits = (key, x) :: rest ->
  nth i (values edits) VUndefined = x /\ skipn (S i) edits = rest.
Proof.
  revert edits. induction i as [|i IH]; intros [|e edits] H; try discriminate.
  - cbn in H. injection H as -> ->. split; reflexivity.
  - cbn [skipn] in H. destruct (IH edits H) as [H1 H2]. split; assumption.
Qed.

(** The loop over keys without a branch, when the library accepts every
    call: each entry is appended to the log of the handle, in order. *)
Lemma applyEditsFrom_forwarded (c : Collaborators) (templates : Templates) (v : Variant)
    (metadata : Metadata) (entries : object) :
  forall (i : nat) (s : state) (rest : object),
    skipn i (st_edits s) = (entries ++ rest)%list ->
    (forall k, In k (keys entries) -> has_branch k = false) ->
    (forall h k x, In (k, x) entries -> sharp_invoke c h k x = None) ->
    applyEditsFrom c templates v metadata i (keys entries) s
    = (Resolved tt,
       mkState (st_edits s)
         (mkSharp (sharp_input (st_image s)) (sharp_options (st_image s))
            (sharp_calls (st_image s) ++ entries)%list)).
Proof.
  induction entries as [|[key x] entries IH]; intros i s rest Hs Hb Hi.
  - cbn [keys map applyEditsFrom ret]. rewrite app_nil_r. destruct s as [e [a b l]].
    reflexivity.
  - destruct (nth_values_skipn _ _ _ _ _ Hs) as [Hv Hrest].
    assert (Hk : has_branch key = false) by (apply Hb; left; reflexivity).
    destruct (has_branch_false _ Hk) as [K1 [K2 K3]].
    cbn [keys map fst]. rewrite applyEditsFrom_cons.
    assert (T : turn c templates v metadata i key s
                = (Resolved tt, mkState (st_edits s) (called (st_image s) key x))).
    { unfold turn. cbv [bind gets]. rewrite Hv. unfold applyEdit.
      rewrite K1, K2, K3. unfold image_call. cbv [bind gets await modify call].
      rewrite (Hi (st_image s) key x) by (left; reflexivity). reflexivity. }
    rewrite T.
    fold (keys entries).
    rewrite (IH (S i) (mkState (st_edits s) (called (st_image s) key x)) rest).
    + cbn [st_edits st_image called sharp_input sharp_options sharp_calls].
      rewrite <- app_assoc. reflexivity.
    + exact Hrest.
    + intros k Hin. apply Hb. right. exact Hin.
    + intros h k y Hin. apply Hi. right. exact Hin.
Qed.

(** X1.  Edits without a branch of their own are forwarded verbatim: when
    no key of the edits (default resize included) is overlayWith, smartCrop
    or TEPWatermark, and the image library accepts each call, applyEdits
    returns the handle opened on the original image on which each key has
    been invoked as a method with its value as argument, in the order of
    the keys, and leaves in the caller's object the edits with their
    default resize. *)
Theorem passthrough_edits_forwarded (c : Collaborators) (templates : Templates)
    (v : Variant) (original : Buffer) (edits : object) (metadata : Metadata) :
  sharp_metadata c (opened original) = Resolved metadata ->
  (forall k, In k (keys (defaultResize edits)) -> has_branch k = false) ->
  (forall h k x, In (k, x) (defaultResize edits) -> sharp_invoke c h k x = None) ->
  applyEdits c templates v original edits
  = (Resolved (mkSharp original (VObj [("failOnError", VBool false)]) (defaultResize edits)),
     defaultResize edits).
Proof.
  intros Hm Hb Hi. unfold applyEdits. fold (opened original).
  cbv [bind await]. rewrite Hm.
  rewrite (applyEditsFrom_forwarded c templates v metadata (defaultResize edits) 0
             (mkState (defaultResize edits) (opened original)) []
             (eq_sym (app_nil_r _)) Hb Hi).
  reflexivity.
Qed.

Lemma passthrough_edits_forwarded_witness :
  applyEdits Sim.collaborators Sim.templates Styled Sim.picture
    [("rotate", vnum 90); ("flip", VBool true)]
  = (Resolved
       (mkSharp Sim.picture (VObj [("failOnError", VBool false)])
          [("rotate", vnum 90); ("flip", VBool true); ("resize", fit_inside)]),
     [("rotate", vnum 90); ("flip", VBool true); ("resize", fit_inside)]).
Proof.
  apply (passthrough_edits_forwarded Sim.collaborators Sim.templates Styled Sim.picture
           [("rotate", vnum 90); ("flip", VBool true)] (mkMetadata 200 100)).
  - reflexivity.
  - intros k [<-|[<-|[<-|[]]]]; reflexivity.
  - intros h k x [E|[E|[E|[]]]]; injection E as <- <-; reflexivity.
Defined.

(** X2.  An edit that the image library rejects aborts the request with the
    library's own error: when the edits before it are forwarded and
    accepted, and the library throws [e] on the call for a key without a
    branch, applyEdits fails with [e], unchanged; the edits after it are not
    invoked, whatever they are. *)
Theorem rejected_edit_aborts (c : Collaborators) (templates : Templates) (v : Variant)
    (original : Buffer) (edits : object) (metadata : Metadata)
    (before after : object) (key : string) (x : value) (e : thrown) :
  sharp_metadata c (opened original) = Resolved metadata ->
  defaultResize edits = (before ++ (key, x) :: after)%list ->
  (forall k, In k (keys before) -> has_branch k = false) ->
  has_branch key = false ->
  (forall h k y, In (k, y) before -> sharp_invoke c h k y = None) ->
  sharp_invoke c (mkSharp original (VObj [("failOnError", VBool false)]) before) key x
  = Some e ->
  applyEdits c templates v original edits = (Failed e, defaultResize edits).
Proof.
  intros Hm Hd Hb Hk Hi He. unfold applyEdits. fold (opened original).
  cbv [bind await]. rewrite Hm.
  assert (Hkeys : keys (defaultResize edits) = (keys before ++ key :: keys after)%list).
  { rewrite Hd. unfold keys. rewrite map_app. reflexivity. }
  rewrite Hkeys, applyEditsFrom_app.
  rewrite (applyEditsFrom_forwarded c templates v metadata before 0
             (mkState (defaultResize edits) (opened original)) ((key, x) :: after)
             Hd Hb Hi).
  cbn [st_edits st_image opened sharp sharp_input sharp_options sharp_calls app Nat.add].
  rewrite applyEditsFrom_cons.
  destruct (has_branch_false _ Hk) as [K1 [K2 K3]].
  assert (Hs : skipn (List.length (keys before)) (defaultResize edits)
               = (key, x) :: after).
  { rewrite Hd. unfold keys. rewrite length_map.
    rewrite skipn_app, Nat.sub_diag, skipn_all. reflexivity. }
  destruct (nth_values_skipn _ _ _ _ _ Hs) as [Hv _].
  unfold turn. cbv [bind gets]. cbn [st_edits]. rewrite Hv. unfold applyEdit.
  rewrite K1, K2, K3. unfold image_call. cbv [bind gets await modify call].
  cbn [st_image]. rewrite He. reflexivity.
Qed.

Lemma rejected_edit_aborts_witness :
  applyEdits picky Sim.templates Styled Sim.picture
    [("rotate", vnum 90); ("frobnicate", VNull); ("flip", VBool true)]
  = (Failed not_a_function,
     [("rotate", vnum 90); ("frobnicate", VNull); ("flip", VBool true);
      ("resize", fit_inside)]).
Proof.
  apply (rejected_edit_aborts picky Sim.templates Styled Sim.picture
           [("rotate", vnum 90); ("frobnicate", VNull); ("flip", VBool true)]
           (mkMetadata 200 100) [("rotate", vnum 90)]
           [("flip", VBool true); ("resize", fit_inside)] "frobnicate" VNull
           not_a_function).
  - reflexivity.
  - reflexivity.
  - intros k [<-|[]]; reflexivity.
  - reflexivity.
  - intros h k y [E|[]]; injection E as <- <-; reflexivity.
  - reflexivity.
Defined.

(* ------------------------------------------------------------------ *)
(** ** The handle that applyEdits returns *)

Lemma extends_by_refl (n : nat) (h : Sharp) : extends_by n h h.
Proof.
  repeat split. exists []. rewrite app_nil_r. split; [reflexivity | apply Nat.le_0_l].
Qed.

Lemma extends_by_trans (n m : nat) (h1 h2 h3 : Sharp) :
  extends_by n h1 h2 -> extends_by m h2 h3 -> extends_by (n + m) h1 h3.
Proof.
  intros [I1 [O1 [l1 [C1 L1]]]] [I2 [O2 [l2 [C2 L2]]]].
  repeat split; try congruence.
  exists (l1 ++ l2)%list. split.
  - rewrite C2, C1, app_assoc. reflexivity.
  - rewrite length_app. apply Nat.add_le_mono; assumption.
Qed.

Lemma extends_by_called (h : Sharp) (name : string) (arg : value) :
  extends_by 1 h (called h name arg).
Proof.
  repeat split. exists [(name, arg)]. split; [reflexivity | apply Nat.le_refl].
Qed.

Lemma keeps_image_stateless {A : Type} (m : M A) : stateless m -> keeps_image m.
Proof. intros H s s' r E. rewrite (H _ _ _ E). reflexivity. Qed.

Lemma keeps_image_bind {A B : Type} (m : M A) (f : A -> M B) :
  keeps_image m -> (forall a, keeps_image (f a)) -> keeps_image (bind m f).
Proof.
  intros Hm Hf s s' r H.
  destruct (bind_inv _ _ _ _ _ H) as [[a [s1 [H1 H2]]]|[e [H1 _]]].
  - rewrite (Hf a _ _ _ H2). exact (Hm _ _ _ H1).
  - exact (Hm _ _ _ H1).
Qed.

Lemma keeps_image_placeAxis (i : nat) (options : value) (axis : string)
    (base overlay : Z) :
  keeps_image (placeAxis i options axis base overlay).
Proof.
  intros s s' r H.
  destruct (placeAxis_inv _ _ _ _ _ _ _ _ H) as [[-> _]|[fields [x [_ [_ ->]]]]];
    reflexivity.
Qed.

Lemma at_most_one_call_keeps {A : Type} (m : M A) : keeps_image m -> at_most_one_call m.
Proof. intros H s s' r E. rewrite (H _ _ _ E). apply extends_by_refl. Qed.

Lemma at_most_one_call_bind {A B : Type} (m : M A) (f : A -> M B) :
  keeps_image m -> (forall a, at_most_one_call (f a)) -> at_most_one_call (bind m f).
Proof.
  intros Hm Hf s s' r H.
  destruct (bind_inv _ _ _ _ _ H) as [[a [s1 [H1 H2]]]|[e [H1 _]]].
  - rewrite <- (Hm _ _ _ H1). exact (Hf a _ _ _ H2).
  - rewrite (Hm _ _ _ H1). apply extends_by_refl.
Qed.

Lemma at_most_one_call_image_call (c : Collaborators) (name : string) (arg : value) :
  at_most_one_call (image_call c name arg).
Proof.
  intros s s' r. unfold image_call. cbv [bind gets await modify call].
  destruct (sharp_invoke c (st_image s) name arg); intro H; injection H as _ <-.
  - apply extends_by_refl.
  - apply extends_by_called.
Qed.

Lemma at_most_one_call_try_catch {A : Type} (m : M A) (h : thrown -> M A) :
  at_most_one_call m -> (forall e, keeps_image (h e)) -> at_most_one_call (try_catch m h).
Proof.
  intros Hm Hh s s' r. unfold try_catch.
  destruct (m s) as [[a|e] s1] eqn:E; intro H.
  - injection H as _ <-. exact (Hm _ _ _ E).
  - rewrite (Hh e _ _ _ H). exact (Hm _ _ _ E).
Qed.

Create HintDb image.

#[local] Hint Resolve stateless_await stateless_gets stateless_ret stateless_throw
  stateless_pendingResizeMetadata keeps_image_stateless keeps_image_placeAxis : image.

Ltac one_call_steps :=
  repeat first
    [ apply at_most_one_call_image_call
    | apply at_most_one_call_keeps; solve [auto with image]
    | apply at_most_one_call_bind; [solve [auto with image]|intro]
    | apply at_most_one_call_try_catch; [|intro; solve [auto with image]] ].

Lemma at_most_one_call_applyEdit (c : Collaborators) (templates : Templates) (v : Variant)
    (metadata : Metadata) (i : nat) (key : string) (x : value) :
  at_most_one_call (applyEdit c templates v metadata i key x).
Proof.
  unfold applyEdit.
  destruct (String.eqb key "overlayWith");
    [|destruct (String.eqb key "smartCrop");
      [|destruct (String.eqb key "TEPWatermark")]].
  - unfold overlayWith. one_call_steps.
    apply at_most_one_call_bind; [|intro; one_call_steps].
    destruct (truthy (prop x "options")); [|auto with image].
    apply keeps_image_bind; [auto with image|intro; auto with image].
  - unfold smartCrop. one_call_steps.
  - destruct v; cbn [TEPWatermark].
    + unfold TEPWatermark_fetching. one_call_steps.
    + unfold TEPWatermark_styled. one_call_steps.
      match goal with |- context [if ?b then _ else _] => destruct b end;
        one_call_steps.
  - one_call_steps.
Qed.

Lemma applyEditsFrom_calls (c : Collaborators) (templates : Templates) (v : Variant)
    (metadata : Metadata) (ks : list string) :
  forall (i : nat) (s s' : state) (r : outcome unit),
    applyEditsFrom c templates v metadata i ks s = (r, s') ->
    extends_by (List.length ks) (st_image s) (st_image s').
Proof.
  induction ks as [|key ks IH]; intros i s s' r H.
  - injection H as _ <-. apply extends_by_refl.
  - rewrite applyEditsFrom_cons in H.
    assert (T : forall r1 s1, turn c templates v metadata i key s = (r1, s1) ->
                              extends_by 1 (st_image s) (st_image s1)).
    { intros r1 s1 E. unfold turn in E. cbv [bind gets] in E.
      exact (at_most_one_call_applyEdit _ _ _ _ _ _ _ _ _ _ E). }
    destruct (turn c templates v metadata i key s) as [[[]|e] s1] eqn:E.
    + change (List.length (key :: ks)) with (1 + List.length ks)%nat.
      exact (extends_by_trans _ _ _ _ _ (T _ _ eq_refl) (IH _ _ _ _ H)).
    + injection H as _ <-.
      destruct (T _ _ eq_refl) as [I [O [l [C L]]]].
      repeat split; try assumption. exists l. split; [exact C|].
      cbn [List.length]. apply (Nat.le_trans _ 1); [exact L | apply le_n_S, Nat.le_0_l].
Qed.

(** X3.  The handle that applyEdits returns is the one it opened on the
    original image, with decode errors tolerated ([failOnError: false]),
    and at most one method has been invoked on it per key of the edits
    (default resize included). *)
Theorem returned_handle (c : Collaborators) (templates : Templates) (v : Variant)
    (original : Buffer) (edits : object) (h : Sharp) :
  fst (applyEdits c templates v original edits) = Resolved h ->
  sharp_input h = original
  /\ sharp_options h = VObj [("failOnError", VBool false)]
  /\ (List.length (sharp_calls h) <= List.length (keys (defaultResize edits)))%nat.
Proof.
  unfold applyEdits. fold (opened original). cbv [bind await].
  destruct (sharp_metadata c (opened original)) as [metadata|e]; [|discriminate].
  destruct (applyEditsFrom c templates v metadata 0 (keys (defaultResize edits))
              (mkState (defaultResize edits) (opened original)))
    as [[[]|e] s'] eqn:L; cbn [fst gets]; [|discriminate].
  intro H. injection H as <-.
  destruct (applyEditsFrom_calls _ _ _ _ _ _ _ _ _ L) as [I [O [l [C Hl]]]].
  cbn [st_image opened sharp sharp_input sharp_options sharp_calls app] in I, O, C.
  rewrite C. auto.
Qed.

Lemma returned_handle_witness :
  sharp_input (called (called (opened Sim.picture) "rotate" (vnum 90)) "resize" fit_inside)
  = Sim.picture
  /\ sharp_options
       (called (called (opened Sim.picture) "rotate" (vnum 90)) "resize" fit_inside)
     = VObj [("failOnError", VBool false)]
  /\ (List.length
        (sharp_calls
           (called (called (opened Sim.picture) "rotate" (vnum 90)) "resize" fit_inside))
      <= List.length (keys (defaultResize [("rotate", vnum 90)])))%nat.
Proof.
  apply (returned_handle Sim.collaborators Sim.templates Styled Sim.picture
           [("rotate", vnum 90)]).
  reflexivity.
Defined.

(* ------------------------------------------------------------------ *)
(** ** When the caller's edits come back as they were *)

Lemma frame_without_overlay (e e' : object) :
  frame e e' -> ~ In "overlayWith" (keys e) -> e' = e.
Proof.
  induction 1 as [|a b l l' [K [S _]] _ IH]; intro N; [reflexivity|].
  destruct a as [k x], b as [k' x']. cbn [fst snd] in K, S.
  assert (Hk : k <> "overlayWith").
  { intro E. apply N. left. exact E. }
  rewrite K, (S Hk). f_equal. apply IH. intro I. apply N. right. exact I.
Qed.

(** X4.  An edits object that has a resize directive and no overlayWith
    key is not written to: after applyEdits, whether it has returned a
    handle or failed, the caller's object is as it was passed. *)
Theorem edits_untouched (c : Collaborators) (templates : Templates) (v : Variant)
    (original : Buffer) (edits : object) :
  is_undefined (get edits "resize") = false ->
  ~ In "overlayWith" (keys edits) ->
  snd (applyEdits c templates v original edits) = edits.
Proof.
  intros Hr Ho.
  assert (D : defaultResize edits = edits).
  { unfold defaultResize. rewrite Hr. reflexivity. }
  unfold applyEdits. fold (opened original). rewrite D.
  cbv [bind await].
  destruct (sharp_metadata c (opened original)) as [metadata|e]; [|reflexivity].
  destruct (applyEditsFrom c templates v metadata 0 (keys edits)
              (mkState edits (opened original))) as [[[]|e] s'] eqn:L;
    cbn [snd gets st_edits];
    apply frame_without_overlay; try exact Ho;
    apply (applyEditsFrom_frame c templates v metadata _ 0 _ _ _ (fun j k H => H) L).
Qed.

Lemma edits_untouched_witness :
  snd (applyEdits Sim.collaborators Sim.templates Styled Sim.picture
         [("resize", VObj [("width", vnum 100)]); ("smartCrop", VObj [])])
  = [("resize", VObj [("width", vnum 100)]); ("smartCrop", VObj [])].
Proof.
  apply (edits_untouched Sim.collaborators Sim.templates Styled Sim.picture
           [("resize", VObj [("width", vnum 100)]); ("smartCrop", VObj [])]).
  - reflexivity.
  - intros [H|[H|[]]]; discriminate.
Defined.

(* ------------------------------------------------------------------ *)
(** ** The overlayWith branch *)

(** The branch once the overlay has been fetched. *)
Lemma overlayWith_fetched (c : Collaborators) (metadata : Metadata) (i : nat) (x : value)
    (s : state) (imageMetadata overlayMetadata : Metadata) (overlay : Buffer) :
  pendingResizeMetadata c metadata s = (Resolved imageMetadata, s) ->
  destructurable x "bucket" = Resolved tt ->
  getOverlayImage c (prop x "bucket") (prop x "key") (prop x "wRatio") (prop x "hRatio")
    (prop x "alpha") imageMetadata = Resolved overlay ->
  sharp_metadata c (sharp overlay VUndefined) = Resolved overlayMetadata ->
  overlayWith c metadata i x s
  = place_and_composite c i (prop x "options") imageMetadata overlayMetadata overlay s.
Proof.
  intros Hp Hd Hg Hm. unfold overlayWith.
  unfold bind at 1. rewrite Hp.
  unfold bind at 1. unfold await at 1. rewrite Hd.
  unfold bind at 1. unfold await at 1. rewrite Hg.
  unfold bind at 1. unfold await at 1. rewrite Hm.
  reflexivity.
Qed.

Lemma placeAxis_not_a_string (i : nat) (options : value) (axis : string)
    (base overlay : Z) (s : state) :
  truthy (prop options axis) = true ->
  (forall p : string, prop options axis <> VStr p) ->
  placeAxis i options axis base overlay s = (Failed (endsWith_not_a_function axis), s).
Proof.
  intros T N. unfold placeAxis. rewrite T.
  destruct (prop options axis) eqn:P; try reflexivity.
  exfalso. exact (N _ eq_refl).
Qed.

Lemma placeAxis_falsy (i : nat) (options : value) (axis : string)
    (base overlay : Z) (s : state) :
  truthy (prop options axis) = false ->
  placeAxis i options axis base overlay s = (Resolved options, s).
Proof. intro T. unfold placeAxis. rewrite T. reflexivity. Qed.

Lemma truthy_prop_object (options : value) (axis : string) :
  truthy (prop options axis) = true -> truthy options = true.
Proof. destruct options; cbn; try discriminate; reflexivity. Qed.

(** X5.  A position has to be a string.  Once the overlay has been
    fetched, a [left] that is truthy and not a string (the number 30, say)
    makes the overlayWith branch fail with the TypeError of calling
    [endsWith] on it, and so does such a [top] when [left] is falsy; nothing
    is composited and nothing is written into the edits. *)
Theorem position_must_be_a_string (c : Collaborators) (metadata : Metadata) (i : nat)
    (x : value) (s : state) (imageMetadata overlayMetadata : Metadata)
    (overlay : Buffer) :
  pendingResizeMetadata c metadata s = (Resolved imageMetadata, s) ->
  destructurable x "bucket" = Resolved tt ->
  getOverlayImage c (prop x "bucket") (prop x "key") (prop x "wRatio") (prop x "hRatio")
    (prop x "alpha") imageMetadata = Resolved overlay ->
  sharp_metadata c (sharp overlay VUndefined) = Resolved overlayMetadata ->
  (truthy (prop (prop x "options") "left") = true ->
   (forall p : string, prop (prop x "options") "left" <> VStr p) ->
   overlayWith c metadata i x s = (Failed (endsWith_not_a_function "left"), s))
  /\ (truthy (prop (prop x "options") "left") = false ->
      truthy (prop (prop x "options") "top") = true ->
      (forall p : string, prop (prop x "options") "top" <> VStr p) ->
      overlayWith c metadata i x s = (Failed (endsWith_not_a_function "top"), s)).
Proof.
  intros Hp Hd Hg Hm.
  rewrite (overlayWith_fetched c metadata i x s _ _ _ Hp Hd Hg Hm).
  unfold place_and_composite. split.
  - intros T N. rewrite (truthy_prop_object _ _ T).
    unfold bind. rewrite (placeAxis_not_a_string _ _ _ _ _ _ T N). reflexivity.
  - intros F T N. rewrite (truthy_prop_object _ _ T).
    unfold bind. rewrite (placeAxis_falsy _ _ _ _ _ _ F).
    rewrite (placeAxis_not_a_string _ _ _ _ _ _ T N). reflexivity.
Qed.

Lemma position_must_be_a_string_witness :
  overlayWith Sim.collaborators (mkMetadata 200 100) 0 numeric_left numeric_left_state
  = (Failed (endsWith_not_a_function "left"), numeric_left_state).
Proof.
  apply (proj1 (position_must_be_a_string Sim.collaborators (mkMetadata 200 100) 0
                  numeric_left numeric_left_state (mkMetadata 200 100)
                  (mkMetadata 20 10) (Sim.encode (mkMetadata 20 10))
                  eq_refl eq_refl eq_refl eq_refl)).
  - reflexivity.
  - intros p H. discriminate.
Defined.

(** X6.  A position that parseInt cannot read is not an error: for a
    non-empty string from which no integer is parsed ("abc", or "p" alone),
    the branch stores NaN under the axis, in the options that it composites
    and in the caller's edits. *)
Theorem unreadable_position_is_NaN (i : nat) (fields : object) (axis position : string)
    (base overlay : Z) (s : state) :
  get fields axis = VStr position ->
  position <> "" ->
  parseInt (position_digits position) = NaN ->
  placeAxis i (VObj fields) axis base overlay s
  = (Resolved (VObj (set fields axis (VNum NaN))),
     mkState (store_options i (VObj (set fields axis (VNum NaN))) (st_edits s))
       (st_image s)).
Proof.
  intros Hg Hn Hp. unfold placeAxis. cbn [prop]. rewrite Hg, (truthy_string _ Hn).
  assert (R : resolvePosition position base overlay = NaN).
  { unfold resolvePosition. unfold position_digits in Hp.
    destruct (endsWith position "p"); rewrite Hp; reflexivity. }
  rewrite R. reflexivity.
Qed.

Lemma unreadable_position_is_NaN_witness :
  placeAxis 0 (VObj [("left", VStr "p")]) "left" 200 20 initial_state
  = (Resolved (VObj [("left", VNum NaN)]), initial_state).
Proof.
  apply (unreadable_position_is_NaN 0 [("left", VStr "p")] "left" "p" 200 20 initial_state).
  - reflexivity.
  - discriminate.
  - reflexivity.
Defined.

Section CalledTwice.

Variable c : Collaborators.
Variable templates : Templates.
Variable v : Variant.
Variable original : Buffer.
Variables metadata imageMetadata overlayMetadata : Metadata.
Variables imageBuffer overlay : Buffer.
Variables fields options : object.
Variable position : string.

Hypothesis entry_metadata : sharp_metadata c (opened original) = Resolved metadata.
Hypothesis entry_buffer : sharp_toBuffer c (opened original) = Resolved imageBuffer.
Hypothesis copy_resized :
  sharp_invoke c (sharp imageBuffer VUndefined) "resize" wrapped_fit_inside = None.
Hypothesis copy_metadata :
  sharp_metadata c (called (sharp imageBuffer VUndefined) "resize" wrapped_fit_inside)
  = Resolved imageMetadata.
Hypothesis fetched :
  getOverlayImage c (get fields "bucket") (get fields "key") (get fields "wRatio")
    (get fields "hRatio") (get fields "alpha") imageMetadata = Resolved overlay.
Hypothesis fetched_metadata :
  sharp_metadata c (sharp overlay VUndefined) = Resolved overlayMetadata.
Hypothesis has_options : get fields "options" = VObj options.
Hypothesis has_left : get options "left" = VStr position.
Hypothesis left_not_empty : position <> "".

Let resolved : number :=
  parseInt_number (resolvePosition position (width imageMetadata) (width overlayMetadata)).

Lemma pending_default_resize (edits : object) :
  get edits "resize" = fit_inside ->
  pendingResizeMetadata c metadata (mkState edits (opened original))
  = (Resolved imageMetadata, mkState edits (opened original)).
Proof.
  intro R. unfold pendingResizeMetadata. cbv [bind gets await]. cbn [st_edits st_image].
  rewrite R. change (truthy fit_inside) with true. cbv beta iota.
  cbn [st_image]. rewrite entry_buffer.
  unfold call. fold wrapped_fit_inside.
  rewrite copy_resized. fold (called (sharp imageBuffer VUndefined) "resize" wrapped_fit_inside).
  rewrite copy_metadata. reflexivity.
Qed.

(** The first call leaves the position in the caller's edits. *)
Lemma first_call_places :
  placed_overlay fields resolved
    (snd (applyEdits c templates v original [("overlayWith", VObj fields)])).
Proof.
  unfold applyEdits. fold (opened original).
  cbn [defaultResize get String.eqb Ascii.eqb Bool.eqb is_undefined set].
  fold fit_inside.
  cbv [bind await]. rewrite entry_metadata.
  cbn [keys map fst].
  rewrite applyEditsFrom_cons.
  assert (T : forall r s',
             turn c templates v metadata 0 "overlayWith"
               (mkState [("overlayWith", VObj fields); ("resize", fit_inside)]
                  (opened original)) = (r, s') ->
             placed_overlay fields resolved (st_edits s')).
  { intros r s' H. unfold turn in H. cbv [bind gets] in H.
    cbn [st_edits values map snd nth] in H. unfold applyEdit in H.
    cbn [String.eqb Ascii.eqb Bool.eqb] in H.
    rewrite (overlayWith_fetched c metadata 0 (VObj fields) _ imageMetadata
               overlayMetadata overlay
               (pending_default_resize
                  [("overlayWith", VObj fields); ("resize", fit_inside)] eq_refl)
               eq_refl fetched fetched_metadata) in H.
    unfold place_and_composite in H. cbn [prop] in H. rewrite has_options in H.
    cbn [truthy] in H.
    apply bind_inv in H.
    assert (G : forall r2 s2,
               bind (placeAxis 0 (VObj options) "left" (width imageMetadata)
                       (width overlayMetadata))
                 (fun o => placeAxis 0 o "top" (height imageMetadata)
                             (height overlayMetadata))
                 (mkState [("overlayWith", VObj fields); ("resize", fit_inside)]
                    (opened original)) = (r2, s2) ->
               placed_overlay fields resolved (st_edits s2)).
    { intros r2 s2 H2. unfold bind in H2. unfold placeAxis at 1 in H2.
      cbn [prop] in H2. rewrite has_left, (truthy_string _ left_not_empty) in H2.
      cbv [bind modify ret] in H2. cbn [st_edits st_image] in H2.
      fold resolved in H2.
      unfold store_options at 1 in H2. cbn [nth_error firstn skipn app] in H2.
      destruct (placeAxis_inv _ _ _ _ _ _ _ _ H2)
        as [[-> _]|[f [y [Ho [_ ->]]]]]; cbn [st_edits].
      - eexists _, _. split; [reflexivity|]. split; [|split].
        + intros k Hk. apply get_set_other. exact Hk.
        + apply get_set_same.
        + apply get_set_same.
      - injection Ho as <-.
        unfold store_options. cbn [nth_error firstn skipn app].
        eexists _, _. split; [reflexivity|]. split; [|split].
        + intros k Hk. rewrite !get_set_other by exact Hk. reflexivity.
        + apply get_set_same.
        + rewrite get_set_other by discriminate. apply get_set_same. }
    destruct H as [[o [s1 [H1 H2]]]|[e [H1 _]]].
    - apply keeps_edits_image_call in H2. rewrite H2. exact (G _ _ H1).
    - exact (G _ _ H1). }
  destruct (turn c templates v metadata 0 "overlayWith"
              (mkState [("overlayWith", VObj fields); ("resize", fit_inside)]
                 (opened original))) as [[[]|e] s1] eqn:E.
  - pose proof (T _ _ eq_refl) as P.
    rewrite applyEditsFrom_cons.
    destruct (turn c templates v metadata 1 "resize" s1) as [[[]|e] s2] eqn:E2;
      cbn [applyEditsFrom ret gets snd st_edits];
      unfold turn in E2; cbv [bind gets] in E2; unfold applyEdit in E2;
      cbn [String.eqb Ascii.eqb Bool.eqb] in E2;
      apply keeps_edits_image_call in E2; rewrite E2; exact P.
  - cbn [snd]. exact (T _ _ eq_refl).
Qed.

(** A call on edits in which the position is a number that is neither 0
    nor NaN. *)
Lemma second_call_fails (edits : object) :
  placed_overlay fields resolved edits ->
  truthy (VNum resolved) = true ->
  fst (applyEdits c templates v original edits) = Failed (endsWith_not_a_function "left").
Proof.
  intros [fields' [options' [-> [Hsame [Hopt Hleft]]]]] Ht.
  unfold applyEdits. fold (opened original).
  cbn [defaultResize get String.eqb Ascii.eqb Bool.eqb is_undefined fit_inside].
  fold fit_inside.
  cbv [bind await]. rewrite entry_metadata.
  cbn [keys map fst].
  rewrite applyEditsFrom_cons.
  unfold turn. cbv [bind gets]. cbn [st_edits values map snd nth]. unfold applyEdit.
  cbn [String.eqb Ascii.eqb Bool.eqb].
  assert (F : getOverlayImage c (prop (VObj fields') "bucket") (prop (VObj fields') "key")
                (prop (VObj fields') "wRatio") (prop (VObj fields') "hRatio")
                (prop (VObj fields') "alpha") imageMetadata = Resolved overlay).
  { cbn [prop]. rewrite !Hsame by discriminate. exact fetched. }
  rewrite (overlayWith_fetched c metadata 0 (VObj fields') _ imageMetadata
             overlayMetadata overlay
             (pending_default_resize
                [("overlayWith", VObj fields'); ("resize", fit_inside)] eq_refl)
             eq_refl F fetched_metadata).
  unfold place_and_composite. cbn [prop]. rewrite Hopt. cbn [truthy].
  unfold bind.
  rewrite placeAxis_not_a_string.
  - reflexivity.
  - cbn [prop]. rewrite Hleft. exact Ht.
  - intros p. cbn [prop]. rewrite Hleft. discriminate.
Qed.

End CalledTwice.



Lemma bind_resolved_inv {A B : Type} (m : M A) (f : A -> M B) (s s' : state) (b : B) :
  bind m f s = (Resolved b, s') ->
  exists (a : A) (s1 : state), m s = (Resolved a, s1) /\ f a s1 = (Resolved b, s').
Proof.
  intro H. destruct (bind_inv _ _ _ _ _ H) as [G|[e [_ G]]]; [exact G | discriminate].
Qed.

Lemma falsy_string (p : string) : truthy (VStr p) = false -> p = "".
Proof.
  cbn. intro H. apply negb_false_iff in H. apply String.eqb_eq in H. exact H.
Qed.

(** What [placeAxis] returns: options in which the axis holds no
    non-empty string, and every other property is as before. *)
Lemma placeAxis_resolved (i : nat) (fields : object) (axis : string) (base overlay : Z)
    (s s' : state) (o : value) :
  placeAxis i (VObj fields) axis base overlay s = (Resolved o, s') ->
  exists fields' : object,
    o = VObj fields'
    /\ (forall p : string, get fields' axis = VStr p -> p = "")
    /\ (forall k : string, k <> axis -> get fields' k = get fields k).
Proof.
  unfold placeAxis. cbn [prop].
  destruct (truthy (get fields axis)) eqn:T.
  - destruct (get fields axis) eqn:G; try discriminate.
    cbv [bind modify ret]. intro H. injection H as <- _.
    eexists. split; [reflexivity|]. split.
    + intros p. rewrite get_set_same. discriminate.
    + intros k Hk. apply get_set_other. exact Hk.
  - intro H. injection H as <- _.
    exists fields. split; [reflexivity|]. split; [|reflexivity].
    intros p G. rewrite G in T. apply falsy_string. exact T.
Qed.

(** X8.  What the overlayWith branch composites.  When the branch
    completes, exactly one call has been added to the handle: a composite
    of one layer whose [input] is the overlay that getOverlayImage resolved
    to, whatever [input] the caller's options hold; and in that layer
    neither [left] nor [top] is a non-empty string any more. *)
Theorem composited_overlay (c : Collaborators) (metadata : Metadata) (i : nat)
    (x : value) (s s' : state) :
  overlayWith c metadata i x s = (Resolved tt, s') ->
  exists (imageMetadata : Metadata) (overlay : Buffer) (layer : object),
    pendingResizeMetadata c metadata s = (Resolved imageMetadata, s)
    /\ getOverlayImage c (prop x "bucket") (prop x "key") (prop x "wRatio")
         (prop x "hRatio") (prop x "alpha") imageMetadata = Resolved overlay
    /\ st_image s' = called (st_image s) "composite" (VArr [VObj layer])
    /\ get layer "input" = VBuf overlay
    /\ forall (options : object) (p : string),
        prop x "options" = VObj options ->
        (get layer "left" = VStr p -> p = "") /\ (get layer "top" = VStr p -> p = "").
Proof.
  intro H. unfold overlayWith in H.
  apply bind_resolved_inv in H. destruct H as [imageMetadata [s1 [Hp H]]].
  pose proof (stateless_pendingResizeMetadata _ _ _ _ _ Hp) as ->.
  apply bind_resolved_inv in H. destruct H as [[] [s1 [Hd H]]].
  pose proof (stateless_await _ _ _ _ Hd) as ->.
  apply bind_resolved_inv in H. destruct H as [overlay [s1 [Hg H]]].
  pose proof (stateless_await _ _ _ _ Hg) as ->.
  apply bind_resolved_inv in H. destruct H as [overlayMetadata [s1 [Hm H]]].
  pose proof (stateless_await _ _ _ _ Hm) as ->.
  apply bind_resolved_inv in H. destruct H as [o [s1 [Hb H]]].
  exists imageMetadata, overlay, (set (spread o) "input" (VBuf overlay)).
  unfold await in Hg. injection Hg as Hg.
  assert (Himg : st_image s1 = st_image s).
  { revert Hb. destruct (truthy (prop x "options")).
    - apply keeps_image_bind; [apply keeps_image_placeAxis|].
      intro. apply keeps_image_placeAxis.
    - intro E. injection E as _ <-. reflexivity. }
  split; [exact Hp|]. split; [exact Hg|]. split; [|split].
  - unfold image_call in H. cbv [bind gets await modify call] in H.
    destruct (sharp_invoke c (st_image s1) "composite" _); [discriminate|].
    injection H as <-. cbn [st_image]. rewrite Himg. reflexivity.
  - apply get_set_same.
  - intros options p Ho. rewrite Ho in Hb. cbn [truthy] in Hb.
    apply bind_resolved_inv in Hb. destruct Hb as [o1 [s2 [HL HT]]].
    destruct (placeAxis_resolved _ _ _ _ _ _ _ _ HL) as [f1 [-> [L1 K1]]].
    destruct (placeAxis_resolved _ _ _ _ _ _ _ _ HT) as [f2 [-> [L2 K2]]].
    cbn [spread]. rewrite !get_set_other by discriminate. split.
    + rewrite K2 by discriminate. apply L1.
    + apply L2.
Qed.

Lemma composited_overlay_witness :
  exists (imageMetadata : Metadata) (overlay : Buffer) (layer : object),
    pendingResizeMetadata Sim.collaborators (mkMetadata 200 100)
      (mkState (overlay_edits ++ [("resize", fit_inside)]) (opened Sim.picture))
    = (Resolved imageMetadata,
       mkState (overlay_edits ++ [("resize", fit_inside)]) (opened Sim.picture))
    /\ getOverlayImage Sim.collaborators VUndefined (VStr "logo.png") (vnum 50)
         VUndefined VUndefined imageMetadata = Resolved overlay
    /\ get layer "input" = VBuf overlay.
Proof.
  destruct (composited_overlay Sim.collaborators (mkMetadata 200 100) 0
              (get overlay_edits "overlayWith")
              (mkState (overlay_edits ++ [("resize", fit_inside)]) (opened Sim.picture))
              _ eq_refl)
    as [imageMetadata [overlay [layer [H1 [H2 [_ [H4 _]]]]]]].
  exists imageMetadata, overlay, layer. auto.
Defined.

(* ------------------------------------------------------------------ *)
(** ** Percent positions stay inside the base image *)

Lemma percent_position_value (position : string) (n base overlay k : Z) :
  endsWith position "p" = true ->
  parseInt (replace_first position "p") = of_Z n ->
  (placement_formula true n base overlay == k # 100)%Q ->
  Z.abs k < 100 * ten_pow_21 ->
  parseInt_number (resolvePosition position base overlay) = of_Z (Z.quot k 100).
Proof.
  intros He Hp Hk Hb.
  assert (Hd : parseInt (position_digits position) = of_Z n).
  { unfold position_digits. rewrite He. exact Hp. }
  destruct (resolvePosition_formula position n base overlay Hd) as [q [R E]].
  rewrite He in E. rewrite R.
  assert (E' : (q == k # 100)%Q) by (rewrite E; exact Hk).
  rewrite (parseInt_number_decimal _ _ E' (decimal_hundredths k Hb)).
  rewrite trunc_hundredths. reflexivity.
Qed.



(* ------------------------------------------------------------------ *)
(** ** Ratios and opacity of an overlay *)

(** The strings that are the decimal notation of an integer from 0 to
    100. *)
Lemma in_range_digit (lo hi c : ascii) :
  in_range lo hi c = true ->
  In (nat_of_ascii c) (seq (nat_of_ascii lo) (S (nat_of_ascii hi) - nat_of_ascii lo)).
Proof.
  unfold in_range. intro H. apply andb_prop in H. destruct H as [H1 H2].
  apply Nat.leb_le in H1. apply Nat.leb_le in H2.
  apply in_seq. lia.
Qed.

Lemma one_digit_listed :
  forallb (fun k : nat => percent_notation (String (ascii_of_nat k) ""))
    (seq 48 10) = true.
Proof. vm_compute. reflexivity. Qed.

Lemma two_digits_listed :
  forallb
    (fun j : nat =>
       forallb
         (fun k : nat =>
            percent_notation (String (ascii_of_nat j) (String (ascii_of_nat k) "")))
         (seq 48 10))
    (seq 49 9) = true.
Proof. vm_compute. reflexivity. Qed.

Lemma all_percents_accepted :
  forallb
    (fun k : nat =>
       match zeroToHundred (VStr (decimal_string (Z.of_nat k))) with
       | Some m => m =? Z.of_nat k
       | None => false
       end)
    (seq 0 101) = true.
Proof. vm_compute. reflexivity. Qed.

Lemma percent_accepted (n : Z) :
  0 <= n <= 100 -> zeroToHundred (VStr (decimal_string n)) = Some n.
Proof.
  intro B.
  pose proof all_percents_accepted as A.
  rewrite forallb_forall in A.
  specialize (A (Z.to_nat n)).
  rewrite Z2Nat.id in A by lia.
  assert (I : In (Z.to_nat n) (seq 0 101)) by (apply in_seq; lia).
  specialize (A I).
  destruct (zeroToHundred (VStr (decimal_string n))) as [m|]; [|discriminate].
  apply Z.eqb_eq in A. congruence.
Qed.

(** What the regular expression accepts is such a notation. *)
Lemma test_percent_notation (s : string) :
  zeroToHundred_test s = true -> percent_notation s = true.
Proof.
  unfold zeroToHundred_test. intro H. apply orb_prop in H. destruct H as [H|H].
  - apply String.eqb_eq in H. subst s. vm_compute. reflexivity.
  - destruct s as [|a [|b [|x r]]]; try discriminate.
    + apply in_range_digit in H.
      rewrite <- (ascii_nat_embedding a).
      pose proof one_digit_listed as L. rewrite forallb_forall in L.
      exact (L _ H).
    + apply andb_prop in H. destruct H as [Ha Hb].
      apply in_range_digit in Ha. apply in_range_digit in Hb.
      rewrite <- (ascii_nat_embedding a), <- (ascii_nat_embedding b).
      pose proof two_digits_listed as L. rewrite forallb_forall in L.
      specialize (L _ Ha). rewrite forallb_forall in L.
      exact (L _ Hb).
Qed.

Lemma percent_notation_inv (s : string) :
  percent_notation s = true -> exists n : Z, 0 <= n <= 100 /\ s = decimal_string n.
Proof.
  unfold percent_notation. intro H.
  apply existsb_exists in H. destruct H as [t [I E]].
  apply String.eqb_eq in E. subst t.
  apply in_map_iff in I. destruct I as [k [E I]].
  apply in_seq in I. exists (Z.of_nat k). split; [lia | congruence].
Qed.

Lemma canonical_percent (s : string) (n : Z) :
  zeroToHundred (VStr s) = Some n -> 0 <= n <= 100 /\ s = decimal_string n.
Proof.
  intro H.
  assert (T : zeroToHundred_test s = true).
  { cbn [zeroToHundred] in H. destruct (zeroToHundred_test s); [reflexivity | discriminate]. }
  destruct (percent_notation_inv s (test_percent_notation s T)) as [k [B E]].
  subst s. rewrite (percent_accepted k B) in H. injection H as <-.
  split; [exact B | reflexivity].
Qed.

Lemma zeroToHundred_range :
  forall (x : value) (r : Z), zeroToHundred x = Some r -> 0 <= r <= 100.
Proof.
  fix IH 1. intros x r. destruct x as [| | |n|s|b|items|fields]; cbn [zeroToHundred];
    try discriminate.
  - destruct n as [|q]; [discriminate|].
    destruct (Qeq_bool (inject_Z (trunc q)) q && (0 <=? trunc q) && (trunc q <=? 100)) eqn:E;
      [|discriminate].
    intro H. injection H as <-.
    apply andb_prop in E. destruct E as [E E3].
    apply andb_prop in E. destruct E as [_ E2].
    apply Z.leb_le in E2. apply Z.leb_le in E3. lia.
  - intro H. exact (proj1 (canonical_percent s r H)).
  - intro H. exact (proj1 (canonical_percent (string_of_list_byte b) r H)).
  - destruct items as [|y [|z items]]; try discriminate. apply IH.
Qed.

(** X10.  The regular expression [/^(100|[1-9]?[0-9])$/] that guards
    wRatio, hRatio and alpha accepts a string exactly when it is the
    decimal notation of an integer from 0 to 100 (no sign, no blank, no
    leading zero, no fraction), and the number that the string then
    denotes is that integer; a number passes the test exactly when it is
    such an integer. *)
Theorem ratio_test_accepts (s : string) (n : Z) :
  (zeroToHundred_test s = true <-> exists k : Z, 0 <= k <= 100 /\ s = decimal_string k)
  /\ (zeroToHundred (VStr s) = Some n <-> 0 <= n <= 100 /\ s = decimal_string n)
  /\ (zeroToHundred (vnum n) = Some n <-> 0 <= n <= 100)
  /\ (forall m : Z, zeroToHundred (vnum n) = Some m -> m = n).
Proof.
  split; [|split; [|split]].
  - split.
    + intro T. exact (percent_notation_inv s (test_percent_notation s T)).
    + intros [k [B ->]].
      pose proof (percent_accepted k B) as A. cbn [zeroToHundred] in A.
      destruct (zeroToHundred_test (decimal_string k)); [reflexivity | discriminate].
  - split.
    + apply canonical_percent.
    + intros [B ->]. exact (percent_accepted n B).
  - unfold vnum, of_Z. cbn [zeroToHundred]. rewrite trunc_inject_Z.
    assert (Q : Qeq_bool (inject_Z n) (inject_Z n) = true)
      by (apply Qeq_bool_iff; reflexivity).
    rewrite Q. cbn [andb]. split.
    + destruct ((0 <=? n) && (n <=? 100)) eqn:E; [|discriminate].
      intros _. apply andb_prop in E. destruct E as [E1 E2].
      apply Z.leb_le in E1. apply Z.leb_le in E2. lia.
    + intros [B1 B2]. apply Z.leb_le in B1. apply Z.leb_le in B2.
      rewrite B1, B2. reflexivity.
  - intros m. unfold vnum, of_Z. cbn [zeroToHundred]. rewrite trunc_inject_Z.
    destruct (Qeq_bool (inject_Z n) (inject_Z n) && (0 <=? n) && (n <=? 100));
      [|discriminate].
    intro H. injection H as <-. reflexivity.
Qed.

(** getOverlayImage when it resolves: the overlay has been fetched, resized
    and composited with the opacity tile, and encoded. *)
Lemma getOverlayImage_resolved (c : Collaborators) (bucket key wRatio hRatio alpha : value)
    (m : Metadata) (buffer : Buffer) :
  getOverlayImage c bucket key wRatio hRatio alpha m = Resolved buffer ->
  exists body : Buffer,
    s3_getObject c bucket key = Resolved body
    /\ sharp_toBuffer c
         (called
            (called (sharp body VUndefined) "resize"
               (VObj
                  (let resize : object := [("fit", VStr "inside")] in
                   let resize :=
                     match zeroToHundred wRatio with
                     | Some r =>
                         set resize "width"
                           (VNum (parseInt_number
                                    (div (mul (of_Z (width m)) (of_Z r)) (of_Z 100))))
                     | None => resize
                     end in
                   match zeroToHundred hRatio with
                   | Some r =>
                       set resize "height"
                         (VNum (parseInt_number
                                  (div (mul (of_Z (height m)) (of_Z r)) (of_Z 100))))
                   | None => resize
                   end)))
            "composite"
            (VArr
               [VObj
                  [("input",
                    VBuf
                      [Byte.xff; Byte.xff; Byte.xff;
                       byte_of_number
                         (fmul (of_Z 255)
                            (fsub (of_Z 1)
                               (fdiv
                                  match zeroToHundred alpha with
                                  | Some a => of_Z a
                                  | None => of_Z 0
                                  end (of_Z 100))))]);
                   ("raw",
                    VObj [("width", vnum 1); ("height", vnum 1); ("channels", vnum 4)]);
                   ("tile", VBool true);
                   ("blend", VStr "dest-in")]]))
       = Resolved buffer.
Proof.
  unfold getOverlayImage.
  destruct (s3_getObject c bucket key) as [body|e]; cbn [and_then]; [|discriminate].
  unfold call.
  match goal with
  | |- context [sharp_invoke c (sharp body VUndefined) "resize" ?a] =>
      destruct (sharp_invoke c (sharp body VUndefined) "resize" a)
  end; cbn [and_then]; [discriminate|].
  match goal with
  | |- context [sharp_invoke c ?h "composite" ?a] =>
      destruct (sharp_invoke c h "composite" a)
  end; cbn [and_then]; [discriminate|].
  match goal with
  | |- context [sharp_toBuffer c ?h] => destruct (sharp_toBuffer c h) eqn:T
  end; [|discriminate].
  intro H. injection H as <-.
  exists body. split; [reflexivity|]. exact T.
Qed.

(** [parseInt(extent * ratio / 100)] for an extent below 10^21 and a ratio
    from 0 to 100. *)
Lemma scaled_extent (extent r : Z) :
  0 <= extent < ten_pow_21 -> 0 <= r <= 100 ->
  parseInt_number (div (mul (of_Z extent) (of_Z r)) (of_Z 100))
  = of_Z (extent * r / 100).
Proof.
  intros He Hr. unfold ten_pow_21 in He.
  unfold of_Z, mul, div.
  assert (E : (Qred (Qred (inject_Z extent * inject_Z r) / inject_Z 100)
               == (extent * r) # 100)%Q).
  { rewrite !Qred_correct. rational_identity. }
  assert (B : Z.abs (extent * r) < 100 * ten_pow_21)
    by (unfold ten_pow_21; nia).
  change (Qeq_bool (inject_Z 100) 0) with false. cbv iota.
  rewrite (parseInt_number_decimal _ _ E (decimal_hundredths _ B)).
  rewrite trunc_hundredths, Z.quot_div_nonneg by nia.
  reflexivity.
Qed.



Lemma all_alphas :
  forallb
    (fun k : nat =>
       let a := Z.of_nat k in
       Z.of_N (Byte.to_N
                 (byte_of_number
                    (fmul (of_Z 255) (fsub (of_Z 1) (fdiv (of_Z a) (of_Z 100))))))
       =? (if a =? 80 then 50 else 255 * (100 - a) / 100))
    (seq 0 101) = true.
Proof. vm_compute. reflexivity. Qed.

Lemma alpha_byte (a : Z) :
  0 <= a <= 100 ->
  Z.of_N (Byte.to_N
            (byte_of_number (fmul (of_Z 255) (fsub (of_Z 1) (fdiv (of_Z a) (of_Z 100))))))
  = if a =? 80 then 50 else 255 * (100 - a) / 100.
Proof.
  intro B.
  pose proof all_alphas as A.
  rewrite forallb_forall in A.
  specialize (A (Z.to_nat a)).
  cbv zeta in A. rewrite Z2Nat.id in A by lia.
  apply Z.eqb_eq. apply A. apply in_seq. lia.
Qed.

(** X12.  Opacity of a fetched overlay.  When getOverlayImage resolves, the
    layer composited onto the resized overlay is a 1x1 raw RGBA tile, blended
    with "dest-in", whose colour bytes are 255 and whose alpha byte is
    255 * (1 - alpha / 100) computed in binary64 and truncated when [alpha]
    passes the 0-100 test, and 255 when it does not.  That byte is
    255*(100 - alpha)/100 rounded down, but for an alpha of 80, where
    binary64 gives 50.999999999999986 and the byte is 50: an alpha of 100
    gives a fully transparent overlay, and a missing or malformed one a
    fully opaque overlay. *)
Theorem overlay_opacity (c : Collaborators)
    (bucket key wRatio hRatio alpha : value) (m : Metadata) (buffer : Buffer) :
  getOverlayImage c bucket key wRatio hRatio alpha m = Resolved buffer ->
  exists (resized : Sharp) (opacity : Byte.byte),
    sharp_toBuffer c
      (called resized "composite"
         (VArr
            [VObj
               [("input", VBuf [Byte.xff; Byte.xff; Byte.xff; opacity]);
                ("raw",
                 VObj [("width", vnum 1); ("height", vnum 1); ("channels", vnum 4)]);
                ("tile", VBool true);
                ("blend", VStr "dest-in")]]))
    = Resolved buffer
    /\ Z.of_N (Byte.to_N opacity)
       = match zeroToHundred alpha with
         | Some a => if a =? 80 then 50 else 255 * (100 - a) / 100
         | None => 255
         end
    /\ (zeroToHundred alpha = Some 100 -> opacity = Byte.x00)
    /\ (zeroToHundred alpha = None -> opacity = Byte.xff).
Proof.
  intro H.
  destruct (getOverlayImage_resolved _ _ _ _ _ _ _ _ H) as [body [_ T]].
  eexists. eexists. split; [exact T|].
  pose proof (zeroToHundred_range alpha) as R.
  destruct (zeroToHundred alpha) as [a|].
  - specialize (R _ eq_refl). split; [apply alpha_byte; exact R|].
    split; [|discriminate].
    intro E. injection E as ->. reflexivity.
  - split; [reflexivity|]. split; [discriminate|]. reflexivity.
Qed.

Lemma overlay_opacity_witness :
  exists (resized : Sharp) (opacity : Byte.byte),
    sharp_toBuffer Sim.collaborators
      (called resized "composite"
         (VArr
            [VObj
               [("input", VBuf [Byte.xff; Byte.xff; Byte.xff; opacity]);
                ("raw",
                 VObj [("width", vnum 1); ("height", vnum 1); ("channels", vnum 4)]);
                ("tile", VBool true);
                ("blend", VStr "dest-in")]]))
    = getOverlayImage Sim.collaborators (VStr "assets") (VStr "logo.png")
        VUndefined VUndefined (VStr "40") (mkMetadata 200 100)
    /\ Z.of_N (Byte.to_N opacity) = 153.
Proof.
  destruct (getOverlayImage Sim.collaborators (VStr "assets") (VStr "logo.png")
              VUndefined VUndefined (VStr "40") (mkMetadata 200 100))
    as [buffer|e] eqn:E; [|vm_compute in E; discriminate].
  destruct (overlay_opacity Sim.collaborators (VStr "assets") (VStr "logo.png")
              VUndefined VUndefined (VStr "40") (mkMetadata 200 100) buffer E)
    as [resized [opacity [T [A _]]]].
  exists resized, opacity. split; [exact T | exact A].
Defined.

(** X13.  What getOverlayImage rejects with.  Whatever fails inside it (the
    fetch, the image library, the encoding), the rejection is a plain
    object whose [status] is truthy and that carries no [statusCode]; when
    the fetch itself fails with [err], the image library is not consulted
    and the rejection has the code and message of [err], and as status the
    [statusCode] of [err] when that is truthy and 500 otherwise. *)
Theorem overlay_rejection (c : Collaborators)
    (bucket key wRatio hRatio alpha : value) (m : Metadata) (e : thrown) :
  getOverlayImage c bucket key wRatio hRatio alpha m = Failed e ->
  truthy (err_status e) = true
  /\ err_statusCode e = VUndefined
  /\ forall err : thrown,
       s3_getObject c bucket key = Failed err ->
       e = rejection
             (if truthy (err_statusCode err) then err_statusCode err else vnum 500)
             (err_code err) (err_message err).
Proof.
  unfold getOverlayImage.
  match goal with
  | |- match ?a with _ => _ end = _ -> _ => destruct a as [b|err] eqn:A
  end; [discriminate|].
  intro H. injection H as <-.
  split; [|split].
  - cbn [rejection err_status]. destruct (truthy (err_statusCode err)) eqn:T.
    + exact T.
    + reflexivity.
  - reflexivity.
  - intros err' G. rewrite G in A. cbn [and_then] in A. injection A as <-.
    reflexivity.
Qed.

Lemma overlay_rejection_witness :
  getOverlayImage Sim.collaborators (VStr "assets") (VStr "missing.png")
    VUndefined VUndefined VUndefined (mkMetadata 200 100)
  = Failed (rejection (vnum 404) (VStr "NoSuchKey") (VStr "The specified key does not exist."))
  /\ truthy (vnum 404) = true.
Proof.
  split; [reflexivity|].
  exact (proj1 (overlay_rejection Sim.collaborators (VStr "assets") (VStr "missing.png")
                  VUndefined VUndefined VUndefined (mkMetadata 200 100) _ eq_refl)).
Defined.

(* ------------------------------------------------------------------ *)
(** ** The face that smartCrop crops to *)

Lemma element_In {A : Type} (a : list A) :
  forall (i : value) (x : A), element a i = Some x -> In x a.
Proof.
  assert (S : forall (s : string) (x : A),
             match parse_digits 10 s None with
             | (Some n, EmptyString) =>
                 if String.eqb (decimal_string n) s then nth_error a (Z.to_nat n) else None
             | _ => None
             end = Some x -> In x a).
  { intros s x.
    destruct (parse_digits 10 s None) as [[n|] [|ch rest]]; try discriminate.
    destruct (String.eqb (decimal_string n) s); [|discriminate].
    apply nth_error_In. }
  fix IH 1. intros i x.
  destruct i as [| | |n|s|b|items|fields]; cbn [element]; try discriminate.
  - destruct n as [|q]; [discriminate|].
    destruct (Qeq_bool (inject_Z (trunc q)) q && (0 <=? trunc q)); [|discriminate].
    apply nth_error_In.
  - apply S.
  - apply S.
  - destruct items as [|y [|z rest]]; try discriminate. apply IH.
Qed.

Lemma element_nil {A : Type} :
  forall i : value, element (@nil A) i = None.
Proof.
  intro i. destruct (element (@nil A) i) as [x|] eqn:E; [|reflexivity].
  destruct (element_In [] i x E).
Qed.

Lemma array_property_number (c : Collaborators) (n : number) :
  array_property c (VNum n) = false.
Proof. reflexivity. Qed.

(** X14.  What getBoundingBox resolves with.  It is one of the faces that
    the detector reported for the image, the first one when no face index
    is given and the one at position [n] when the index is the
    non-negative integer [n]; or else it is undefined, which happens only
    for a face index that names a property of every array (length, an
    inherited method), and never for an index that is undefined or a
    number. *)
Theorem bounding_box_is_a_detected_face (c : Collaborators) (imageBuffer : Buffer)
    (faceIndex : value) (found : option BoundingBox) :
  getBoundingBox c imageBuffer faceIndex = Resolved found ->
  exists faces : list BoundingBox,
    rekognition_detectFaces c imageBuffer = Resolved faces
    /\ match found with
       | Some box =>
           In box faces
           /\ (faceIndex = VUndefined -> nth_error faces 0 = Some box)
           /\ (forall n : Z, 0 <= n -> faceIndex = vnum n ->
               nth_error faces (Z.to_nat n) = Some box)
       | None =>
           array_property c faceIndex = true
           /\ faceIndex <> VUndefined
           /\ (forall n : number, faceIndex <> VNum n)
       end.
Proof.
  unfold getBoundingBox.
  destruct (rekognition_detectFaces c imageBuffer) as [faces|err]; cbn [and_then].
  - destruct (element faces (if negb (is_undefined faceIndex) then faceIndex else vnum 0))
      as [b|] eqn:E.
    + intro H. injection H as <-. exists faces.
      split; [reflexivity|]. split; [exact (element_In _ _ _ E)|]. split.
      * intros ->. cbn [is_undefined negb] in E.
        rewrite (element_number faces 0) in E by lia. exact E.
      * intros n Hn ->. cbn [is_undefined vnum negb] in E.
        rewrite (element_number faces n Hn) in E. exact E.
    + destruct (array_property c
                  (if negb (is_undefined faceIndex) then faceIndex else vnum 0)) eqn:P.
      * intro H. injection H as <-. exists faces. split; [reflexivity|].
        destruct faceIndex; cbn [is_undefined negb] in P; try discriminate;
          (split; [exact P | split; [discriminate | intros n N; discriminate]]).
      * intro H. vm_compute in H. discriminate.
  - destruct (is_string (err_message err) _); discriminate.
Qed.

Lemma bounding_box_is_a_detected_face_witness :
  (exists faces : list BoundingBox,
      rekognition_detectFaces Sim.collaborators Sim.picture = Resolved faces
      /\ In Sim.face faces
      /\ (vnum 0 = VUndefined -> nth_error faces 0 = Some Sim.face)
      /\ (forall n : Z, 0 <= n -> vnum 0 = vnum n ->
          nth_error faces (Z.to_nat n) = Some Sim.face))
  /\ (exists faces : list BoundingBox,
         rekognition_detectFaces Sim.collaborators Sim.picture = Resolved faces
         /\ array_property Sim.collaborators (VStr "length") = true
         /\ VStr "length" <> VUndefined
         /\ (forall n : number, VStr "length" <> VNum n)).
Proof.
  split.
  - exact (bounding_box_is_a_detected_face Sim.collaborators Sim.picture (vnum 0)
             (Some Sim.face) eq_refl).
  - exact (bounding_box_is_a_detected_face Sim.collaborators Sim.picture (VStr "length")
             None eq_refl).
Defined.

Lemma is_string_eq (a : value) (s : string) : is_string a s = true <-> a = VStr s.
Proof.
  split.
  - destruct a; cbn [is_string]; try discriminate.
    intro E. apply String.eqb_eq in E. congruence.
  - intros ->. cbn [is_string]. apply String.eqb_refl.
Qed.

(** X15.  Every way getBoundingBox can fail.  A rejection is either the
    400 SmartCrop::FaceIndexOutOfRange, exactly when the detector answered
    without a face at the requested index or failed with an error whose
    message is the text "Cannot read property 'BoundingBox' of undefined",
    or else a rejection with status 500 and the code and message of the
    detector's error.  No other status leaves the function. *)
Theorem bounding_box_rejections (c : Collaborators) (imageBuffer : Buffer)
    (faceIndex : value) (e : thrown) :
  getBoundingBox c imageBuffer faceIndex = Failed e ->
  (e = FaceIndexOutOfRange
   /\ ((exists faces : list BoundingBox,
          rekognition_detectFaces c imageBuffer = Resolved faces
          /\ element faces (faceIdx faceIndex) = None)
       \/ (exists err : thrown,
             rekognition_detectFaces c imageBuffer = Failed err
             /\ err_message err = BoundingBox_of_undefined)))
  \/ (exists err : thrown,
        rekognition_detectFaces c imageBuffer = Failed err
        /\ err_message err <> BoundingBox_of_undefined
        /\ e = rejection (vnum 500) (err_code err) (err_message err)).
Proof.
  unfold getBoundingBox, faceIdx, BoundingBox_of_undefined.
  destruct (rekognition_detectFaces c imageBuffer) as [faces|err]; cbn [and_then].
  - destruct (is_undefined faceIndex); cbn [negb].
    + destruct (element faces (vnum 0)) as [b|] eqn:E; [discriminate|].
      cbn [array_property].
      intro H. vm_compute in H. injection H as <-.
      left. split; [reflexivity|]. left. exists faces. split; [reflexivity | exact E].
    + destruct (element faces faceIndex) as [b|] eqn:E; [discriminate|].
      destruct (array_property c faceIndex); [discriminate|].
      intro H. vm_compute in H. injection H as <-.
      left. split; [reflexivity|]. left. exists faces. split; [reflexivity | exact E].
  - destruct (is_string (err_message err)
                "Cannot read property 'BoundingBox' of undefined") eqn:S.
    + intro H. injection H as <-.
      left. split; [reflexivity|]. right. exists err.
      split; [reflexivity|]. apply is_string_eq. exact S.
    + intro H. injection H as <-.
      right. exists err. split; [reflexivity|]. split; [|reflexivity].
      intro M. apply is_string_eq in M. congruence.
Qed.

Lemma bounding_box_rejections_witness :
  (FaceIndexOutOfRange = FaceIndexOutOfRange
   /\ ((exists faces : list BoundingBox,
          rekognition_detectFaces faceless Sim.picture = Resolved faces
          /\ element faces (faceIdx (VStr "0")) = None)
       \/ (exists err : thrown,
             rekognition_detectFaces faceless Sim.picture = Failed err
             /\ err_message err = BoundingBox_of_undefined)))
  \/ (exists err : thrown,
        rekognition_detectFaces faceless Sim.picture = Failed err
        /\ err_message err <> BoundingBox_of_undefined
        /\ FaceIndexOutOfRange = rejection (vnum 500) (err_code err) (err_message err)).
Proof.
  exact (bounding_box_rejections faceless Sim.picture (VStr "0") FaceIndexOutOfRange
           eq_refl).
Defined.

(** The smartCrop branch when the detector finds no face at the index. *)
Lemma smartCrop_without_face (c : Collaborators) (metadata : Metadata) (options : value)
    (s : state) (imageBuffer : Buffer) (faceIndex : value) (faces : list BoundingBox) :
  sharp_toBuffer c (st_image s) = Resolved imageBuffer ->
  read options "faceIndex" = Resolved faceIndex ->
  rekognition_detectFaces c imageBuffer = Resolved faces ->
  element faces (faceIdx faceIndex) = None ->
  smartCrop c metadata options s
  = (Failed (if array_property c (faceIdx faceIndex) then Left_of_undefined
             else FaceIndexOutOfRange), s).
Proof.
  intros Hb Hr Hd He.
  assert (G : getBoundingBox c imageBuffer faceIndex
              = if array_property c (faceIdx faceIndex) then Resolved None
                else Failed FaceIndexOutOfRange).
  { unfold getBoundingBox. rewrite Hd. cbn [and_then].
    unfold faceIdx in *.
    destruct (is_undefined faceIndex); cbn [negb]; rewrite He;
      match goal with
      | |- context [array_property c ?i] => destruct (array_property c i)
      end; reflexivity. }
  unfold smartCrop.
  cbv [bind gets await try_catch image_call call modify throw].
  rewrite Hb, Hr, G.
  destruct (array_property c (faceIdx faceIndex)); reflexivity.
Qed.

(** X16.  A picture without faces cannot be smart-cropped.  When the loop
    of applyEdits reaches a smartCrop edit (at index [j], in state [s])
    whose options are an object, and the detector reports no face for the
    current image, applyEdits fails, whatever the padding is: with the 400
    SmartCrop::FaceIndexOutOfRange when the face index is undefined or a
    number, and for every other key but the name of a property that every
    array has (length, an inherited method), for which getBoundingBox
    resolves with undefined and applyEdits fails with the TypeError of
    reading [Left] of undefined.  The library's [extract] is not reached,
    and the edits are left as they were when the loop got there. *)
Theorem no_face_no_crop (c : Collaborators) (templates : Templates) (v : Variant)
    (originalImage : Buffer) (edits : object) (j : nat) (metadata : Metadata)
    (s : state) (imageBuffer : Buffer) (fields : object) :
  sharp_metadata c (opened originalImage) = Resolved metadata ->
  nth_error (keys (defaultResize edits)) j = Some "smartCrop" ->
  applyEditsFrom c templates v metadata 0 (firstn j (keys (defaultResize edits)))
    (mkState (defaultResize edits) (opened originalImage))
  = (Resolved tt, s) ->
  nth j (values (st_edits s)) VUndefined = VObj fields ->
  sharp_toBuffer c (st_image s) = Resolved imageBuffer ->
  rekognition_detectFaces c imageBuffer = Resolved [] ->
  applyEdits c templates v originalImage edits
  = (Failed (if array_property c (faceIdx (get fields "faceIndex"))
             then Left_of_undefined else FaceIndexOutOfRange),
     st_edits s)
  /\ (get fields "faceIndex" = VUndefined
      \/ (exists n : number, get fields "faceIndex" = VNum n) ->
      applyEdits c templates v originalImage edits
      = (Failed FaceIndexOutOfRange, st_edits s)).
Proof.
  intros Hm Hk Hloop Ho Hb Hd.
  assert (A : applyEdits c templates v originalImage edits
              = (Failed (if array_property c (faceIdx (get fields "faceIndex"))
                         then Left_of_undefined else FaceIndexOutOfRange),
                 st_edits s)).
  { unfold applyEdits. fold (opened originalImage).
    unfold bind at 1. unfold await at 1. rewrite Hm.
    assert (Hturn : turn c templates v metadata j "smartCrop" s
                    = (Failed (if array_property c (faceIdx (get fields "faceIndex"))
                               then Left_of_undefined else FaceIndexOutOfRange), s)).
    { unfold turn, bind, gets, applyEdit. cbn [String.eqb Ascii.eqb Bool.eqb].
      rewrite Ho.
      apply (smartCrop_without_face c metadata (VObj fields) s imageBuffer
               (get fields "faceIndex") []).
      - exact Hb.
      - reflexivity.
      - exact Hd.
      - apply element_nil. }
    unfold bind.
    rewrite (applyEditsFrom_fails c templates v metadata _ j "smartCrop" _ s s
               _ Hk Hloop Hturn).
    reflexivity. }
  split; [exact A|].
  intros [E | [n E]]; rewrite A, E; reflexivity.
Qed.

Lemma no_face_no_crop_witness :
  applyEdits faceless Sim.templates Fetching Sim.picture
    [("resize", VObj [("width", vnum 100)]);
     ("smartCrop", VObj [("faceIndex", vnum 0); ("padding", vnum 5)])]
  = (Failed FaceIndexOutOfRange,
     [("resize", VObj [("width", vnum 100)]);
      ("smartCrop", VObj [("faceIndex", vnum 0); ("padding", vnum 5)])])
  /\ applyEdits faceless Sim.templates Fetching Sim.picture
       [("smartCrop", VObj [("faceIndex", VStr "length")])]
     = (Failed Left_of_undefined,
        [("smartCrop", VObj [("faceIndex", VStr "length")]); ("resize", fit_inside)]).
Proof.
  split.
  - apply (proj2 (no_face_no_crop faceless Sim.templates Fetching Sim.picture
                    [("resize", VObj [("width", vnum 100)]);
                     ("smartCrop", VObj [("faceIndex", vnum 0); ("padding", vnum 5)])]
                    1%nat (mkMetadata 200 100)
                    (mkState
                       [("resize", VObj [("width", vnum 100)]);
                        ("smartCrop",
                         VObj [("faceIndex", vnum 0); ("padding", vnum 5)])]
                       (called (opened Sim.picture) "resize"
                          (VObj [("width", vnum 100)])))
                    (Sim.encode (mkMetadata 100 50))
                    [("faceIndex", vnum 0); ("padding", vnum 5)]
                    eq_refl eq_refl eq_refl eq_refl eq_refl eq_refl)).
    right. eexists. reflexivity.
  - exact (proj1 (no_face_no_crop faceless Sim.templates Fetching Sim.picture
                    [("smartCrop", VObj [("faceIndex", VStr "length")])]
                    0%nat (mkMetadata 200 100)
                    (mkState
                       [("smartCrop", VObj [("faceIndex", VStr "length")]);
                        ("resize", fit_inside)]
                       (opened Sim.picture))
                    (Sim.encode (mkMetadata 200 100))
                    [("faceIndex", VStr "length")]
                    eq_refl eq_refl eq_refl eq_refl eq_refl eq_refl)).
Defined.

(* ------------------------------------------------------------------ *)
(** ** process with edits *)

Lemma applyEdits_extends (c : Collaborators) (templates : Templates) (v : Variant)
    (original : Buffer) (edits : object) (h : Sharp) :
  fst (applyEdits c templates v original edits) = Resolved h ->
  extends_by (List.length (keys (defaultResize edits))) (opened original) h.
Proof.
  unfold applyEdits. fold (opened original). cbv [bind await].
  destruct (sharp_metadata c (opened original)) as [metadata|e]; [|discriminate].
  destruct (applyEditsFrom c templates v metadata 0 (keys (defaultResize edits))
              (mkState (defaultResize edits) (opened original)))
    as [[[]|e] s'] eqn:L; cbn [fst gets]; [|discriminate].
  intro H. injection H as <-.
  exact (applyEditsFrom_calls _ _ _ _ _ _ _ _ _ L).
Qed.

(** X17.  What process returns for a request with edits.  The string is
    the base64 encoding of a buffer that the image library encoded from a
    handle on the original image (never the original bytes themselves);
    the methods invoked on that handle are at most one per key of the
    edits (default resize included), followed, exactly when an output
    format is requested, by [toFormat] with that format as the last call. *)
Theorem process_encodes_edited_image (c : Collaborators) (templates : Templates)
    (v : Variant) (request : ImageRequest) (requested : object) (result : string) :
  edits request = Some requested ->
  fst (process c templates v request) = Resolved result ->
  exists (h : Sharp) (bufferImage : Buffer) (applied : list (string * value)),
    sharp_toBuffer c h = Resolved bufferImage
    /\ result = base64 bufferImage
    /\ sharp_input h = originalImage request
    /\ sharp_options h = VObj [("failOnError", VBool false)]
    /\ (List.length applied <= List.length (keys (defaultResize requested)))%nat
    /\ sharp_calls h
       = if is_undefined (outputFormat request) then applied
         else (applied ++ [("toFormat", outputFormat request)])%list.
Proof.
  destruct request as [original requested' format].
  cbn [edits originalImage outputFormat]. intros ->.
  unfold process. cbn [edits originalImage outputFormat].
  pose proof (applyEdits_extends c templates v original requested) as X.
  destruct (applyEdits c templates v original requested) as [[h|e] edits'];
    cbn [fst and_then]; [|discriminate].
  destruct (X h eq_refl) as [I [O [l [C L]]]].
  cbn [opened sharp sharp_input sharp_options sharp_calls app] in I, O, C.
  destruct (is_undefined format); cbn [negb and_then].
  - destruct (sharp_toBuffer c h) as [b|e] eqn:T; cbn [and_then]; [|discriminate].
    intro H. injection H as <-.
    exists h, b, l. repeat split; try assumption; reflexivity.
  - unfold call.
    destruct (sharp_invoke c h "toFormat" format); cbn [and_then]; [discriminate|].
    match goal with
    | |- context [sharp_toBuffer c ?h'] => destruct (sharp_toBuffer c h') as [b|e] eqn:T
    end; cbn [and_then]; [|discriminate].
    intro H. injection H as <-.
    eexists. exists b, l. split; [exact T|].
    cbn [sharp_input sharp_options sharp_calls].
    rewrite C. repeat split; try assumption; reflexivity.
Qed.

Lemma process_encodes_edited_image_witness :
  exists (h : Sharp) (bufferImage : Buffer) (applied : list (string * value)),
    sharp_toBuffer Sim.collaborators h = Resolved bufferImage
    /\ "ZDI=" = base64 bufferImage
    /\ sharp_input h = Sim.picture
    /\ sharp_options h = VObj [("failOnError", VBool false)]
    /\ (List.length applied
        <= List.length (keys (defaultResize [("resize", VObj [("width", vnum 100)])])))%nat
    /\ sharp_calls h = (applied ++ [("toFormat", VStr "png")])%list.
Proof.
  exact (process_encodes_edited_image Sim.collaborators Sim.templates Fetching
           (mkImageRequest Sim.picture (Some [("resize", VObj [("width", vnum 100)])])
              (VStr "png"))
           [("resize", VObj [("width", vnum 100)])] "ZDI=" eq_refl eq_refl).
Defined.

(* ------------------------------------------------------------------ *)
(** ** The crop area without padding *)

(** The number that getCropArea hands to parseInt for an origin or an
    extent without padding: within 2^-21 of the exact product. *)
Lemma crop_value_near (x : Q) (extent : Z) :
  (0 <= x)%Q -> (x <= 1)%Q -> 0 <= extent < 2 ^ 31 ->
  (exists l : Q,
      fsub (fmul (Fin x) (of_Z extent)) (of_Z 0) = Fin l
      /\ (0 <= l)%Q /\ (l <= x * inject_Z extent + (1 # 2097152))%Q)
  /\ (exists w : Q,
         fadd (fmul (Fin x) (of_Z extent)) (fmul (of_Z 0) (of_Z 2)) = Fin w
         /\ (0 <= w)%Q /\ (w <= x * inject_Z extent + (1 # 2097152))%Q).
Proof.
  intros H0 H1 He.
  assert (E0 : (inject_Z 0 <= inject_Z extent)%Q) by (rewrite <- Zle_Qle; lia).
  assert (E1 : (inject_Z extent < inject_Z (2 ^ 31))%Q) by (rewrite <- Zlt_Qlt; lia).
  change (inject_Z 0) with 0%Q in E0.
  change (inject_Z (2 ^ 31)) with (2147483648 # 1)%Q in E1.
  assert (P0 : (0 <= x * inject_Z extent)%Q) by (apply Qmult_le_0_compat; assumption).
  assert (P1 : (x * inject_Z extent <= inject_Z extent)%Q).
  { rewrite <- (Qmult_1_l (inject_Z extent)) at 2.
    apply Qmult_le_compat_r; assumption. }
  assert (K31 : (Qpow2 31 == 2147483648 # 1)%Q) by (vm_compute; reflexivity).
  assert (K32 : (Qpow2 32 == 4294967296 # 1)%Q) by (vm_compute; reflexivity).
  assert (K23 : (Qpow2 (31 - 54) == 1 # 8388608)%Q) by (vm_compute; reflexivity).
  assert (K22 : (Qpow2 (32 - 54) == 1 # 4194304)%Q) by (vm_compute; reflexivity).
  assert (B : (Qabs (x * inject_Z extent) < Qpow2 31)%Q).
  { rewrite (Qabs_pos _ P0), K31. lra. }
  destruct (fl_near (x * inject_Z extent) 31 ltac:(lia) B) as [r [F [N P]]].
  specialize (P P0). rewrite K23 in N. apply Qabs_Qle_condition in N.
  assert (Z2 : fmul (of_Z 0) (of_Z 2) = Fin 0) by (vm_compute; reflexivity).
  unfold of_Z at 1 3. cbn [fmul]. rewrite F, Z2. cbn [fsub fadd of_Z].
  change (inject_Z 0) with 0%Q.
  split.
  - assert (B2 : (Qabs (r - 0) < Qpow2 32)%Q).
    { setoid_replace (r - 0)%Q with r by ring. rewrite (Qabs_pos _ P), K32. lra. }
    destruct (fl_near (r - 0) 32 ltac:(lia) B2) as [l [Fl [Nl Pl]]].
    rewrite K22 in Nl. apply Qabs_Qle_condition in Nl.
    exists l. split; [exact Fl|]. split; [apply Pl; lra | lra].
  - assert (B2 : (Qabs (r + 0) < Qpow2 32)%Q).
    { setoid_replace (r + 0)%Q with r by ring. rewrite (Qabs_pos _ P), K32. lra. }
    destruct (fl_near (r + 0) 32 ltac:(lia) B2) as [w [Fw [Nw Pw]]].
    rewrite K22 in Nw. apply Qabs_Qle_condition in Nw.
    exists w. split; [exact Fw|]. split; [apply Pw; lra | lra].
Qed.

Lemma floors_inside (a b a' b' : Q) (extent : Z) :
  (0 <= a')%Q -> (0 <= b')%Q ->
  (a' <= a + (1 # 2097152))%Q -> (b' <= b + (1 # 2097152))%Q ->
  (a + b <= inject_Z extent)%Q ->
  0 <= Qfloor a' /\ 0 <= Qfloor b' /\ Qfloor a' + Qfloor b' <= extent.
Proof.
  intros Ha Hb Na Nb Hs.
  split; [exact (Qfloor_resp_le 0 a' Ha)|].
  split; [exact (Qfloor_resp_le 0 b' Hb)|].
  pose proof (Qfloor_le a') as Fa. pose proof (Qfloor_le b') as Fb.
  assert (L : (inject_Z (Qfloor a' + Qfloor b') < inject_Z (extent + 1))%Q).
  { rewrite !inject_Z_plus. change (inject_Z 1) with 1%Q. lra. }
  rewrite <- Zlt_Qlt in L. lia.
Qed.

(** X18.  Without padding the crop area lies inside the image.  For a
    bounding box given as fractions of the image (a non-negative origin and
    extent on each axis, origin plus extent at most 1), options without a
    padding and an image whose extents are below 2^31, getCropArea returns
    integers [left], [top], [width], [height] that are not negative and
    satisfy left + width <= image width and top + height <= image height,
    as long as none of the four numbers that it computes (in binary64) is
    so small that it is printed with an exponent. *)
Theorem crop_area_within_image (L T W H : Q) (options : value) (m : Metadata) :
  prop options "padding" = VUndefined ->
  (0 <= L)%Q -> (0 <= W)%Q -> (L + W <= 1)%Q ->
  (0 <= T)%Q -> (0 <= H)%Q -> (T + H <= 1)%Q ->
  0 <= width m < 2 ^ 31 -> 0 <= height m < 2 ^ 31 ->
  exponent_printed (fsub (fmul (Fin L) (of_Z (width m))) (of_Z 0)) = false ->
  exponent_printed (fsub (fmul (Fin T) (of_Z (height m))) (of_Z 0)) = false ->
  exponent_printed
    (fadd (fmul (Fin W) (of_Z (width m))) (fmul (of_Z 0) (of_Z 2))) = false ->
  exponent_printed
    (fadd (fmul (Fin H) (of_Z (height m))) (fmul (of_Z 0) (of_Z 2))) = false ->
  exists l t w h : Z,
    getCropArea (mkBoundingBox (Fin L) (Fin T) (Fin W) (Fin H)) options m
    = VObj [("left", vnum l); ("top", vnum t); ("width", vnum w); ("height", vnum h)]
    /\ 0 <= l /\ 0 <= w /\ l + w <= width m
    /\ 0 <= t /\ 0 <= h /\ t + h <= height m.
Proof.
  intros Hp HL HW HLW HT HH HTH Hw Hh DL DT DW DH.
  destruct (proj1 (crop_value_near L (width m) HL ltac:(lra) Hw)) as [l [El [Pl Nl]]].
  destruct (proj1 (crop_value_near T (height m) HT ltac:(lra) Hh)) as [t [Et [Pt Nt]]].
  destruct (proj2 (crop_value_near W (width m) HW ltac:(lra) Hw)) as [w [Ew [Pw Nw]]].
  destruct (proj2 (crop_value_near H (height m) HH ltac:(lra) Hh)) as [h [Eh [Ph Nh]]].
  rewrite El in DL. rewrite Et in DT. rewrite Ew in DW. rewrite Eh in DH.
  cbn [exponent_printed] in DL, DT, DW, DH.
  assert (E0 : forall extent : Z, 0 <= extent -> (0 <= inject_Z extent)%Q).
  { intros extent He. change 0%Q with (inject_Z 0). rewrite <- Zle_Qle. exact He. }
  assert (SW : (L * inject_Z (width m) + W * inject_Z (width m) <= inject_Z (width m))%Q).
  { rewrite <- Qmult_plus_distr_l.
    rewrite <- (Qmult_1_l (inject_Z (width m))) at 2.
    apply Qmult_le_compat_r; [exact HLW | apply E0; lia]. }
  assert (SH : (T * inject_Z (height m) + H * inject_Z (height m)
                <= inject_Z (height m))%Q).
  { rewrite <- Qmult_plus_distr_l.
    rewrite <- (Qmult_1_l (inject_Z (height m))) at 2.
    apply Qmult_le_compat_r; [exact HTH | apply E0; lia]. }
  destruct (floors_inside _ _ l w _ Pl Pw Nl Nw SW) as [BL [BW BLW]].
  destruct (floors_inside _ _ t h _ Pt Ph Nt Nh SH) as [BT [BH BTH]].
  exists (Qfloor l), (Qfloor t), (Qfloor w), (Qfloor h).
  split; [|repeat split; assumption].
  unfold getCropArea, padding_of. rewrite Hp.
  cbn [is_undefined negb Left Top Width Height].
  rewrite El, Et, Ew, Eh.
  rewrite (parseInt_number_decimal l l (Qeq_refl l) DL),
    (parseInt_number_decimal t t (Qeq_refl t) DT),
    (parseInt_number_decimal w w (Qeq_refl w) DW),
    (parseInt_number_decimal h h (Qeq_refl h) DH).
  rewrite !trunc_nonneg by assumption.
  reflexivity.
Qed.

Lemma crop_area_within_image_witness :
  exists l t w h : Z,
    getCropArea Sim.face (VObj [("faceIndex", vnum 0)]) (mkMetadata 200 100)
    = VObj [("left", vnum l); ("top", vnum t); ("width", vnum w); ("height", vnum h)]
    /\ 0 <= l /\ 0 <= w /\ l + w <= 200
    /\ 0 <= t /\ 0 <= h /\ t + h <= 100.
Proof.
  apply (crop_area_within_image (1 # 10) (2 # 10) (5 # 10) (4 # 10)
           (VObj [("faceIndex", vnum 0)]) (mkMetadata 200 100));
    first [reflexivity | discriminate | (vm_compute; reflexivity)
          | (vm_compute; split; [discriminate | reflexivity])].
Defined.

(* ------------------------------------------------------------------ *)
(** ** An overlay that cannot be fetched *)

Lemma getOverlayImage_store_failure (c : Collaborators)
    (bucket key wRatio hRatio alpha : value) (m : Metadata) (err : thrown) :
  s3_getObject c bucket key = Failed err ->
  getOverlayImage c bucket key wRatio hRatio alpha m = Failed (fetch_rejection err).
Proof.
  intro H. unfold getOverlayImage. rewrite H. reflexivity.
Qed.

(** X19.  An overlay that the store does not deliver aborts the edit.  When
    the fetch of the overlay fails with [err], the overlayWith branch fails
    with the code and message of [err] and, as status, its [statusCode]
    (500 when it has none): nothing is composited and nothing is written
    into the edits.  In image-handler.js the TEPWatermark branch fails in
    the same way, although it makes no use of the overlay. *)
Theorem fetch_failure_aborts (c : Collaborators) (templates : Templates)
    (metadata : Metadata) (i : nat) (fields : object) (s : state)
    (imageMetadata : Metadata) (err : thrown) :
  pendingResizeMetadata c metadata s = (Resolved imageMetadata, s) ->
  s3_getObject c (get fields "bucket") (get fields "key") = Failed err ->
  overlayWith c metadata i (VObj fields) s = (Failed (fetch_rejection err), s)
  /\ (forall options : object,
         get fields "options" = VObj options ->
         TEPWatermark c templates Fetching metadata (VObj fields) s
         = (Failed (fetch_rejection err), s)).
Proof.
  intros Hp Hs.
  pose proof (getOverlayImage_store_failure c (get fields "bucket") (get fields "key")
                (get fields "wRatio") (get fields "hRatio") (get fields "alpha")
                imageMetadata err Hs) as G.
  split.
  - unfold overlayWith.
    unfold bind at 1. rewrite Hp.
    unfold bind at 1. unfold await at 1. cbn [destructurable].
    unfold bind at 1. unfold await at 1. cbn [prop]. rewrite G. reflexivity.
  - intros options Ho. cbn [TEPWatermark]. unfold TEPWatermark_fetching.
    unfold bind at 1. rewrite Hp.
    unfold bind at 1. unfold await at 1. cbn [destructurable].
    cbn [prop]. rewrite Ho.
    unfold bind at 1. unfold await at 1. cbn [destructurable].
    unfold bind at 1. unfold await at 1. rewrite G. reflexivity.
Qed.

Lemma fetch_failure_aborts_witness :
  overlayWith Sim.collaborators (mkMetadata 200 100) 0 (VObj missing_overlay)
    missing_overlay_state
  = (Failed (rejection (vnum 404) (VStr "NoSuchKey")
               (VStr "The specified key does not exist.")),
     missing_overlay_state).
Proof.
  exact (proj1 (fetch_failure_aborts Sim.collaborators Sim.templates
                  (mkMetadata 200 100) 0 missing_overlay missing_overlay_state
                  (mkMetadata 200 100) Sim.NoSuchKey eq_refl eq_refl)).
Defined.

(** X20.  A watermark needs options.  A TEPWatermark edit whose [options]
    are undefined or null never composites anything: the branch fails and
    leaves the image and the edits as they were.  In the variant with
    styles the error is the TypeError of destructuring [name]; in
    image-handler.js it is that TypeError once the metadata has been read. *)
Theorem watermark_needs_options (c : Collaborators) (templates : Templates)
    (v : Variant) (metadata : Metadata) (fields : object) (s : state) :
  get fields "options" = VUndefined \/ get fields "options" = VNull ->
  exists e : thrown,
    TEPWatermark c templates v metadata (VObj fields) s = (Failed e, s)
    /\ (v = Styled -> e = options_missing)
    /\ (forall imageMetadata : Metadata,
           pendingResizeMetadata c metadata s = (Resolved imageMetadata, s) ->
           e = options_missing).
Proof.
  intro Ho.
  assert (D : destructurable (get fields "options") "name" = Failed options_missing)
    by (destruct Ho as [-> | ->]; reflexivity).
  destruct v; cbn [TEPWatermark].
  - unfold TEPWatermark_fetching.
    destruct (pendingResizeMetadata c metadata s) as [[im|e] s'] eqn:P.
    + pose proof (stateless_pendingResizeMetadata c metadata _ _ _ P) as E. subst s'.
      exists options_missing. split; [|split; [discriminate | reflexivity]].
      unfold bind at 1. rewrite P.
      unfold bind at 1. unfold await at 1. cbn [destructurable prop].
      unfold bind at 1. unfold await at 1. rewrite D. reflexivity.
    + pose proof (stateless_pendingResizeMetadata c metadata _ _ _ P) as E. subst s'.
      exists e. split; [|split; [discriminate|]].
      * unfold bind at 1. rewrite P. reflexivity.
      * intros im H. discriminate.
  - exists options_missing. split; [|split; reflexivity].
    unfold TEPWatermark_styled.
    unfold bind at 1. unfold await at 1. cbn [destructurable prop].
    unfold bind at 1. unfold await at 1. rewrite D. reflexivity.
Qed.

Lemma watermark_needs_options_witness :
  exists e : thrown,
    TEPWatermark Sim.collaborators Sim.templates Styled (mkMetadata 200 100)
      (VObj [("bucket", VStr "assets"); ("key", VStr "logo.png")]) missing_overlay_state
    = (Failed e, missing_overlay_state)
    /\ (Styled = Styled -> e = options_missing)
    /\ (forall imageMetadata : Metadata,
           pendingResizeMetadata Sim.collaborators (mkMetadata 200 100)
             missing_overlay_state
           = (Resolved imageMetadata, missing_overlay_state) ->
           e = options_missing).
Proof.
  apply (watermark_needs_options Sim.collaborators Sim.templates Styled
           (mkMetadata 200 100)
           [("bucket", VStr "assets"); ("key", VStr "logo.png")] missing_overlay_state).
  left. reflexivity.
Defined.

(* ------------------------------------------------------------------ *)
(** ** A padding that is not a number *)

(** X21.  A padding that is defined and not numeric is neither rejected
    nor replaced by 0: when parseFloat reads no number from
    [options.padding] (null, a boolean, an object, a string such as "wide"),
    each of the four fields of the crop area is NaN, whatever the bounding
    box and the image are. *)
Theorem padding_not_a_number (box : BoundingBox) (options : value) (m : Metadata) :
  is_undefined (prop options "padding") = false ->
  parseFloat (prop options "padding") = NaN ->
  getCropArea box options m
  = VObj [("left", VNum NaN); ("top", VNum NaN);
          ("width", VNum NaN); ("height", VNum NaN)].
Proof.
  intros D P. unfold getCropArea, padding_of. rewrite D, P. cbn [negb].
  assert (S : forall a : number, fsub a NaN = NaN) by (intros [|a]; reflexivity).
  assert (A : forall a : number, fadd a (fmul NaN (of_Z 2)) = NaN)
    by (intros [|a]; reflexivity).
  rewrite !S, !A. reflexivity.
Qed.

Lemma padding_not_a_number_witness :
  getCropArea Sim.face (VObj [("padding", VStr "wide")]) (mkMetadata 200 100)
  = VObj [("left", VNum NaN); ("top", VNum NaN);
          ("width", VNum NaN); ("height", VNum NaN)]
  /\ getCropArea Sim.face (VObj [("padding", VNull)]) (mkMetadata 200 100)
     = VObj [("left", VNum NaN); ("top", VNum NaN);
             ("width", VNum NaN); ("height", VNum NaN)].
Proof.
  split.
  - apply (padding_not_a_number Sim.face (VObj [("padding", VStr "wide")])
             (mkMetadata 200 100)); reflexivity.
  - apply (padding_not_a_number Sim.face (VObj [("padding", VNull)])
             (mkMetadata 200 100)); reflexivity.
Defined.
